(** * equiCast-awsutils: cost estimators and object transfer

A shallow embedding of

- [equicast_awsutils/cost/s3.py]             (class [S3], tiered pricing),
- [equicast_awsutils/cost/code_artifact.py]  (class [CodeArtifact], flat rate),
- [equicast_awsutils/s3.py]                  ([S3.download_files],
                                              [S3.upload_files]),

and the properties the specification states about them.

Numbers.  The estimators compute with Python [float] and [int].  The
arithmetic they use is collected in the class [Number]; every method of
the estimators is written once, over that class.  The instance the code
runs is [binary64]: IEEE 754 double precision, the kernel's primitive
floats, which is what CPython computes with.  Statements about every
capacity, cost or threshold are proved there, from the specification of
the primitive floats.  A second instance, [exact], has rational numbers
with the special values of IEEE 754 and no rounding: it is the real-number
function that the doubles approximate, and it is where a property that has
no meaning on doubles (continuity) is stated.

Effects.  A method of an estimator reads and writes the fields of [self],
reads the file system and the process environment, prints, appends to
files and may raise.  It is embedded as a function from the object to an
outcome (an exception or a value), the object afterwards, and the list of
events it performed, in program order. *)

From Stdlib Require Import ZArith QArith Qabs Lqa Lia Bool List String Ascii.
From Stdlib Require Import Floats.
From Stdlib Require Uint63.
Import ListNotations.

Set Implicit Arguments.

(** ** Numbers *)

Declare Scope num_scope.
Delimit Scope num_scope with num.

(** The operations of Python numbers the sources use.  [of_int n] is the
    integer [n] as a number; [ratio a b] is the true division [a / b] of two
    integers with [b > 0], which is also how a decimal literal reads
    ([0.023] is [ratio 23 1000]); [inf] is [float('inf')]. *)
Class Number (F : Type) : Type := {
  of_int : Z -> F;
  ratio : Z -> positive -> F;
  inf : F;
  fadd : F -> F -> F;
  fsub : F -> F -> F;
  fmul : F -> F -> F;
  fltb : F -> F -> bool;
  fleb : F -> F -> bool;
  feqb : F -> F -> bool
}.

Infix "+" := fadd : num_scope.
Infix "-" := fsub : num_scope.
Infix "*" := fmul : num_scope.
Infix "<?" := fltb : num_scope.
Infix "<=?" := fleb : num_scope.
Infix "=?" := feqb : num_scope.

(** Python's builtin [min(a, b)]: the first argument unless the second is
    strictly smaller. *)
Definition pymin {F} `{Number F} (a b : F) : F :=
  if (b <? a)%num then b else a.

(** Python's builtin [sum] over numbers: a left fold that starts at [0]. *)
Definition pysum {F} `{Number F} (xs : list F) : F :=
  fold_left fadd xs (of_int 0).

(** *** IEEE 754 double precision *)

Module Binary64.

(** The double nearest to an integer (round to nearest, ties to even). *)
Definition of_Z (z : Z) : float :=
  SF2Prim (binary_normalize prec emax z 0 false).

(** [a / b] for integers: both are converted and divided.  The divisors of
    the sources are [1000] (decimal literals with three digits) and
    [1024 ** 3]; for them this is the correctly rounded quotient. *)
Definition of_ratio (a : Z) (b : positive) : float :=
  PrimFloat.div (of_Z a) (of_Z (Zpos b)).

End Binary64.

#[export] Instance binary64 : Number float := {
  of_int := Binary64.of_Z;
  ratio := Binary64.of_ratio;
  inf := infinity;
  fadd := PrimFloat.add;
  fsub := PrimFloat.sub;
  fmul := PrimFloat.mul;
  fltb := PrimFloat.ltb;
  fleb := PrimFloat.leb;
  feqb := PrimFloat.eqb
}.

(** *** Exact arithmetic *)

(** A rational number, or one of the special values of IEEE 754. *)
Inductive exact : Type :=
| Fin (q : Q)
| PInf
| NInf
| NaN.

Module Exact.

Definition Qltb (a b : Q) : bool := negb (Qle_bool b a).

Definition opp (x : exact) : exact :=
  match x with
  | Fin q => Fin (- q)
  | PInf => NInf
  | NInf => PInf
  | NaN => NaN
  end.

Definition add (x y : exact) : exact :=
  match x, y with
  | NaN, _ | _, NaN => NaN
  | Fin a, Fin b => Fin (a + b)
  | PInf, NInf | NInf, PInf => NaN
  | PInf, _ | _, PInf => PInf
  | NInf, _ | _, NInf => NInf
  end.

Definition sub (x y : exact) : exact := add x (opp y).

(** An infinity times the finite [q]. *)
Definition scale_inf (positive_inf : bool) (q : Q) : exact :=
  if Qeq_bool q 0 then NaN
  else if Bool.eqb positive_inf (Qltb 0 q) then PInf else NInf.

Definition mul (x y : exact) : exact :=
  match x, y with
  | NaN, _ | _, NaN => NaN
  | Fin a, Fin b => Fin (a * b)
  | PInf, Fin q | Fin q, PInf => scale_inf true q
  | NInf, Fin q | Fin q, NInf => scale_inf false q
  | PInf, PInf | NInf, NInf => PInf
  | PInf, NInf | NInf, PInf => NInf
  end.

Definition ltb (x y : exact) : bool :=
  match x, y with
  | NaN, _ | _, NaN => false
  | Fin a, Fin b => Qltb a b
  | _, NInf | PInf, _ => false
  | NInf, _ | _, PInf => true
  end.

Definition leb (x y : exact) : bool :=
  match x, y with
  | NaN, _ | _, NaN => false
  | Fin a, Fin b => Qle_bool a b
  | NInf, _ | _, PInf => true
  | _, NInf | PInf, _ => false
  end.

Definition eqb (x y : exact) : bool :=
  match x, y with
  | Fin a, Fin b => Qeq_bool a b
  | PInf, PInf | NInf, NInf => true
  | _, _ => false
  end.

End Exact.

#[export] Instance exact_number : Number exact := {
  of_int := fun z => Fin (inject_Z z);
  ratio := fun a b => Fin (a # b);
  inf := PInf;
  fadd := Exact.add;
  fsub := Exact.sub;
  fmul := Exact.mul;
  fltb := Exact.ltb;
  fleb := Exact.leb;
  feqb := Exact.eqb
}.

(** ** The pricing model *)

Section Pricing.

Context {F : Type} `{Number F}.

(** A tier: its upper limit in GB (cumulative) and its price per GB. *)
Definition tier : Type := (F * F)%type.

(** The tiers of the storage type ["STANDARD"] (cost/s3.py, lines 22-26). *)
Definition STANDARD : list tier :=
  [ (of_int (50 * 1024), ratio 23 1000);    (* First 50 TB *)
    (of_int (500 * 1024), ratio 22 1000);   (* Next 450 TB *)
    (inf, ratio 21 1000) ].                 (* Over 500 TB *)

(** [S3._pricing] (cost/s3.py, lines 21-27). *)
Definition _pricing : list (string * list tier) :=
  [ ("STANDARD"%string, STANDARD) ].

(** [CodeArtifact._pricing_per_gb] (cost/code_artifact.py, line 20). *)
Definition _pricing_per_gb : F := ratio 5 100.

(** Lookup in a dictionary with string keys, written as its items. *)
Fixpoint dict_get {V} (d : list (string * V)) (k : string) : option V :=
  match d with
  | [] => None
  | (k', v) :: d' => if String.eqb k k' then Some v else dict_get d' k
  end.

(** [k in d]. *)
Definition dict_mem {V} (d : list (string * V)) (k : string) : bool :=
  match dict_get d k with Some _ => true | None => false end.

(** The loop of [S3._calculate_cost] (cost/s3.py, lines 64-70), from a
    state of its three local variables to the final [total_cost]. *)
Fixpoint tier_loop (tiers : list tier)
         (remaining_gb total_cost previous_limit : F) : F :=
  match tiers with
  | [] => total_cost
  | (tier_limit, price_per_gb) :: tiers' =>
      let tier_gb := pymin remaining_gb (tier_limit - previous_limit)%num in
      let total_cost := (total_cost + tier_gb * price_per_gb)%num in
      let remaining_gb := (remaining_gb - tier_gb)%num in
      let previous_limit := tier_limit in
      if (remaining_gb <=? of_int 0)%num then total_cost
      else tier_loop tiers' remaining_gb total_cost previous_limit
  end.

(** The cost [S3._calculate_cost] stores, for a tier list and a capacity
    (lines 60-62 initialise the locals). *)
Definition tiered_cost (tiers : list tier) (total_gb : F) : F :=
  tier_loop tiers total_gb (of_int 0) (of_int 0).

(** The cost [CodeArtifact._calculate_cost] stores (line 49). *)
Definition flat_cost (total_gb : F) : F :=
  (total_gb * _pricing_per_gb)%num.

End Pricing.

(** ** Effects *)

(** A path of the file system ([pathlib.Path]), by its text. *)
Definition path : Type := string.

(** A value of type [Union[str, Path]]. *)
Inductive pathlike : Type :=
| Str (s : string)
| PathObj (p : path).

(** [Path(x)]. *)
Definition Path (x : pathlike) : path :=
  match x with Str s => s | PathObj p => p end.

(** How a call of the operating system or of a library ends when it does
    not succeed: with [FileNotFoundError], or with an exception of another
    class ([PermissionError], [IsADirectoryError], ...), given by the name
    of its class and its message. *)
Inductive failure : Type :=
| NoSuchFile (msg : string)
| Failed (cls msg : string).

(** What the estimators read from outside: the file system as [pathlib]
    answers ([exists], [rglob("*")], [is_file], [stat().st_size]), the
    process environment ([os.environ.get]), and, for a file name, the
    failure in which appending to that file ends if it does not succeed (the
    [open(name, "a")] of the report sinks, the writes and the close). *)
Record world : Type := World {
  path_exists : path -> bool;
  path_rglob : path -> list path;
  path_is_file : path -> bool;
  st_size : path -> Z;
  environ : string -> option string;
  append_error : string -> option failure
}.

Section Effects.

Context {F : Type}.

(** A replacement field of an f-string, before it is rendered. *)
Inductive field : Type :=
| FInt (n : Z)                    (* {n}, an int *)
| FNum (x : F)                    (* {x}, a float *)
| FFixed6 (x : F)                 (* {x:.6f} *)
| FStr (s : string)               (* {s}, a str or a Path *)
| FOptNum (x : option F)          (* {x}, a float or None *)
| FOptStr (s : option string)     (* {s}, a str or None *)
| FStrList (l : list string).     (* {l}, a list of str *)

(** An f-string: literal text and replacement fields, in order. *)
Inductive part : Type :=
| Text (s : string)
| Val (v : field).

Definition fstring : Type := list part.

(** The exceptions the sources raise, with their message, and the
    exceptions of other classes that pass through them. *)
Inductive exn : Type :=
| ValueError (msg : fstring)
| FileNotFoundError (msg : fstring)
| AttributeError (msg : fstring)
| KeyError (key : string)
| OtherError (cls msg : string).

(** The exception a failure raises. *)
Definition exn_of (e : failure) : exn :=
  match e with
  | NoSuchFile msg => FileNotFoundError [Text msg]
  | Failed cls msg => OtherError cls msg
  end.

(** What a call does that is visible from outside, one event per
    operation. *)
Inductive event : Type :=
| Print (line : fstring)
| Exists (p : path)
| Rglob (p : path)
| IsFile (p : path)
| Stat (p : path)
| Getenv (name : string)
| Open (file : string)
| Append (file : string) (lines : list fstring).

(** An event that reads or writes the file system.  [Open file] is the
    call [open(file, "a")], which creates the file when it can;
    [Append file lines] is a [with] block on the file that completed: these
    lines were appended. *)
Definition file_access (e : event) : bool :=
  match e with
  | Exists _ | Rglob _ | IsFile _ | Stat _ | Open _ | Append _ _ => true
  | Print _ | Getenv _ => false
  end.

(** An event that writes to a report sink. *)
Definition sink_write (e : event) : bool :=
  match e with Open _ | Append _ _ => true | _ => false end.

End Effects.

Arguments field : clear implicits.
Arguments part : clear implicits.
Arguments fstring : clear implicits.
Arguments exn : clear implicits.
Arguments exn_of {F} e.
Arguments event : clear implicits.

Section Monad.

Context {X E : Type}.

(** The run of a computation on a state of type [S] (the object [self] of a
    method, the local variables of a function): how it ended, the state
    then, and the events it performed, in order.  [X] is the type of
    exceptions, [E] the type of events. *)
Record run (S A : Type) : Type := Run {
  outcome : X + A;
  state_after : S;
  events : list E
}.

Definition M (S A : Type) : Type := S -> run S A.

Definition ret {S A} (a : A) : M S A :=
  fun s => Run (inr a) s [].

Definition bind {S A B} (m : M S A) (k : A -> M S B) : M S B :=
  fun s =>
    let r := m s in
    match outcome r with
    | inl e => Run (inl e) (state_after r) (events r)
    | inr a =>
        let r' := k a (state_after r) in
        Run (outcome r') (state_after r') (events r ++ events r')
    end.

Definition raise {S A} (e : X) : M S A :=
  fun s => Run (inl e) s [].

Definition emit {S} (e : E) : M S unit :=
  fun s => Run (inr tt) s [e].

Definition get {S} : M S S :=
  fun s => Run (inr s) s [].

Definition modify {S} (f : S -> S) : M S unit :=
  fun s => Run (inr tt) (f s) [].

End Monad.

Arguments run : clear implicits.
Arguments M : clear implicits.

(** A method of an estimator over the numbers [F], on an object of type [S]. *)
Definition Py (F S A : Type) : Type := M (exn F) (event F) S A.

Definition print {F S} (line : fstring F) : Py F S unit := emit (Print line).

Declare Scope py_scope.
Delimit Scope py_scope with py.

Notation "x <- m ;; k" := (bind m (fun x => k))
  (at level 100, m at next level, right associativity) : py_scope.
Notation "m ;; k" := (bind m (fun _ => k))
  (at level 100, right associativity) : py_scope.

Open Scope py_scope.

(** Truth values of the arguments the estimators test with [if x:], for a
    value that is not [None]. *)
Definition truthy_pathlike (x : pathlike) : bool :=
  match x with
  | Str s => negb (String.eqb s "")
  | PathObj _ => true
  end.

Definition truthy_str (s : string) : bool := negb (String.eqb s "").

Definition len {A} (l : list A) : Z := Z.of_nat (List.length l).

(** The line feed that ends the lines written to the sinks. *)
Definition LF : string := String (ascii_of_nat 10) EmptyString.

(** ** What the two estimators share

The two classes repeat these methods word for word; each is written here
over the fields it reads, and each class stores the result in its own
fields. *)

Section Estimator.

Context {F : Type} `{Number F}.
Variable w : world.

(** [[f for f in all_files if f.is_file()]] ([_gather_files], last line).
    A [str] of the explicit list has no method [is_file]. *)
Fixpoint keep_files {S} (all_files : list pathlike) : Py F S (list path) :=
  match all_files with
  | [] => ret []
  | Str s :: _ =>
      raise (AttributeError [Text "'str' object has no attribute 'is_file'"])
  | PathObj p :: rest =>
      emit (IsFile p);;
      kept <- keep_files rest;;
      ret (if path_is_file w p then p :: kept else kept)
  end.

(** The body of [if self.folder:] in [_gather_files]. *)
Definition walk {S} (folder : pathlike) : Py F S (list pathlike) :=
  let folder_path := Path folder in
  emit (Exists folder_path);;
  if negb (path_exists w folder_path) then
    raise (FileNotFoundError
             [Text "Folder "; Val (FStr folder_path); Text " does not exist"])
  else
    emit (Rglob folder_path);;
    let all_files := map PathObj (path_rglob w folder_path) in
    print [Text "Found "; Val (FInt (len all_files));
           Text " files in folder "; Val (FStr folder_path)];;
    ret all_files.

(** [_gather_files]: the list it stores in [self.all_files]. *)
Definition gather {S} (folder : option pathlike)
           (files : option (list pathlike)) : Py F S (list path) :=
  all_files <-
    match folder with
    | Some x => if truthy_pathlike x then walk x else ret []
    | None => ret []
    end;;
  all_files <-
    match files with
    | Some (f :: fs) =>
        print [Text "Added "; Val (FInt (len (f :: fs)));
               Text " files from explicit list"];;
        ret (all_files ++ f :: fs)
    | Some [] | None => ret all_files
    end;;
  keep_files all_files.

(** The size of one file in GB: [f.stat().st_size / (1024 ** 3)]. *)
Definition size_gb (p : path) : F := ratio (st_size w p) (2 ^ 30).

(** [sum(f.stat().st_size / (1024 ** 3) for f in self.all_files)]: the
    [stat] calls it makes, and its value. *)
Definition measure {S} (all_files : list path) : Py F S F :=
  fold_right (fun p k => emit (Stat p);; k)
             (ret (pysum (map size_gb all_files))) all_files.

(** The branches of [_determine_color_code] for a threshold that is not
    [None]. *)
Definition color_of (total_cost threshold : F) : string :=
  if (total_cost <? threshold * ratio 5 10)%num then "green"
  else if (total_cost <? threshold)%num then "yellow"
  else "red".

(** The color [_determine_color_code] stores. *)
Definition classify (total_cost : F) (threshold : option F) : option string :=
  match threshold with
  | None => None
  | Some t => Some (color_of total_cost t)
  end.

(** [with open(file, "a", encoding="utf-8") as f:] followed by the writes
    of [lines]: the file is opened, and the block either completes or ends
    in the failure the world has for that file, which is not caught.  When
    it fails, what reached the file before is not recorded (nothing, when
    the [open] itself failed). *)
Definition append_lines {S} (file : string) (lines : list (fstring F))
  : Py F S unit :=
  emit (Open file);;
  match append_error w file with
  | Some e => raise (exn_of e)
  | None => emit (Append file lines)
  end.

(** [_write_github_output]. *)
Definition write_github_output {S} (github_output : bool)
           (total_gb total_cost : F) (color_code : option string) : Py F S unit :=
  if github_output then
    emit (Getenv "GITHUB_OUTPUT");;
    match environ w "GITHUB_OUTPUT" with
    | Some gh_output =>
        if truthy_str gh_output then
          append_lines gh_output
            [ [Text "total_gb="; Val (FFixed6 total_gb); Text LF];
              [Text "estimate_cost="; Val (FFixed6 total_cost); Text LF];
              [Text "color_code="; Val (FOptStr color_code); Text LF] ]
        else ret tt
    | None => ret tt
    end
  else ret tt.

(** [_write_github_summary], for the resource called [label]. *)
Definition write_github_summary {S} (label : string) (github_summary : bool)
           (total_gb total_cost : F) (color_code : option string) : Py F S unit :=
  if github_summary then
    emit (Getenv "GITHUB_STEP_SUMMARY");;
    match environ w "GITHUB_STEP_SUMMARY" with
    | Some summary_path =>
        if truthy_str summary_path then
          append_lines summary_path
            [ [Text "### 💰 "; Text label; Text " Cost Estimate"; Text LF];
              [Text "| Resource | Storage Size (GB) | Estimated Monthly Cost |";
               Text LF];
              [Text "|----------|-------------------|------------------------|";
               Text LF];
              [Text "| "; Text label; Text " | "; Val (FFixed6 total_gb);
               Text " | <span style='color:"; Val (FOptStr color_code);
               Text "'>$"; Val (FFixed6 total_cost); Text "</span> |";
               Text LF] ]
        else ret tt
    | None => ret tt
    end
  else ret tt.

End Estimator.

(** The dictionary [calculate] returns. *)
Record estimate (F : Type) : Type := Estimate {
  result_total_gb : F;
  result_total_cost : F;
  result_color_code : option string
}.

(** ** [equicast_awsutils.cost.S3] *)

Module CostS3.

Section WithNumber.

Context {F : Type} `{Number F}.

(** The fields of the dataclass (cost/s3.py, lines 9-19). *)
Record t : Type := Make {
  region : string;
  storage_type : string;
  folder : option pathlike;
  files : option (list pathlike);
  threshold : option F;
  github_summary : bool;
  github_output : bool;
  total_gb : F;
  total_cost : F;
  color_code : option string;
  all_files : list path
}.

(** The generated [__init__]: the last four fields are [init=False] and
    start at their defaults. *)
Definition init (region storage_type : string) (folder : option pathlike)
           (files : option (list pathlike)) (threshold : option F)
           (github_summary github_output : bool) : t :=
  Make region storage_type folder files threshold github_summary
       github_output (of_int 0) (of_int 0) None [].

Definition set_all_files (v : list path) (o : t) : t :=
  Make (region o) (storage_type o) (folder o) (files o) (threshold o)
       (github_summary o) (github_output o) (total_gb o) (total_cost o)
       (color_code o) v.

Definition set_total_gb (v : F) (o : t) : t :=
  Make (region o) (storage_type o) (folder o) (files o) (threshold o)
       (github_summary o) (github_output o) v (total_cost o)
       (color_code o) (all_files o).

Definition set_total_cost (v : F) (o : t) : t :=
  Make (region o) (storage_type o) (folder o) (files o) (threshold o)
       (github_summary o) (github_output o) (total_gb o) v
       (color_code o) (all_files o).

Definition set_color_code (v : option string) (o : t) : t :=
  Make (region o) (storage_type o) (folder o) (files o) (threshold o)
       (github_summary o) (github_output o) (total_gb o) (total_cost o)
       v (all_files o).

Variable w : world.

Definition _validate_region : Py F t unit :=
  self <- get;;
  if negb (String.eqb (region self) "eu-west-1") then
    raise (ValueError
             [Text "Currently only Ireland (eu-west-1) region is supported"])
  else
    print [Text "Using region: "; Val (FStr (region self))].

Definition _validate_storage_type : Py F t unit :=
  self <- get;;
  if negb (dict_mem _pricing (storage_type self)) then
    raise (ValueError [Text "Storage type '"; Val (FStr (storage_type self));
                       Text "' is not supported"])
  else ret tt.

Definition _gather_files : Py F t unit :=
  self <- get;;
  kept <- gather w (folder self) (files self);;
  modify (set_all_files kept).

Definition _calculate_total_gb : Py F t unit :=
  self <- get;;
  gb <- measure w (all_files self);;
  modify (set_total_gb gb);;
  print [Text "Total size: "; Val (FFixed6 gb); Text " GB"].

Definition _calculate_cost : Py F t unit :=
  self <- get;;
  match dict_get _pricing (storage_type self) with
  | None => raise (KeyError (storage_type self))
  | Some tiers =>
      let total_cost := tiered_cost tiers (total_gb self) in
      modify (set_total_cost total_cost);;
      print [Text "Total cost for storage type ";
             Val (FStr (storage_type self)); Text ": $";
             Val (FFixed6 total_cost)]
  end.

Definition _determine_color_code : Py F t unit :=
  self <- get;;
  match threshold self with
  | None => modify (set_color_code None)
  | Some th =>
      let color := color_of (total_cost self) th in
      modify (set_color_code (Some color));;
      print [Text "Color code based on threshold "; Val (FNum th);
             Text ": "; Val (FStr color)]
  end.

Definition _write_github_output : Py F t unit :=
  self <- get;;
  write_github_output w (github_output self) (total_gb self)
                      (total_cost self) (color_code self).

Definition _write_github_summary : Py F t unit :=
  self <- get;;
  write_github_summary w "S3" (github_summary self) (total_gb self)
                       (total_cost self) (color_code self).

Definition calculate : Py F t (estimate F) :=
  _validate_region;;
  _validate_storage_type;;
  _gather_files;;
  _calculate_total_gb;;
  _calculate_cost;;
  _determine_color_code;;
  _write_github_output;;
  _write_github_summary;;
  self <- get;;
  ret (Estimate (total_gb self) (total_cost self) (color_code self)).

End WithNumber.

Arguments t : clear implicits.

End CostS3.

(** ** [equicast_awsutils.cost.CodeArtifact] *)

Module CostCodeArtifact.

Section WithNumber.

Context {F : Type} `{Number F}.

(** The fields of the dataclass (cost/code_artifact.py, lines 9-18). *)
Record t : Type := Make {
  region : string;
  folder : option pathlike;
  files : option (list pathlike);
  threshold : option F;
  github_summary : bool;
  github_output : bool;
  total_gb : F;
  total_cost : F;
  color_code : option string;
  all_files : list path
}.

Definition init (region : string) (folder : option pathlike)
           (files : option (list pathlike)) (threshold : option F)
           (github_summary github_output : bool) : t :=
  Make region folder files threshold github_summary github_output
       (of_int 0) (of_int 0) None [].

Definition set_all_files (v : list path) (o : t) : t :=
  Make (region o) (folder o) (files o) (threshold o) (github_summary o)
       (github_output o) (total_gb o) (total_cost o) (color_code o) v.

Definition set_total_gb (v : F) (o : t) : t :=
  Make (region o) (folder o) (files o) (threshold o) (github_summary o)
       (github_output o) v (total_cost o) (color_code o) (all_files o).

Definition set_total_cost (v : F) (o : t) : t :=
  Make (region o) (folder o) (files o) (threshold o) (github_summary o)
       (github_output o) (total_gb o) v (color_code o) (all_files o).

Definition set_color_code (v : option string) (o : t) : t :=
  Make (region o) (folder o) (files o) (threshold o) (github_summary o)
       (github_output o) (total_gb o) (total_cost o) v (all_files o).

Variable w : world.

Definition _validate_region : Py F t unit :=
  self <- get;;
  if negb (String.eqb (region self) "eu-west-1") then
    raise (ValueError
             [Text "Currently only Ireland (eu-west-1) region is supported"])
  else
    print [Text "Using region: "; Val (FStr (region self))].

Definition _gather_files : Py F t unit :=
  self <- get;;
  kept <- gather w (folder self) (files self);;
  modify (set_all_files kept).

Definition _calculate_total_gb : Py F t unit :=
  self <- get;;
  gb <- measure w (all_files self);;
  modify (set_total_gb gb);;
  print [Text "Total size: "; Val (FFixed6 gb); Text " GB"].

Definition _calculate_cost : Py F t unit :=
  self <- get;;
  let total_cost := flat_cost (total_gb self) in
  modify (set_total_cost total_cost);;
  print [Text "Total cost for CodeArtifact: $"; Val (FFixed6 total_cost)].

Definition _determine_color_code : Py F t unit :=
  self <- get;;
  match threshold self with
  | None => modify (set_color_code None)
  | Some th =>
      let color := color_of (total_cost self) th in
      modify (set_color_code (Some color));;
      print [Text "Color code based on threshold "; Val (FNum th);
             Text ": "; Val (FStr color)]
  end.

Definition _write_github_output : Py F t unit :=
  self <- get;;
  write_github_output w (github_output self) (total_gb self)
                      (total_cost self) (color_code self).

Definition _write_github_summary : Py F t unit :=
  self <- get;;
  write_github_summary w "CodeArtifact" (github_summary self)
                       (total_gb self) (total_cost self) (color_code self).

Definition calculate : Py F t (estimate F) :=
  _validate_region;;
  _gather_files;;
  _calculate_total_gb;;
  _calculate_cost;;
  _determine_color_code;;
  _write_github_output;;
  _write_github_summary;;
  self <- get;;
  ret (Estimate (total_gb self) (total_cost self) (color_code self)).

End WithNumber.

Arguments t : clear implicits.

End CostCodeArtifact.

(** ** [equicast_awsutils.S3]: object transfer *)

Module Transfer.

(** [os.path.join(a, b)] and [os.path.dirname(p)] (posixpath). *)
Definition sep : ascii := "/"%char.

Definition is_sep (c : ascii) : bool := Ascii.eqb c sep.

Fixpoint drop_while {A} (f : A -> bool) (l : list A) : list A :=
  match l with
  | [] => []
  | x :: l' => if f x then drop_while f l' else l
  end.

Definition ends_with_sep (p : string) : bool :=
  match rev (list_ascii_of_string p) with
  | c :: _ => is_sep c
  | [] => false
  end.

Definition path_join (a b : string) : string :=
  match b with
  | String c _ =>
      if is_sep c then b
      else if (String.eqb a "" || ends_with_sep a)%bool then (a ++ b)%string
      else (a ++ String sep b)%string
  | EmptyString =>
      if (String.eqb a "" || ends_with_sep a)%bool then a
      else (a ++ String sep EmptyString)%string
  end.

Definition path_dirname (p : string) : string :=
  let head := drop_while (fun c => negb (is_sep c)) (rev (list_ascii_of_string p)) in
  let head :=
    if forallb is_sep head then head else drop_while is_sep head in
  string_of_list_ascii (rev head).

(** One entry of [files]: [{'key': ..., 'mandatory': ...}]; either may be
    absent ([file_info.get] then gives [None], or [False] for
    ['mandatory']). *)
Record file_info : Type := FileInfo {
  key : option string;
  mandatory : option bool
}.

(** [file_info.get("mandatory", False)]. *)
Definition get_mandatory (fi : file_info) : bool :=
  match mandatory fi with Some b => b | None => false end.

(** What a call meets outside: the bucket and the local file system.
    [pages] are the pages [list_objects_v2] delivers, each with its
    ["Contents"] when it has one, and [listing_error] the [ClientError] in
    which the listing ends after them, if it does; [client_error] is, for a
    key, the [ClientError] in which [client.download_file] ends, if it does,
    and [download_crash], for a key and a local path, its failure of another
    class (the local file cannot be written), which [_download_file] does
    not catch; [makedirs_error] is the failure of [os.makedirs] on a path
    that is not empty. *)
Record remote : Type := Remote {
  pages : list (option (list string));
  listing_error : option string;
  client_error : string -> option string;
  download_crash : string -> string -> option failure;
  makedirs_error : string -> option failure
}.

(** [os.makedirs(p, exist_ok=True)] fails on the empty path whatever the
    file system. *)
Definition makedirs_failure (r : remote) (p : string) : option failure :=
  if String.eqb p "" then
    Some (NoSuchFile "[Errno 2] No such file or directory: ''")
  else makedirs_error r p.

(** The fields of the dataclass the method reads. *)
Record t : Type := Make {
  bucket_name : string;
  region_name : string
}.

(** What [download_files] does outside its own variables. *)
Inductive call : Type :=
| Makedirs (p : string)
| Paginate (bucket : string)
| DownloadFile (bucket s3_key local_path : string)
| Log (line : fstring Empty_set).

(** The local variables of [download_files] (lines 53-54), the state of its
    run: when the function raises, they are what it had collected (nothing,
    when it raises before they are assigned). *)
Record frame : Type := Frame {
  missing_mandatory : list string;
  downloaded_files : list string
}.

(** The dictionary [download_files] returns. *)
Record result : Type := Result {
  downloaded : list string;
  result_missing_mandatory : list string
}.

Definition Fn (A : Type) : Type := M (exn Empty_set) call frame A.

Definition append_downloaded (k : string) (f : frame) : frame :=
  Frame (missing_mandatory f) (downloaded_files f ++ [k]).

Definition append_missing (k : string) (f : frame) : frame :=
  Frame (missing_mandatory f ++ [k]) (downloaded_files f).

Section Methods.

Variable self : t.
Variable r : remote.

(** [os.makedirs(p, exist_ok=True)]. *)
Definition makedirs (p : string) : Fn unit :=
  emit (Makedirs p);;
  match makedirs_failure r p with
  | Some e => raise (exn_of e)
  | None => ret tt
  end.

(** [_download_file] (lines 21-28): only [ClientError] is caught. *)
Definition _download_file (s3_key local_path : string) : Fn bool :=
  makedirs (path_dirname local_path);;
  emit (DownloadFile (bucket_name self) s3_key local_path);;
  match download_crash r s3_key local_path with
  | Some e => raise (exn_of e)
  | None =>
      match client_error r s3_key with
      | None => ret true
      | Some e =>
          emit (Log [Text "Download failed for "; Val (FStr s3_key); Text ": ";
                     Val (FStr e)]);;
          ret false
      end
  end.

(** The loop over the objects of the bucket (lines 58-63). *)
Fixpoint download_objects (local_dir : string) (keys : list string) : Fn unit :=
  match keys with
  | [] => ret tt
  | key :: keys' =>
      let local_path := path_join local_dir key in
      ok <- _download_file key local_path;;
      (if ok then modify (append_downloaded key) else ret tt);;
      download_objects local_dir keys'
  end.

Fixpoint download_pages (local_dir : string) (ps : list (option (list string)))
  : Fn unit :=
  match ps with
  | [] => ret tt
  | page :: ps' =>
      download_objects local_dir
        (match page with Some contents => contents | None => [] end);;
      download_pages local_dir ps'
  end.

(** The loop over the requested entries (lines 71-79).  An entry without a
    key makes [os.path.join(local_dir, None)] raise [TypeError]. *)
Fixpoint download_requested (local_dir : string) (files : list file_info)
  : Fn unit :=
  match files with
  | [] => ret tt
  | file_info :: files' =>
      let mandatory := get_mandatory file_info in
      match key file_info with
      | None =>
          raise (OtherError
                   "TypeError"
                   "expected str, bytes or os.PathLike object, not NoneType")
      | Some key =>
          let local_path := path_join local_dir key in
          ok <- _download_file key local_path;;
          (if ok then modify (append_downloaded key)
           else if mandatory then modify (append_missing key)
           else ret tt);;
          download_requested local_dir files'
      end
  end.

(** [download_files] (lines 45-84). *)
Definition download_files (local_dir : string) (files : option (list file_info))
           (download_all : bool) : Fn result :=
  makedirs local_dir;;
  modify (fun _ => Frame [] []);;
  if download_all then
    emit (Paginate (bucket_name self));;
    download_pages local_dir (pages r);;
    match listing_error r with
    | Some e => raise (OtherError "ClientError" e)
    | None =>
        f <- get;;
        ret (Result (downloaded_files f) [])
    end
  else
    match files with
    | None | Some [] =>
        emit (Log [Text "No files to download"]);;
        ret (Result [] [])
    | Some (file_info :: files') =>
        download_requested local_dir (file_info :: files');;
        f <- get;;
        match missing_mandatory f with
        | _ :: _ =>
            raise (FileNotFoundError
                     [Text "Mandatory files missing in S3: ";
                      Val (FStrList (missing_mandatory f))])
        | [] => ret (Result (downloaded_files f) (missing_mandatory f))
        end
    end.

End Methods.

(** *** Uploads *)

(** One entry of the argument of [upload_files]:
    [{'key': ..., 'path': ...}]; either may be absent or [None]. *)
Record upload_info : Type := UploadInfo {
  upload_key : option string;
  upload_path : option string
}.

(** How [client.upload_file] ends when it does not succeed: the local file
    is not there, or the service refuses. *)
Inductive upload_failure : Type :=
| LocalFileNotFound (e : string)
| UploadClientError (e : string).

(** For a local path and a key, the failure of [client.upload_file], if it
    fails. *)
Definition uploader : Type := string -> string -> option upload_failure.

(** What [upload_files] does outside its own variables. *)
Inductive upload_call : Type :=
| UploadFile (file_path bucket s3_key : string)
| UploadLog (line : fstring Empty_set).

(** The local variables of [upload_files] (lines 91-92). *)
Record upload_frame : Type := UploadFrame {
  uploaded_files : list string;
  failed_files : list upload_info
}.

(** The dictionary [upload_files] returns. *)
Record upload_result : Type := UploadResult {
  uploaded : list string;
  failed : list upload_info
}.

Definition Up (A : Type) : Type := M (exn Empty_set) upload_call upload_frame A.

Definition append_uploaded (k : string) (f : upload_frame) : upload_frame :=
  UploadFrame (uploaded_files f ++ [k]) (failed_files f).

Definition append_failed (i : upload_info) (f : upload_frame) : upload_frame :=
  UploadFrame (uploaded_files f) (failed_files f ++ [i]).

(** [not x] for a value that is a [str] or [None]. *)
Definition falsy (x : option string) : bool :=
  match x with
  | None => true
  | Some s => String.eqb s ""
  end.

Section Uploads.

Variable self : t.
Variable u : uploader.

(** [_upload_file] (lines 30-43). *)
Definition _upload_file (s3_key : option string) (file_path : string) : Up bool :=
  match s3_key with
  | None | Some EmptyString =>
      emit (UploadLog [Text "Upload failed: missing s3 key"]);;
      ret false
  | Some s3_key =>
      emit (UploadFile file_path (bucket_name self) s3_key);;
      match u file_path s3_key with
      | None => ret true
      | Some (LocalFileNotFound e) =>
          emit (UploadLog [Text "Upload failed for "; Val (FStr file_path);
                           Text ": "; Val (FStr e)]);;
          ret false
      | Some (UploadClientError e) =>
          emit (UploadLog [Text "Upload failed for "; Val (FStr s3_key);
                           Text ": "; Val (FStr e)]);;
          ret false
      end
  end.

(** The loop of [upload_files] (lines 94-105). *)
Fixpoint upload_each (files : list upload_info) : Up unit :=
  match files with
  | [] => ret tt
  | file_info :: files' =>
      let s3_key := upload_key file_info in
      let file_path := upload_path file_info in
      (if (falsy s3_key || falsy file_path)%bool then
         modify (append_failed (UploadInfo s3_key file_path))
       else
         ok <- _upload_file s3_key
                 (match file_path with Some p => p | None => EmptyString end);;
         if ok then
           modify (append_uploaded
                     (match s3_key with Some k => k | None => EmptyString end))
         else modify (append_failed (UploadInfo s3_key file_path)));;
      upload_each files'
  end.

(** [upload_files] (lines 86-107). *)
Definition upload_files (files : list upload_info) : Up upload_result :=
  modify (fun _ => UploadFrame [] []);;
  upload_each files;;
  f <- get;;
  ret (UploadResult (uploaded_files f) (failed_files f)).

End Uploads.

(** A call: the local variables do not exist before it. *)
Definition call_upload_files (self : t) (u : uploader) (files : list upload_info)
  : run (exn Empty_set) upload_call upload_frame upload_result :=
  upload_files self u files (UploadFrame [] []).

(** A call: the local variables do not exist before it. *)
Definition call_download_files (self : t) (r : remote) (local_dir : string)
           (files : option (list file_info)) (download_all : bool)
  : run (exn Empty_set) call frame result :=
  download_files self r local_dir files download_all (Frame [] []).

End Transfer.

(** * Properties *)

(** ** The vocabulary of the statements *)

(** The exact number [x] is finite and its value is [q]. *)
Definition has_value (x : exact) (q : Q) : Prop :=
  match x with
  | Fin p => p == q
  | PInf | NInf | NaN => False
  end.

(** The graduated algorithm in the words of the specification: a billing
    state holds [remaining], [previousBoundary] and [cost]; each tier, in
    order, bills [span = min(remaining, boundary - previousBoundary)] at its
    rate, and nothing is billed once [remaining <= 0]. *)
Record billing (F : Type) : Type := Billing {
  remaining : F;
  previousBoundary : F;
  cost : F;
  stopped : bool
}.

Section Graduated.

Context {F : Type} `{Number F}.

Definition bill (st : billing F) (tr : tier) : billing F :=
  if stopped st then st
  else
    let (boundary, rate) := tr in
    let span := pymin (remaining st) (boundary - previousBoundary st)%num in
    let remaining' := (remaining st - span)%num in
    Billing remaining' boundary (cost st + span * rate)%num
            (remaining' <=? of_int 0)%num.

Definition graduated_cost (tiers : list tier) (capacityGB : F) : F :=
  cost (fold_left bill tiers (Billing capacityGB (of_int 0) (of_int 0) false)).

(** The prices of a tier list strictly decrease from each tier to the next. *)
Fixpoint prices_decrease (tiers : list (@tier F)) : bool :=
  match tiers with
  | (_, price) :: (((_, price') :: _) as tiers') =>
      (price' <? price)%num && prices_decrease tiers'
  | _ => true
  end.

End Graduated.

(** The cost of [c] GB at the STANDARD tiers in closed form, in exact
    arithmetic: each band of capacity at its own price. *)
Definition standard_bill (c : Q) : Q :=
  if Qle_bool c 51200 then c * (23 # 1000)
  else if Qle_bool c 512000 then
    51200 * (23 # 1000) + (c - 51200) * (22 # 1000)
  else
    51200 * (23 # 1000) + 460800 * (22 # 1000) + (c - 512000) * (21 # 1000).

(** The cost [cost.S3] computes for [c] GB of STANDARD storage, in exact
    arithmetic. *)
Definition standard_cost (c : Q) : exact := tiered_cost STANDARD (Fin c).

(** What the collector ends in, and the events it performs: those of
    [gather], which does not depend on the object it runs on. *)
Definition gathered {F} (w : world) (folder : option pathlike)
           (files : option (list pathlike)) : exn F + list path :=
  outcome (gather (F:=F) w folder files tt).

Definition gather_events {F} (w : world) (folder : option pathlike)
           (files : option (list pathlike)) : list (event F) :=
  events (gather (F:=F) w folder files tt).

(** The events of the two report sinks. *)
Definition output_events {F} (w : world) (github_output : bool)
           (total_gb total_cost : F) (color_code : option string)
  : list (event F) :=
  events (write_github_output w github_output total_gb total_cost color_code tt).

Definition summary_events {F} (w : world) (label : string)
           (github_summary : bool) (total_gb total_cost : F)
           (color_code : option string) : list (event F) :=
  events (write_github_summary w label github_summary total_gb total_cost
                               color_code tt).

(** The line [_determine_color_code] prints, when a threshold is set. *)
Definition color_events {F} (threshold : option F) (color_code : option string)
  : list (event F) :=
  match threshold, color_code with
  | Some th, Some color =>
      [Print [Text "Color code based on threshold "; Val (FNum th);
              Text ": "; Val (FStr color)]]
  | _, _ => []
  end.

(** A run continued after the events [ev]. *)
Definition after {X E S A} (ev : list E) (r : run X E S A) : run X E S A :=
  Run (outcome r) (state_after r) (ev ++ events r).

(** The two sources of the inventory: the paths the walk of the folder
    yields (none when the folder is [None] or falsy), and the explicit
    list (empty when it is [None]). *)
Definition walked (w : world) (folder : option pathlike) : list path :=
  match folder with
  | Some x => if truthy_pathlike x then path_rglob w (Path x) else []
  | None => []
  end.

Definition listed (files : option (list pathlike)) : list pathlike :=
  match files with Some l => l | None => [] end.

(** The folder is given, truthy, and does not exist. *)
Definition folder_missing (w : world) (folder : option pathlike) : bool :=
  match folder with
  | Some x => truthy_pathlike x && negb (path_exists w (Path x))
  | None => false
  end.

(** The sizes of a list of files, added up, in bytes. *)
Definition total_bytes (w : world) (l : list path) : Z :=
  fold_right Z.add 0%Z (map (st_size w) l).



(** A run raises [ValueError] (the [ConfigurationError] of the
    specification), leaves the object as it was, and performs no event on
    the file system: nothing is walked, tested, measured or appended. *)
Definition rejected {F S A} (o : S) (r : run (exn F) (event F) S A) : Prop :=
  (exists msg, outcome r = inl (ValueError msg)) /\
  state_after r = o /\
  forallb (fun e => negb (file_access e)) (events r) = true.

(** The same estimator constructed with another threshold. *)
Definition s3_with_threshold {F} (threshold : option F) (o : CostS3.t F)
  : CostS3.t F :=
  CostS3.Make (CostS3.region o) (CostS3.storage_type o) (CostS3.folder o)
              (CostS3.files o) threshold (CostS3.github_summary o)
              (CostS3.github_output o) (CostS3.total_gb o)
              (CostS3.total_cost o) (CostS3.color_code o)
              (CostS3.all_files o).

Definition code_artifact_with_threshold {F} (threshold : option F)
           (o : CostCodeArtifact.t F) : CostCodeArtifact.t F :=
  CostCodeArtifact.Make
    (CostCodeArtifact.region o) (CostCodeArtifact.folder o)
    (CostCodeArtifact.files o) threshold (CostCodeArtifact.github_summary o)
    (CostCodeArtifact.github_output o) (CostCodeArtifact.total_gb o)
    (CostCodeArtifact.total_cost o) (CostCodeArtifact.color_code o)
    (CostCodeArtifact.all_files o).

(** *** Object transfer *)

(** The key of an entry that has one. *)
Definition entry_key (fi : Transfer.file_info) : string :=
  match Transfer.key fi with Some k => k | None => EmptyString end.

(** Every entry of a request has a key. *)
Definition keyed (files : list Transfer.file_info) : bool :=
  forallb (fun fi => match Transfer.key fi with Some _ => true | None => false end)
          files.

(** The download of the key [k] into [local_dir] reaches the bucket and is
    answered by it: the directory of the local path can be created, and
    [client.download_file] ends in success or in [ClientError]. *)
Definition answered (r : Transfer.remote) (local_dir k : string) : bool :=
  let local_path := Transfer.path_join local_dir k in
  match Transfer.makedirs_failure r (Transfer.path_dirname local_path),
        Transfer.download_crash r k local_path with
  | None, None => true
  | _, _ => false
  end.

(** An entry has a key, and the download of that key is answered. *)
Definition entry_answered (r : Transfer.remote) (local_dir : string)
           (fi : Transfer.file_info) : bool :=
  match Transfer.key fi with
  | Some k => answered r local_dir k
  | None => false
  end.

(** The fetch of an entry succeeds. *)
Definition fetched (r : Transfer.remote) (fi : Transfer.file_info) : bool :=
  match Transfer.client_error r (entry_key fi) with
  | None => true
  | Some _ => false
  end.

(** The keys of the entries whose fetch succeeds, and the keys of the
    mandatory entries whose fetch fails, in the order of the request. *)
Definition fetched_keys (r : Transfer.remote) (files : list Transfer.file_info)
  : list string :=
  map entry_key (filter (fetched r) files).

Definition missing_keys (r : Transfer.remote) (files : list Transfer.file_info)
  : list string :=
  map entry_key
      (filter (fun fi => negb (fetched r fi) && Transfer.get_mandatory fi) files).

(** The downloads a run attempted: bucket, key and local path of each call
    of [client.download_file], in order. *)
Fixpoint attempts (evs : list Transfer.call) : list (string * string * string) :=
  match evs with
  | [] => []
  | Transfer.DownloadFile b k p :: evs' => (b, k, p) :: attempts evs'
  | _ :: evs' => attempts evs'
  end.

(** What [_download_file] does for one key when the bucket answers. *)
Definition fetch_events (self : Transfer.t) (r : Transfer.remote)
           (local_dir s3_key : string) : list Transfer.call :=
  let local_path := Transfer.path_join local_dir s3_key in
  Transfer.Makedirs (Transfer.path_dirname local_path)
  :: Transfer.DownloadFile (Transfer.bucket_name self) s3_key local_path
  :: match Transfer.client_error r s3_key with
     | None => []
     | Some e => [Transfer.Log [Text "Download failed for "; Val (FStr s3_key);
                                Text ": "; Val (FStr e)]]
     end.

(** The failure of a report sink, if any: the sink is switched on, its
    environment variable names a file, and appending to that file fails. *)
Definition sink_failure (w : world) (switched_on : bool) (variable : string)
  : option failure :=
  if switched_on then
    match environ w variable with
    | Some file => if truthy_str file then append_error w file else None
    | None => None
    end
  else None.

(** The exception the two sinks end in, if any: the machine-readable sink is
    written first. *)
Definition sinks_failure {F} (w : world) (github_output github_summary : bool)
  : option (exn F) :=
  match sink_failure w github_output "GITHUB_OUTPUT" with
  | Some e => Some (exn_of e)
  | None =>
      match sink_failure w github_summary "GITHUB_STEP_SUMMARY" with
      | Some e => Some (exn_of e)
      | None => None
      end
  end.

(** The events of the two sinks together: the second is not reached when
    the first fails. *)
Definition sinks_events {F} (w : world) (label : string)
           (github_output github_summary : bool) (total_gb total_cost : F)
           (color_code : option string) : list (event F) :=
  output_events w github_output total_gb total_cost color_code
  ++ match sink_failure w github_output "GITHUB_OUTPUT" with
     | Some _ => []
     | None => summary_events w label github_summary total_gb total_cost
                              color_code
     end.

(** The exception [calculate] ends in before it measures anything, if any:
    the region is tested first, then (for [cost.S3]) the storage type, then
    the collector runs. *)
Definition s3_failure {F} `{Number F} (w : world) (region storage_type : string)
           (folder : option pathlike) (files : option (list pathlike))
  : option (exn F) :=
  if negb (String.eqb region "eu-west-1") then
    Some (ValueError
            [Text "Currently only Ireland (eu-west-1) region is supported"])
  else if negb (dict_mem (@_pricing F _) storage_type) then
    Some (ValueError [Text "Storage type '"; Val (FStr storage_type);
                      Text "' is not supported"])
  else
    match gathered w folder files with
    | inl e => Some e
    | inr _ => None
    end.

Definition code_artifact_failure {F} (w : world) (region : string)
           (folder : option pathlike) (files : option (list pathlike))
  : option (exn F) :=
  if negb (String.eqb region "eu-west-1") then
    Some (ValueError
            [Text "Currently only Ireland (eu-west-1) region is supported"])
  else
    match gathered w folder files with
    | inl e => Some e
    | inr _ => None
    end.

(** *** Vocabulary of the further properties *)

(** The lines the two sinks append. *)
Definition output_lines {F} (total_gb total_cost : F)
           (color_code : option string) : list (fstring F) :=
  [ [Text "total_gb="; Val (FFixed6 total_gb); Text LF];
    [Text "estimate_cost="; Val (FFixed6 total_cost); Text LF];
    [Text "color_code="; Val (FOptStr color_code); Text LF] ].

Definition summary_lines {F} (label : string) (total_gb total_cost : F)
           (color_code : option string) : list (fstring F) :=
  [ [Text "### 💰 "; Text label; Text " Cost Estimate"; Text LF];
    [Text "| Resource | Storage Size (GB) | Estimated Monthly Cost |"; Text LF];
    [Text "|----------|-------------------|------------------------|"; Text LF];
    [Text "| "; Text label; Text " | "; Val (FFixed6 total_gb);
     Text " | <span style='color:"; Val (FOptStr color_code);
     Text "'>$"; Val (FFixed6 total_cost); Text "</span> |"; Text LF] ].


(** The colors in the order of their severity. *)
Definition severity (color : string) : nat :=
  if String.eqb color "green" then 0
  else if String.eqb color "yellow" then 1
  else 2.

(** [page.get("Contents", [])]. *)
Definition contents_of (page : option (list string)) : list string :=
  match page with Some contents => contents | None => [] end.

(** The keys of the bucket, page after page. *)
Definition listing (r : Transfer.remote) : list string :=
  List.concat (map contents_of (Transfer.pages r)).

(** A key the bucket can deliver. *)
Definition deliverable (r : Transfer.remote) (k : string) : bool :=
  match Transfer.client_error r k with None => true | Some _ => false end.

(** An entry of [upload_files] that is uploaded: it has a key and a path,
    neither empty, and [client.upload_file] succeeds. *)
Definition uploadable (u : Transfer.uploader) (i : Transfer.upload_info) : bool :=
  match Transfer.upload_key i, Transfer.upload_path i with
  | Some k, Some p =>
      negb (String.eqb k "") && negb (String.eqb p "")
      && match u p k with None => true | Some _ => false end
  | _, _ => false
  end.

(** An entry for which an upload is attempted. *)
Definition attempted (i : Transfer.upload_info) : bool :=
  negb (Transfer.falsy (Transfer.upload_key i) || Transfer.falsy (Transfer.upload_path i)).

(** The uploads a run attempted: local path, bucket and key, in order. *)
Fixpoint upload_attempts (evs : list Transfer.upload_call)
  : list (string * string * string) :=
  match evs with
  | [] => []
  | Transfer.UploadFile p b k :: evs' => (p, b, k) :: upload_attempts evs'
  | _ :: evs' => upload_attempts evs'
  end.

Definition key_of (i : Transfer.upload_info) : string :=
  match Transfer.upload_key i with Some k => k | None => EmptyString end.

Definition path_of (i : Transfer.upload_info) : string :=
  match Transfer.upload_path i with Some p => p | None => EmptyString end.

(** *** Double precision, from the specification of the primitive floats *)

Module B64.

Local Open Scope Z_scope.

(** The exponent of the smallest subnormal is [-1074]: every finite double
    is an integer number of units of [2 ^ -1074].  [TOP] is [2 ^ 1024] in
    these units, where the infinities sit. *)
Definition TOP : Z := 2 ^ 2098.

Definition ord (x : spec_float) : Z :=
  match x with
  | S754_zero _ | S754_nan => 0
  | S754_infinity s => if s then - TOP else TOP
  | S754_finite s m e =>
      if s then - (Zpos m * 2 ^ (e + 1074)) else Zpos m * 2 ^ (e + 1074)
  end.

Definition is_nan (x : spec_float) : bool :=
  match x with S754_nan => true | _ => false end.

(** [M / 2 ^ n] rounded to the nearest integer, ties to even. *)
Definition rne (M n : Z) : Z :=
  if n <=? 0 then M
  else
    let q := M / 2 ^ n in
    let r := M mod 2 ^ n in
    let h := 2 ^ (n - 1) in
    if r <? h then q
    else if h <? r then q + 1
    else if Z.even q then q else q + 1.

(** The number of binary digits of a positive integer. *)
Definition digits (M : Z) : Z := Z.log2 M + 1.

(** The shift that brings [M * 2 ^ E] to 53 digits, or to the exponent
    [-1074] when that comes first. *)
Definition shift (M E : Z) : Z :=
  Z.max (Z.max (digits M - 53) (- 1074 - E)) 0.

(** [M * 2 ^ E] rounded to a double, in units of [2 ^ -1074]. *)
Definition rnd (M E : Z) : Z :=
  Z.min TOP (rne M (shift M E) * 2 ^ (shift M E + E + 1074)).

(** The same for an integer of either sign: rounding is symmetric. *)
Definition rnds (z E : Z) : Z :=
  if z <? 0 then - rnd (- z) E else rnd z E.

(** A double as a number of units of [2 ^ -1074], and whether it is NaN. *)
Definition val (x : float) : Z := ord (Prim2SF x).

Definition nan (x : float) : bool := is_nan (Prim2SF x).

(** A double that is neither NaN nor an infinity. *)
Definition finite (x : float) : bool :=
  negb (nan x) && (Z.abs (val x) <? TOP).

End B64.


(** A tier list the loop can bill on doubles: every span
    [limit - previous_limit] is a number that is not negative, every price
    is positive and finite, and only the last span is infinite. *)
Fixpoint billable (previous_limit : float) (tiers : list (@tier float)) : bool :=
  match tiers with
  | [] => true
  | (tier_limit, price_per_gb) :: tiers' =>
      let span := (tier_limit - previous_limit)%float in
      negb (B64.nan span) && (0 <=? B64.val span)%Z
      && (B64.finite span || match tiers' with [] => true | _ => false end)
      && B64.finite price_per_gb && (0 <? B64.val price_per_gb)%Z
      && billable tier_limit tiers'
  end.


(** ** Double precision: rounding and order

The operations of the primitive floats are specified by [SpecFloat]; the
lemmas below derive, from that specification, what the statements about
every double need: the order of the doubles is the order of their values
in units of [2 ^ -1074], and the result of an operation on finite doubles
is the rounding [rnds] of the exact result. *)

Module B64Facts.

Import B64.
Local Open Scope Z_scope.

Lemma iter_pos_shift {A} (f : A -> A) (p : positive) (x : A) :
  iter_pos f p (f x) = f (iter_pos f p x).
Proof.
  revert x. induction p as [p IH|p IH|]; intro x; cbn [iter_pos].
  - rewrite !IH. reflexivity.
  - rewrite !IH. reflexivity.
  - reflexivity.
Qed.

Lemma iter_pos_succ {A} (f : A -> A) (p : positive) (x : A) :
  iter_pos f (Pos.succ p) x = f (iter_pos f p x).
Proof.
  revert x. induction p as [p IH|p IH|]; intro x; cbn [iter_pos Pos.succ].
  - rewrite !IH, !iter_pos_shift. reflexivity.
  - rewrite !iter_pos_shift. reflexivity.
  - reflexivity.
Qed.

Lemma shr_1_nonneg (m : Z) (r s : bool) :
  0 <= m ->
  shr_1 (Build_shr_record m r s)
  = Build_shr_record (m / 2) (Z.odd m) (r || s).
Proof.
  intro Hm. destruct m as [|p|p]; [reflexivity| |lia].
  destruct p as [p|p|]; cbn [shr_1 Z.odd].
  - replace (Z.pos p~1 / 2) with (Z.pos p); [reflexivity|].
    apply Z.div_unique with (r := 1); lia.
  - replace (Z.pos p~0 / 2) with (Z.pos p); [reflexivity|].
    apply Z.div_unique with (r := 0); lia.
  - reflexivity.
Qed.

End B64Facts.

Module B64Shr.

Import B64 B64Facts.
Local Open Scope Z_scope.

Lemma mod_double (M a : Z) :
  0 < a ->
  M mod (2 * a) = a * ((M / a) mod 2) + M mod a.
Proof.
  intro Ha.
  pose proof (Z.div_mod M a ltac:(lia)) as H1.
  pose proof (Z.mod_pos_bound M a Ha) as H2.
  pose proof (Z.div_mod (M / a) 2 ltac:(lia)) as H3.
  pose proof (Z.mod_pos_bound (M / a) 2 ltac:(lia)) as H4.
  symmetry. apply Z.mod_unique with (q := (M / a) / 2); [left; nia | nia].
Qed.

Lemma odd_mod2 (u : Z) : Z.odd u = negb (u mod 2 =? 0).
Proof.
  rewrite Zmod_odd. destruct (Z.odd u); reflexivity.
Qed.

(** [p] steps of [shr_1] on a mantissa that is not negative: the quotient by
    [2 ^ p], the last bit shifted out, and whether a bit before it was
    set. *)
Lemma shr_iter (M : Z) (p : positive) :
  0 <= M ->
  iter_pos shr_1 p (Build_shr_record M false false)
  = Build_shr_record (M / 2 ^ Zpos p)
                     (Z.odd (M / 2 ^ (Zpos p - 1)))
                     (negb (M mod 2 ^ (Zpos p - 1) =? 0)).
Proof.
  intro HM. induction p as [|p IH] using Pos.peano_ind.
  - cbn [iter_pos]. rewrite shr_1_nonneg by exact HM.
    change (2 ^ (1 - 1)) with 1. rewrite Z.div_1_r, Z.mod_1_r. reflexivity.
  - rewrite iter_pos_succ, IH.
    assert (Hq : 0 <= M / 2 ^ Z.pos p)
      by (apply Z.div_pos; [exact HM | apply Z.pow_pos_nonneg; lia]).
    rewrite shr_1_nonneg by exact Hq.
    replace (Z.pos (Pos.succ p) - 1) with (Z.pos p) by lia.
    replace (Z.pos (Pos.succ p)) with (Z.pos p + 1) by lia.
    rewrite Z.pow_add_r by lia. change (2 ^ 1) with 2.
    rewrite Z.div_div by (try apply Z.pow_pos_nonneg; lia).
    f_equal.
    set (a := 2 ^ (Z.pos p - 1)).
    assert (Ha : 0 < a) by (apply Z.pow_pos_nonneg; lia).
    assert (H2a : 2 ^ Z.pos p = 2 * a).
    { unfold a. rewrite <- Z.pow_succ_r by lia. f_equal. lia. }
    rewrite H2a, (mod_double M Ha), odd_mod2.
    pose proof (Z.mod_pos_bound (M / a) 2 ltac:(lia)) as Hb.
    pose proof (Z.mod_pos_bound M a Ha) as Hc.
    destruct (Z.eqb_spec ((M / a) mod 2) 0) as [H0|H0];
      destruct (Z.eqb_spec (M mod a) 0) as [H1|H1]; cbn [negb orb];
      destruct (Z.eqb_spec (a * ((M / a) mod 2) + M mod a) 0) as [H2|H2];
      cbn [negb]; try reflexivity; exfalso; nia.
Qed.

(** Shifting by [n] and rounding as [binary_round_aux] does is [rne]. *)
Lemma round_shr (M : Z) (p : positive) :
  0 <= M ->
  let mrs := iter_pos shr_1 p (Build_shr_record M false false) in
  round_nearest_even (shr_m mrs) (loc_of_shr_record mrs) = rne M (Zpos p).
Proof.
  intros HM mrs. subst mrs. rewrite (shr_iter p HM).
  cbn [shr_m loc_of_shr_record]. unfold rne.
  destruct (Z.leb_spec (Z.pos p) 0) as [Hle|_]; [lia|].
  set (h := 2 ^ (Z.pos p - 1)).
  assert (Hh : 0 < h) by (apply Z.pow_pos_nonneg; lia).
  assert (H2h : 2 ^ Z.pos p = 2 * h).
  { unfold h. rewrite <- Z.pow_succ_r by lia. f_equal. lia. }
  rewrite H2h, (mod_double M Hh), odd_mod2.
  pose proof (Z.mod_pos_bound (M / h) 2 ltac:(lia)) as Hb.
  pose proof (Z.mod_pos_bound M h Hh) as Hc.
  set (q := M / (2 * h)).
  destruct (Z.eqb_spec ((M / h) mod 2) 0) as [H0|H0];
    destruct (Z.eqb_spec (M mod h) 0) as [H1|H1];
    cbn [negb loc_of_shr_record round_nearest_even].
  - rewrite H0, H1.
    destruct (Z.ltb_spec (h * 0 + 0) h); [reflexivity | lia].
  - rewrite H0.
    destruct (Z.ltb_spec (h * 0 + M mod h) h); [reflexivity | lia].
  - assert (Hu : (M / h) mod 2 = 1) by lia. rewrite Hu, H1.
    destruct (Z.ltb_spec (h * 1 + 0) h); [lia|].
    destruct (Z.ltb_spec h (h * 1 + 0)); [lia|]. reflexivity.
  - assert (Hu : (M / h) mod 2 = 1) by lia. rewrite Hu.
    destruct (Z.ltb_spec (h * 1 + M mod h) h); [lia|].
    destruct (Z.ltb_spec h (h * 1 + M mod h)); [reflexivity | lia].
Qed.

End B64Shr.

Module B64Round.

Import B64 B64Facts B64Shr.
Local Open Scope Z_scope.

Lemma digits2_size (m : positive) : digits2_pos m = Pos.size m.
Proof. induction m as [m IH|m IH|]; cbn; rewrite ?IH; reflexivity. Qed.

Lemma digits_pos (m : positive) : Zpos (digits2_pos m) = digits (Zpos m).
Proof.
  rewrite digits2_size. unfold digits.
  destruct m as [m|m|]; cbn [Z.log2 Pos.size]; lia.
Qed.

Lemma digits_bounds (M : Z) :
  0 < M -> 2 ^ (digits M - 1) <= M < 2 ^ digits M.
Proof.
  intro HM. unfold digits.
  pose proof (Z.log2_spec M HM) as H.
  replace (Z.log2 M + 1 - 1) with (Z.log2 M) by lia.
  replace (Z.log2 M + 1) with (Z.succ (Z.log2 M)) by lia. exact H.
Qed.

Lemma digits_ge_1 (M : Z) : 1 <= digits M.
Proof. unfold digits. pose proof (Z.log2_nonneg M). lia. Qed.

Lemma digits_unique (M d : Z) :
  2 ^ (d - 1) <= M < 2 ^ d -> 1 <= d -> digits M = d.
Proof.
  intros H Hd. unfold digits.
  assert (Hl : Z.log2 M = d - 1); [|lia].
  apply Z.log2_unique; [lia|].
  replace (Z.succ (d - 1)) with d by lia. exact H.
Qed.

Lemma fexp_sub (d e : Z) :
  fexp prec emax (d + e) - e = Z.max (d - 53) (- 1074 - e).
Proof. unfold fexp, emin, prec, emax. lia. Qed.

(** *** Facts on [rne] *)

Lemma rne_0 (M : Z) : rne M 0 = M.
Proof. reflexivity. Qed.

Lemma rne_cases (M n : Z) :
  0 < n ->
  let q := M / 2 ^ n in
  let r := M mod 2 ^ n in
  M = 2 ^ n * q + r /\ 0 <= r < 2 ^ n /\ 2 ^ n = 2 * 2 ^ (n - 1) /\
  0 < 2 ^ (n - 1) /\
  ((r < 2 ^ (n - 1) /\ rne M n = q) \/
   (2 ^ (n - 1) < r /\ rne M n = q + 1) \/
   (r = 2 ^ (n - 1) /\ Z.even q = true /\ rne M n = q) \/
   (r = 2 ^ (n - 1) /\ Z.even q = false /\ rne M n = q + 1)).
Proof.
  intros Hn q r.
  assert (Hp : 0 < 2 ^ n) by (apply Z.pow_pos_nonneg; lia).
  assert (Hh : 0 < 2 ^ (n - 1)) by (apply Z.pow_pos_nonneg; lia).
  assert (H2 : 2 ^ n = 2 * 2 ^ (n - 1)).
  { rewrite <- Z.pow_succ_r by lia. f_equal. lia. }
  split; [apply Z.div_mod; lia|].
  split; [apply Z.mod_pos_bound; exact Hp|].
  split; [exact H2|]. split; [exact Hh|].
  unfold rne. destruct (Z.leb_spec n 0) as [Hle|_]; [lia|].
  fold q r.
  destruct (Z.ltb_spec r (2 ^ (n - 1))) as [H1|H1]; [left; split; [exact H1|reflexivity]|].
  destruct (Z.ltb_spec (2 ^ (n - 1)) r) as [H3|H3];
    [right; left; split; [exact H3|reflexivity]|].
  right; right. destruct (Z.even q) eqn:He; [left | right];
    (split; [lia | split; reflexivity]).
Qed.

Lemma rne_nonneg (M n : Z) : 0 <= M -> 0 <= rne M n.
Proof.
  intro HM. destruct (Z.leb_spec n 0) as [Hle|Hn].
  - unfold rne. destruct (Z.leb_spec n 0); [exact HM | lia].
  - destruct (rne_cases M Hn) as (Hdm & Hr & H2 & Hh & Hc).
    assert (0 <= M / 2 ^ n) by (apply Z.div_pos; lia).
    destruct Hc as [[_ ->]|[[_ ->]|[(_ & _ & ->)|(_ & _ & ->)]]]; lia.
Qed.

Lemma rne_upper (M n b : Z) :
  0 <= n -> 0 <= M -> M <= 2 ^ n * b -> rne M n <= b.
Proof.
  intros Hn HM Hb. destruct (Z.eq_dec n 0) as [->|Hn0].
  - rewrite rne_0. change (2 ^ 0) with 1 in Hb. lia.
  - destruct (@rne_cases M n ltac:(lia)) as (Hdm & Hr & H2 & Hh & Hc).
    destruct Hc as [[Hc ->]|[[Hc ->]|[(Hc & _ & ->)|(Hc & _ & ->)]]]; nia.
Qed.

Lemma rne_lower (M n b : Z) :
  0 <= n -> 2 ^ n * b <= M -> b <= rne M n.
Proof.
  intros Hn Hb. destruct (Z.eq_dec n 0) as [->|Hn0].
  - rewrite rne_0. change (2 ^ 0) with 1 in Hb. lia.
  - destruct (@rne_cases M n ltac:(lia)) as (Hdm & Hr & H2 & Hh & Hc).
    destruct Hc as [[Hc ->]|[[Hc ->]|[(Hc & _ & ->)|(Hc & _ & ->)]]]; nia.
Qed.

End B64Round.

Module B64Aux.

Import B64 B64Facts B64Shr B64Round.
Local Open Scope Z_scope.

(** The first pass of [binary_round_aux]: shift, then round. *)
Lemma first_pass (M E : Z) :
  0 < M ->
  0 <= Z.max (digits M - 53) (- 1074 - E) ->
  let n := Z.max (digits M - 53) (- 1074 - E) in
  let mrs := fst (shr (Build_shr_record M false false) E n) in
  round_nearest_even (shr_m mrs) (loc_of_shr_record mrs) = rne M n /\
  snd (shr (Build_shr_record M false false) E n) = E + n.
Proof.
  intros HM Hn n mrs. subst mrs. fold n in Hn.
  destruct n as [|p|p] eqn:En; [| |lia].
  - cbn. split; [reflexivity | lia].
  - cbn [shr fst snd]. split; [|reflexivity].
    apply (round_shr p). lia.
Qed.

(** The second pass: the rounded mantissa has at most 53 digits, or is
    [2 ^ 53], which one more shift brings to [2 ^ 52]. *)
Lemma second_pass (q e : Z) :
  0 <= q <= 2 ^ 53 -> - 1074 <= e ->
  let r := shr_fexp prec emax q e loc_Exact in
  shr_m (fst r) * 2 ^ (snd r + 1074) = q * 2 ^ (e + 1074) /\
  0 <= shr_m (fst r) < 2 ^ 53 /\
  ((snd r = e /\ shr_m (fst r) = q) \/
   (snd r = e + 1 /\ shr_m (fst r) = 2 ^ 52 /\ q = 2 ^ 53)).
Proof.
  intros Hq He r. subst r. unfold shr_fexp. cbn [shr_record_of_loc].
  rewrite fexp_sub.
  destruct q as [|m|m]; [| |lia].
  - cbn [Zdigits2].
    replace (Z.max (0 - 53) (- 1074 - e)) with (- (Z.min 53 (1074 + e))) by lia.
    destruct (Z.min 53 (1074 + e)) as [|p|p] eqn:Em; [| |lia]; cbn;
      (split; [reflexivity|]); (split; [lia|]); left; split; reflexivity.
  - cbn [Zdigits2]. rewrite digits_pos.
    pose proof (digits_bounds (M := Z.pos m) ltac:(lia)) as Hd.
    pose proof (digits_ge_1 (Z.pos m)) as Hd1.
    destruct (Z.eq_dec (Z.pos m) (2 ^ 53)) as [Heq|Hne].
    + rewrite Heq.
      replace (digits (2 ^ 53)) with 54 by reflexivity.
      replace (Z.max (54 - 53) (- 1074 - e)) with 1 by lia.
      cbn [shr iter_pos fst snd]. rewrite shr_1_nonneg by lia.
      cbn [shr_m].
      change (2 ^ 53 / 2) with (2 ^ 52).
      split; [|split; [split; [lia | reflexivity]|right; repeat split; lia]].
      replace (e + 1 + 1074) with (Z.succ (e + 1074)) by lia.
      rewrite Z.pow_succ_r by lia.
      change (2 ^ 53) with (2 * 2 ^ 52). ring.
    + assert (Hlt : Z.pos m < 2 ^ 53) by lia.
      assert (Hd53 : digits (Z.pos m) <= 53).
      { destruct (Z.le_gt_cases (digits (Z.pos m)) 53) as [H|H]; [exact H|].
        exfalso.
        assert (2 ^ 53 <= 2 ^ (digits (Z.pos m) - 1))
          by (apply Z.pow_le_mono_r; lia).
        lia. }
      assert (Hnn : Z.max (digits (Z.pos m) - 53) (- 1074 - e) <= 0) by lia.
      destruct (Z.max (digits (Z.pos m) - 53) (- 1074 - e)) as [|p|p] eqn:En;
        [| lia |]; cbn [shr fst snd shr_m];
        (split; [reflexivity|]); (split; [lia|]); left; split; reflexivity.
Qed.

End B64Aux.

Module B64Bra.

Import B64 B64Facts B64Shr B64Round B64Aux.
Local Open Scope Z_scope.

Lemma TOP_eq : TOP = 2 ^ 53 * 2 ^ 2045.
Proof. unfold TOP. rewrite <- Z.pow_add_r by lia. reflexivity. Qed.

Lemma TOP_pos : 0 < TOP.
Proof. unfold TOP. apply Z.pow_pos_nonneg; lia. Qed.

(** What [binary_round_aux] returns for an exact mantissa: the rounding
    [rnd] of its value, with the sign it is given. *)
Lemma bra_ord (s : bool) (m : positive) (E : Z) :
  0 <= Z.max (digits (Zpos m) - 53) (- 1074 - E) ->
  let r := binary_round_aux prec emax s (Zpos m) E loc_Exact in
  is_nan r = false /\
  ord r = if s then - rnd (Zpos m) E else rnd (Zpos m) E.
Proof.
  intros Hn r.
  enough (Hgen : forall x, x = r ->
                           is_nan x = false /\
                           ord x = if s then - rnd (Zpos m) E else rnd (Zpos m) E)
    by (apply Hgen; reflexivity).
  subst r. intros x Hx. set (M := Zpos m) in *.
  assert (HM : 0 < M) by (unfold M; lia).
  set (n := Z.max (digits M - 53) (- 1074 - E)) in *.
  destruct (@first_pass M E HM Hn) as [Hround He'].
  fold n in Hround, He'.
  unfold binary_round_aux, shr_fexp at 1 in Hx. cbn [shr_record_of_loc] in Hx.
  assert (Hdig : Zdigits2 M = digits M)
    by (unfold M; cbn [Zdigits2]; apply digits_pos).
  rewrite Hdig, fexp_sub in Hx. fold n in Hx.
  destruct (shr (Build_shr_record M false false) E n) as [mrs' e'] eqn:H1.
  cbn [fst snd] in Hround, He'. rewrite Hround in Hx. subst e'.
  pose proof (digits_bounds HM) as Hd.
  assert (Hq1 : 0 <= rne M n <= 2 ^ 53).
  { split; [apply rne_nonneg; lia|].
    apply rne_upper; [exact Hn | lia |].
    rewrite <- Z.pow_add_r by lia.
    assert (2 ^ digits M <= 2 ^ (n + 53)) by (apply Z.pow_le_mono_r; lia).
    lia. }
  assert (He1 : - 1074 <= E + n) by lia.
  destruct (@second_pass (rne M n) (E + n) Hq1 He1) as (Hval & Hm2 & Hcase).
  destruct (shr_fexp prec emax (rne M n) (E + n) loc_Exact) as [mrs'' e''] eqn:H2.
  cbn [fst snd] in Hval, Hm2, Hcase.
  assert (Hshift : shift M E = n) by (unfold shift; fold n; lia).
  unfold rnd. rewrite Hshift.
  replace (n + E + 1074) with (E + n + 1074) by lia.
  rewrite <- Hval.
  assert (Hpow : 0 < 2 ^ (e'' + 1074))
    by (apply Z.pow_pos_nonneg; destruct Hcase as [[-> _]|[-> _]]; lia).
  destruct (shr_m mrs'') as [|m2|m2] eqn:Em2; [| |lia].
  - subst x. cbn [is_nan ord]. split; [reflexivity|].
    rewrite Z.mul_0_l. pose proof TOP_pos.
    destruct s; rewrite Z.min_r by lia; reflexivity.
  - unfold emax, prec in Hx. change (1024 - 53) with 971 in Hx.
    destruct (Z.leb_spec e'' 971) as [Hfin|Hinf]; subst x.
    + cbn [is_nan ord]. split; [reflexivity|].
      assert (Hlt : Z.pos m2 * 2 ^ (e'' + 1074) < TOP).
      { rewrite TOP_eq.
        assert (2 ^ (e'' + 1074) <= 2 ^ 2045) by (apply Z.pow_le_mono_r; lia).
        nia. }
      rewrite Z.min_r by lia. reflexivity.
    + cbn [is_nan ord]. split; [reflexivity|].
      assert (Hge : TOP <= Z.pos m2 * 2 ^ (e'' + 1074)).
      { assert (H52 : 2 ^ 52 <= Z.pos m2).
        { destruct Hcase as [[He Hq]|[He [Hq _]]]; [|lia].
          rewrite Hq. apply rne_lower; [exact Hn|].
          assert (Hnd : n = digits M - 53) by lia.
          rewrite <- Z.pow_add_r by lia.
          replace (n + 52) with (digits M - 1) by lia. lia. }
        assert (2 ^ 2046 <= 2 ^ (e'' + 1074)) by (apply Z.pow_le_mono_r; lia).
        unfold TOP. change (2 ^ 2098) with (2 ^ 52 * 2 ^ 2046). nia. }
      rewrite Z.min_l by lia. reflexivity.
Qed.

End B64Bra.

Module B64Rnd.

Import B64 B64Facts B64Shr B64Round B64Aux B64Bra.
Local Open Scope Z_scope.

(** [rne] from any quotient and remainder. *)
Lemma rne_unique (M n q r : Z) :
  0 < n -> M = 2 ^ n * q + r -> 0 <= r < 2 ^ n ->
  rne M n = if r <? 2 ^ (n - 1) then q
            else if 2 ^ (n - 1) <? r then q + 1
            else if Z.even q then q else q + 1.
Proof.
  intros Hn HM Hr.
  assert (Hq : M / 2 ^ n = q).
  { symmetry. apply Z.div_unique with (r := r); [left; exact Hr | exact HM]. }
  assert (Hm : M mod 2 ^ n = r).
  { symmetry. apply Z.mod_unique with (q := q); [left; exact Hr | exact HM]. }
  unfold rne. destruct (Z.leb_spec n 0); [lia|]. rewrite Hq, Hm. reflexivity.
Qed.

Lemma rne_scale (M n j : Z) :
  0 <= n -> 0 <= j -> rne (M * 2 ^ j) (n + j) = rne M n.
Proof.
  intros Hn Hj.
  assert (Hpj : 0 < 2 ^ j) by (apply Z.pow_pos_nonneg; lia).
  destruct (Z.eq_dec j 0) as [->|Hj0].
  { rewrite Z.add_0_r. change (2 ^ 0) with 1. f_equal. lia. }
  destruct (Z.eq_dec n 0) as [->|Hn0].
  - rewrite rne_0. cbn [Z.add].
    rewrite (@rne_unique (M * 2 ^ j) j M 0) by lia.
    assert (0 < 2 ^ (j - 1)) by (apply Z.pow_pos_nonneg; lia).
    destruct (Z.ltb_spec 0 (2 ^ (j - 1))); [reflexivity | lia].
  - destruct (@rne_cases M n ltac:(lia)) as (Hdm & Hr & H2 & Hh & Hc).
    set (q := M / 2 ^ n) in *. set (r := M mod 2 ^ n) in *.
    assert (Hpow : 2 ^ (n + j) = 2 ^ n * 2 ^ j) by (apply Z.pow_add_r; lia).
    assert (Hpow' : 2 ^ (n + j - 1) = 2 ^ (n - 1) * 2 ^ j).
    { replace (n + j - 1) with (n - 1 + j) by lia. apply Z.pow_add_r; lia. }
    rewrite (@rne_unique (M * 2 ^ j) (n + j) q (r * 2 ^ j)); [|lia|nia|nia].
    rewrite Hpow'.
    destruct Hc as [[Hc ->]|[[Hc ->]|[(Hc & He & ->)|(Hc & He & ->)]]].
    + destruct (Z.ltb_spec (r * 2 ^ j) (2 ^ (n - 1) * 2 ^ j)); [reflexivity|nia].
    + destruct (Z.ltb_spec (r * 2 ^ j) (2 ^ (n - 1) * 2 ^ j)); [nia|].
      destruct (Z.ltb_spec (2 ^ (n - 1) * 2 ^ j) (r * 2 ^ j)); [reflexivity|nia].
    + destruct (Z.ltb_spec (r * 2 ^ j) (2 ^ (n - 1) * 2 ^ j)); [nia|].
      destruct (Z.ltb_spec (2 ^ (n - 1) * 2 ^ j) (r * 2 ^ j)); [nia|].
      rewrite He. reflexivity.
    + destruct (Z.ltb_spec (r * 2 ^ j) (2 ^ (n - 1) * 2 ^ j)); [nia|].
      destruct (Z.ltb_spec (2 ^ (n - 1) * 2 ^ j) (r * 2 ^ j)); [nia|].
      rewrite He. reflexivity.
Qed.

Lemma rne_mono (M M' n : Z) : M <= M' -> rne M n <= rne M' n.
Proof.
  intro Hle. destruct (Z.leb_spec n 0) as [Hn|Hn].
  - unfold rne. destruct (Z.leb_spec n 0); [exact Hle | lia].
  - destruct (@rne_cases M n Hn) as (Hdm & Hr & H2 & Hh & Hc).
    destruct (@rne_cases M' n Hn) as (Hdm' & Hr' & _ & _ & Hc').
    set (q := M / 2 ^ n) in *. set (r := M mod 2 ^ n) in *.
    set (q' := M' / 2 ^ n) in *. set (r' := M' mod 2 ^ n) in *.
    assert (Hqq : q <= q') by (apply Z.div_le_mono; lia).
    destruct (Z.eq_dec q q') as [Heq|Hne].
    + rewrite <- Heq in *.
      destruct Hc as [[Hc ->]|[[Hc ->]|[(Hc & He & ->)|(Hc & He & ->)]]];
        destruct Hc' as [[Hc' ->]|[[Hc' ->]|[(Hc' & He' & ->)|(Hc' & He' & ->)]]];
        try lia; congruence.
    + destruct Hc as [[Hc ->]|[[Hc ->]|[(Hc & He & ->)|(Hc & He & ->)]]];
        destruct Hc' as [[Hc' ->]|[[Hc' ->]|[(Hc' & He' & ->)|(Hc' & He' & ->)]]];
        lia.
Qed.

Lemma rne_exact (m n : Z) : 0 <= n -> rne (m * 2 ^ n) n = m.
Proof.
  intro Hn. rewrite <- (rne_0 m) at 2. apply (@rne_scale m 0 n); lia.
Qed.

(** *** Facts on [rnd] *)

Lemma shift_nonneg (M E : Z) : 0 <= shift M E.
Proof. unfold shift. lia. Qed.

Lemma shift_exp (M E : Z) : 0 <= shift M E + E + 1074.
Proof. unfold shift. lia. Qed.

Lemma rnd_nonneg (M E : Z) : 0 <= M -> 0 <= rnd M E.
Proof.
  intro HM. unfold rnd. pose proof TOP_pos.
  pose proof (@rne_nonneg M (shift M E) HM).
  pose proof (shift_exp M E).
  assert (0 < 2 ^ (shift M E + E + 1074)) by (apply Z.pow_pos_nonneg; lia).
  apply Z.min_glb; [lia | nia].
Qed.

Lemma rnd_le_TOP (M E : Z) : rnd M E <= TOP.
Proof. unfold rnd. apply Z.le_min_l. Qed.

Lemma rnd_0 (E : Z) : rnd 0 E = 0.
Proof.
  unfold rnd. pose proof TOP_pos.
  assert (Hr : rne 0 (shift 0 E) = 0).
  { pose proof (shift_nonneg 0 E) as Hs.
    replace 0 with (0 * 2 ^ shift 0 E) at 1 by lia.
    apply rne_exact. exact Hs. }
  rewrite Hr. lia.
Qed.

Lemma digits_mono (M M' : Z) : M <= M' -> digits M <= digits M'.
Proof. intro H. unfold digits. pose proof (Z.log2_le_mono M M' H). lia. Qed.

Lemma digits_scale (M j : Z) : 0 < M -> 0 <= j -> digits (M * 2 ^ j) = digits M + j.
Proof.
  intros HM Hj. unfold digits. rewrite Z.log2_mul_pow2 by lia. lia.
Qed.

Lemma rnd_mono (M M' E : Z) : 0 <= M -> M <= M' -> rnd M E <= rnd M' E.
Proof.
  intros HM Hle.
  destruct (Z.eq_dec M 0) as [->|HM0].
  { rewrite rnd_0. apply rnd_nonneg. lia. }
  assert (HMpos : 0 < M) by lia. assert (HM'pos : 0 < M') by lia.
  unfold rnd. apply Z.min_le_compat_l.
  pose proof (digits_mono Hle) as Hdd.
  pose proof (digits_bounds HMpos) as Hd.
  pose proof (digits_bounds HM'pos) as Hd'.
  pose proof (shift_exp M E) as He. pose proof (shift_exp M' E) as He'.
  pose proof (shift_nonneg M E) as Hs. pose proof (shift_nonneg M' E) as Hs'.
  set (n := shift M E) in *. set (n' := shift M' E) in *.
  assert (Hnn : n <= n') by (unfold n, n', shift; lia).
  destruct (Z.eq_dec n n') as [Heq|Hne].
  - rewrite <- Heq.
    assert (0 < 2 ^ (n + E + 1074)) by (apply Z.pow_pos_nonneg; lia).
    pose proof (@rne_mono M M' n Hle). nia.
  - assert (Hn' : n' = digits M' - 53) by (unfold n, n', shift in *; lia).
    assert (Hlow : 2 ^ 52 <= rne M' n').
    { apply rne_lower; [exact Hs'|].
      rewrite <- Z.pow_add_r by lia.
      replace (n' + 52) with (digits M' - 1) by lia. lia. }
    assert (Hup : rne M n <= 2 ^ (n' + 52 - n)).
    { apply rne_upper; [exact Hs | lia |].
      rewrite <- Z.pow_add_r by lia.
      replace (n + (n' + 52 - n)) with (n' + 52) by lia.
      assert (2 ^ digits M <= 2 ^ (n' + 52))
        by (apply Z.pow_le_mono_r; unfold n, n', shift in *; lia).
      lia. }
    assert (Hp : 0 < 2 ^ (n + E + 1074)) by (apply Z.pow_pos_nonneg; lia).
    assert (Hp' : 0 < 2 ^ (n' + E + 1074)) by (apply Z.pow_pos_nonneg; lia).
    apply Z.le_trans with (2 ^ (n' + 52 - n) * 2 ^ (n + E + 1074)); [nia|].
    rewrite <- Z.pow_add_r by lia.
    replace (n' + 52 - n + (n + E + 1074)) with (52 + (n' + E + 1074)) by lia.
    rewrite Z.pow_add_r by lia. nia.
Qed.

Lemma rnd_shift (M E j : Z) :
  0 < M -> 0 <= j -> rnd (M * 2 ^ j) (E - j) = rnd M E.
Proof.
  intros HM Hj. unfold rnd. f_equal.
  assert (Hpj : 0 < 2 ^ j) by (apply Z.pow_pos_nonneg; lia).
  unfold shift. rewrite (digits_scale HM Hj).
  set (n0 := Z.max (digits M - 53) (- 1074 - E)).
  replace (Z.max (digits M + j - 53) (- 1074 - (E - j))) with (n0 + j)
    by (unfold n0; lia).
  destruct (Z.le_gt_cases 0 n0) as [H0|H0].
  - rewrite !Z.max_l by lia. rewrite rne_scale by lia.
    f_equal. f_equal. lia.
  - rewrite (Z.max_r n0 0) by lia. rewrite rne_0.
    destruct (Z.le_gt_cases 0 (n0 + j)) as [H1|H1].
    + rewrite Z.max_l by lia.
      replace (M * 2 ^ j) with (M * 2 ^ (- n0) * 2 ^ (n0 + j)).
      2:{ rewrite <- Z.mul_assoc, <- Z.pow_add_r by lia. f_equal. f_equal. lia. }
      rewrite rne_exact by lia.
      rewrite <- Z.mul_assoc, <- Z.pow_add_r by (unfold n0 in *; lia).
      f_equal. f_equal. lia.
    + rewrite Z.max_r by lia. rewrite rne_0.
      rewrite <- Z.mul_assoc, <- Z.pow_add_r by (unfold n0 in *; lia).
      f_equal. f_equal. lia.
Qed.

(** A value with at most 53 digits above the exponent [-1074], below the
    overflow threshold, is its own rounding. *)
Lemma rnd_exact (m e : Z) :
  0 <= m < 2 ^ 53 -> - 1074 <= e -> m * 2 ^ (e + 1074) < TOP ->
  rnd m e = m * 2 ^ (e + 1074).
Proof.
  intros Hm He Hlt.
  destruct (Z.eq_dec m 0) as [->|Hm0]; [rewrite rnd_0; lia|].
  unfold rnd.
  assert (Hd : digits m <= 53).
  { pose proof (@digits_bounds m ltac:(lia)) as Hb.
    destruct (Z.le_gt_cases (digits m) 53) as [H|H]; [exact H|].
    exfalso. assert (2 ^ 53 <= 2 ^ (digits m - 1)) by (apply Z.pow_le_mono_r; lia).
    lia. }
  assert (Hs : shift m e = 0) by (unfold shift; lia).
  rewrite Hs, rne_0. cbn [Z.add]. lia.
Qed.

End B64Rnd.

Module B64Ops.

Import B64 B64Facts B64Shr B64Round B64Aux B64Bra B64Rnd.
Local Open Scope Z_scope.

(** *** Valid doubles *)

Lemma bounded_inv (m : positive) (e : Z) :
  bounded prec emax m e = true ->
  - 1074 <= e <= 971 /\ digits (Zpos m) <= 53 /\
  (e = - 1074 \/ digits (Zpos m) = 53).
Proof.
  unfold bounded, canonical_mantissa, fexp, emin, prec, emax.
  rewrite andb_true_iff, Z.eqb_eq, Z.leb_le, digits_pos. lia.
Qed.

Lemma bounded_mantissa (m : positive) (e : Z) :
  bounded prec emax m e = true ->
  Zpos m < 2 ^ 53 /\ (- 1074 < e -> 2 ^ 52 <= Zpos m).
Proof.
  intro Hb. destruct (bounded_inv _ _ Hb) as (He & Hd & Hn).
  pose proof (@digits_bounds (Zpos m) ltac:(lia)) as Hbd.
  split.
  - assert (2 ^ digits (Z.pos m) <= 2 ^ 53) by (apply Z.pow_le_mono_r; lia). lia.
  - intro Hgt. destruct Hn as [Hn|Hn]; [lia|].
    rewrite Hn in Hbd. change (2 ^ (53 - 1)) with (2 ^ 52) in Hbd. lia.
Qed.

Lemma finite_ord_bounds (m : positive) (e : Z) :
  bounded prec emax m e = true ->
  0 < Zpos m * 2 ^ (e + 1074) < TOP.
Proof.
  intro Hb. destruct (bounded_inv _ _ Hb) as (He & _ & _).
  destruct (bounded_mantissa _ _ Hb) as [Hm _].
  assert (0 < 2 ^ (e + 1074)) by (apply Z.pow_pos_nonneg; lia).
  assert (2 ^ (e + 1074) <= 2 ^ 2045) by (apply Z.pow_le_mono_r; lia).
  rewrite TOP_eq. nia.
Qed.

Lemma lt_scaled (m1 m2 a b : Z) :
  0 < m1 < 2 ^ 53 -> 2 ^ 52 <= m2 -> 0 <= a < b ->
  m1 * 2 ^ a < m2 * 2 ^ b.
Proof.
  intros H1 H2 Hab.
  assert (0 < 2 ^ a) by (apply Z.pow_pos_nonneg; lia).
  assert (2 ^ (a + 1) <= 2 ^ b) by (apply Z.pow_le_mono_r; lia).
  rewrite Z.pow_add_r in * by lia. change (2 ^ 1) with 2 in *.
  change (2 ^ 53) with (2 * 2 ^ 52) in H1. nia.
Qed.

(** The order of the doubles is the order of the integers [ord]. *)
Lemma ord_compare (x y : spec_float) :
  SpecFloat.valid_binary prec emax x = true ->
  SpecFloat.valid_binary prec emax y = true ->
  is_nan x = false -> is_nan y = false ->
  SFcompare x y = Some (ord x ?= ord y).
Proof.
  intros Vx Vy Nx Ny. pose proof TOP_pos as HT.
  destruct x as [sx|sx| |sx mx ex], y as [sy|sy| |sy my ey];
    try discriminate; cbn [SpecFloat.valid_binary] in Vx, Vy;
    try (pose proof (finite_ord_bounds _ _ Vx) as Bx);
    try (pose proof (finite_ord_bounds _ _ Vy) as By);
    cbn [SFcompare ord].
  1-8: try destruct sx; try destruct sy; f_equal; symmetry;
    solve [ apply Z.compare_refl
          | apply Z.compare_lt_iff; lia
          | apply Z.compare_gt_iff; lia ].
  - destruct (bounded_inv _ _ Vx) as (Hex & _ & _).
    destruct (bounded_inv _ _ Vy) as (Hey & _ & _).
    destruct (bounded_mantissa _ _ Vx) as [Hmx Hnx].
    destruct (bounded_mantissa _ _ Vy) as [Hmy Hny].
    assert (Hcmp : (Zpos mx * 2 ^ (ex + 1074) ?= Zpos my * 2 ^ (ey + 1074))
                   = match ex ?= ey with
                     | Lt => Lt
                     | Gt => Gt
                     | Eq => Pos.compare_cont Eq mx my
                     end).
    { destruct (Z.compare_spec ex ey) as [Heq|Hlt|Hgt].
      - subst ey. change (Pos.compare_cont Eq mx my) with (Z.pos mx ?= Z.pos my).
        assert (0 < 2 ^ (ex + 1074)) by (apply Z.pow_pos_nonneg; lia).
        destruct (Z.compare_spec (Z.pos mx) (Z.pos my)) as [H1|H1|H1].
        + rewrite H1. apply Z.compare_refl.
        + apply Z.compare_lt_iff. nia.
        + apply Z.compare_gt_iff. nia.
      - apply Z.compare_lt_iff. apply lt_scaled; [lia | apply Hny; lia | lia].
      - apply Z.compare_gt_iff. apply lt_scaled; [lia | apply Hnx; lia | lia]. }
    destruct sx, sy; f_equal; symmetry.
    + rewrite <- Zcompare_opp, Z.compare_antisym, Hcmp.
      destruct (ex ?= ey); reflexivity.
    + apply Z.compare_lt_iff. lia.
    + apply Z.compare_gt_iff. lia.
    + exact Hcmp.
Qed.

End B64Ops.

Module B64Arith.

Import B64 B64Facts B64Shr B64Round B64Aux B64Bra B64Rnd B64Ops.
Local Open Scope Z_scope.

Lemma rnds_0 (E : Z) : rnds 0 E = 0.
Proof. unfold rnds. change (0 <? 0) with false. cbv iota. apply rnd_0. Qed.

Lemma rnds_pos (z E : Z) : 0 <= z -> rnds z E = rnd z E.
Proof. intro H. unfold rnds. destruct (Z.ltb_spec z 0); [lia | reflexivity]. Qed.

Lemma rnds_neg (z E : Z) : z <= 0 -> rnds z E = - rnd (- z) E.
Proof.
  intro H. unfold rnds. destruct (Z.ltb_spec z 0); [reflexivity|].
  assert (z = 0) by lia. subst z. change (- 0) with 0. rewrite rnd_0. reflexivity.
Qed.

Lemma rnds_opp (z E : Z) : rnds (- z) E = - rnds z E.
Proof.
  destruct (Z.lt_trichotomy z 0) as [H|[->|H]].
  - rewrite rnds_pos, (@rnds_neg z) by lia. lia.
  - change (- 0) with 0. rewrite rnds_0. reflexivity.
  - rewrite rnds_neg, (@rnds_pos z) by lia.
    replace (- - z) with z by lia. reflexivity.
Qed.

Lemma rnds_mono (z z' E : Z) : z <= z' -> rnds z E <= rnds z' E.
Proof.
  intro Hle.
  destruct (Z.le_gt_cases 0 z) as [H|H].
  - rewrite !rnds_pos by lia. apply rnd_mono; lia.
  - destruct (Z.le_gt_cases 0 z') as [H'|H'].
    + rewrite rnds_neg, (@rnds_pos z') by lia.
      pose proof (@rnd_nonneg (- z) E ltac:(lia)).
      pose proof (@rnd_nonneg z' E ltac:(lia)). lia.
    + rewrite !rnds_neg by lia.
      pose proof (@rnd_mono (- z') (- z) E ltac:(lia) ltac:(lia)). lia.
Qed.

Lemma rnds_bounds (z E : Z) : - TOP <= rnds z E <= TOP.
Proof.
  pose proof TOP_pos.
  destruct (Z.le_gt_cases 0 z) as [H0|H0].
  - rewrite rnds_pos by lia. pose proof (rnd_le_TOP z E).
    pose proof (@rnd_nonneg z E H0). lia.
  - rewrite rnds_neg by lia. pose proof (rnd_le_TOP (- z) E).
    pose proof (@rnd_nonneg (- z) E ltac:(lia)). lia.
Qed.

Lemma rnds_shift (z E j : Z) : 0 <= j -> rnds (z * 2 ^ j) (E - j) = rnds z E.
Proof.
  intro Hj. assert (Hp : 0 < 2 ^ j) by (apply Z.pow_pos_nonneg; lia).
  destruct (Z.lt_trichotomy z 0) as [H|[->|H]].
  - rewrite !rnds_neg by nia.
    replace (- (z * 2 ^ j)) with (- z * 2 ^ j) by ring.
    rewrite rnd_shift by lia. reflexivity.
  - rewrite Z.mul_0_l, !rnds_0. reflexivity.
  - rewrite !rnds_pos by nia. apply rnd_shift; lia.
Qed.

Lemma rnds_exact (m e : Z) :
  Z.abs m < 2 ^ 53 -> - 1074 <= e -> Z.abs m * 2 ^ (e + 1074) < TOP ->
  rnds m e = m * 2 ^ (e + 1074).
Proof.
  intros Hm He Hlt.
  destruct (Z.le_gt_cases 0 m) as [H|H].
  - rewrite rnds_pos by lia. apply rnd_exact; lia.
  - rewrite rnds_neg by lia. rewrite rnd_exact by lia. ring.
Qed.

(** *** Multiplication *)

Lemma digits_mul (a b : Z) :
  0 < a -> 0 < b -> digits a + digits b - 1 <= digits (a * b).
Proof.
  intros Ha Hb. pose proof (digits_bounds Ha) as Ba.
  pose proof (digits_bounds Hb) as Bb.
  pose proof (digits_ge_1 a). pose proof (digits_ge_1 b).
  unfold digits at 3.
  assert (digits a + digits b - 2 <= Z.log2 (a * b)); [|lia].
  apply Z.log2_le_pow2; [nia|].
  replace (digits a + digits b - 2) with ((digits a - 1) + (digits b - 1)) by lia.
  rewrite Z.pow_add_r by lia.
  assert (0 < 2 ^ (digits a - 1)) by (apply Z.pow_pos_nonneg; lia).
  assert (0 < 2 ^ (digits b - 1)) by (apply Z.pow_pos_nonneg; lia).
  nia.
Qed.

Lemma SFmul_finite (sx sy : bool) (mx my : positive) (ex ey : Z) :
  bounded prec emax mx ex = true -> bounded prec emax my ey = true ->
  let r := SFmul prec emax (S754_finite sx mx ex) (S754_finite sy my ey) in
  is_nan r = false /\
  ord r = rnds (ord (S754_finite sx mx ex) * ord (S754_finite sy my ey))
               (- 2148).
Proof.
  intros Vx Vy r. subst r. cbn [SFmul].
  destruct (bounded_inv _ _ Vx) as (Hex & Hdx & Hnx).
  destruct (bounded_inv _ _ Vy) as (Hey & Hdy & Hny).
  pose proof (@digits_mul (Zpos mx) (Zpos my) ltac:(lia) ltac:(lia)) as Hd.
  pose proof (digits_ge_1 (Zpos mx)). pose proof (digits_ge_1 (Zpos my)).
  assert (Hn : 0 <= Z.max (digits (Zpos (mx * my)) - 53) (- 1074 - (ex + ey))).
  { rewrite Pos2Z.inj_mul. lia. }
  destruct (@bra_ord (xorb sx sy) (mx * my)%positive (ex + ey) Hn) as [Hnan Hord].
  split; [exact Hnan|]. rewrite Hord. rewrite Pos2Z.inj_mul.
  assert (Hpx : 0 < 2 ^ (ex + 1074)) by (apply Z.pow_pos_nonneg; lia).
  assert (Hpy : 0 < 2 ^ (ey + 1074)) by (apply Z.pow_pos_nonneg; lia).
  assert (Hsh : rnd (Z.pos mx * Z.pos my) (ex + ey)
                = rnd (Z.pos mx * 2 ^ (ex + 1074) * (Z.pos my * 2 ^ (ey + 1074)))
                      (- 2148)).
  { rewrite <- (@rnd_shift (Z.pos mx * Z.pos my) (ex + ey) (ex + ey + 2148))
      by lia.
    f_equal; [|lia].
    replace (ex + ey + 2148) with ((ex + 1074) + (ey + 1074)) by lia.
    rewrite Z.pow_add_r by lia. ring. }
  rewrite Hsh. cbn [ord].
  set (X := Z.pos mx * 2 ^ (ex + 1074)) in *.
  set (Y := Z.pos my * 2 ^ (ey + 1074)) in *.
  assert (HX : 0 < X) by (unfold X; nia).
  assert (HY : 0 < Y) by (unfold Y; nia).
  destruct sx, sy; cbn [xorb].
  - replace (- X * - Y) with (X * Y) by ring. rewrite rnds_pos by nia. reflexivity.
  - replace (- X * Y) with (- (X * Y)) by ring. rewrite rnds_opp, rnds_pos by nia.
    reflexivity.
  - replace (X * - Y) with (- (X * Y)) by ring. rewrite rnds_opp, rnds_pos by nia.
    reflexivity.
  - rewrite rnds_pos by nia. reflexivity.
Qed.

(** *** Normalisation, addition and subtraction *)

Lemma iter_xO (m : positive) (k : positive) :
  Zpos (Pos.iter xO m k) = Zpos m * 2 ^ Zpos k.
Proof.
  induction k as [|k IH] using Pos.peano_ind.
  - cbn [Pos.iter]. lia.
  - rewrite Pos.iter_succ, Pos2Z.inj_xO, IH, Pos2Z.inj_succ,
      Z.pow_succ_r by lia. ring.
Qed.

Lemma shl_align_spec (m : positive) (e e' : Z) :
  e' <= e ->
  Zpos (fst (shl_align m e e')) = Zpos m * 2 ^ (e - e') /\
  snd (shl_align m e e') = e'.
Proof.
  intro Hle. unfold shl_align.
  destruct (e' - e) as [|k|k] eqn:Hk; [| lia |]; cbn [fst snd].
  - assert (e = e') by lia. subst e'. rewrite Z.sub_diag. cbn. lia.
  - rewrite iter_xO. replace (e - e') with (Z.pos k) by lia. split; reflexivity.
Qed.

Lemma binary_round_ord (s : bool) (m : positive) (e : Z) :
  let r := binary_round prec emax s m e in
  is_nan r = false /\
  ord r = if s then - rnd (Zpos m) e else rnd (Zpos m) e.
Proof.
  intro r. subst r. unfold binary_round.
  rewrite digits_pos.
  set (t := fexp prec emax (digits (Z.pos m) + e)).
  assert (Ht : t = Z.max (digits (Z.pos m) + e - 53) (- 1074))
    by (unfold t, fexp, emin, prec, emax; lia).
  pose proof (digits_ge_1 (Z.pos m)) as Hd1.
  destruct (Z.le_gt_cases t e) as [Hle|Hgt].
  - destruct (shl_align_spec m Hle) as [Hfst Hsnd].
    destruct (shl_align m e t) as [mz ez]. cbn [fst snd] in Hfst, Hsnd.
    subst ez.
    assert (Hdz : digits (Z.pos mz) = digits (Z.pos m) + (e - t)).
    { rewrite Hfst. apply digits_scale; lia. }
    assert (Hn : 0 <= Z.max (digits (Z.pos mz) - 53) (- 1074 - t)) by lia.
    destruct (@bra_ord s mz t Hn) as [Hnan Hord].
    split; [exact Hnan|]. rewrite Hord, Hfst.
    assert (Hr : rnd (Z.pos m * 2 ^ (e - t)) t = rnd (Z.pos m) e).
    { rewrite <- (@rnd_shift (Z.pos m) e (e - t)) by lia. f_equal. lia. }
    rewrite Hr. reflexivity.
  - assert (Hsh : shl_align m e t = (m, e)).
    { unfold shl_align. destruct (t - e) as [|k|k] eqn:Hk; try reflexivity. lia. }
    rewrite Hsh.
    assert (Hn : 0 <= Z.max (digits (Z.pos m) - 53) (- 1074 - e)) by lia.
    exact (@bra_ord s m e Hn).
Qed.

Lemma binary_normalize_ord (z e : Z) (szero : bool) :
  let r := binary_normalize prec emax z e szero in
  is_nan r = false /\ ord r = rnds z e.
Proof.
  intro r. subst r. destruct z as [|m|m]; cbn [binary_normalize].
  - split; [reflexivity|]. rewrite rnds_0. reflexivity.
  - rewrite rnds_pos by lia. apply (binary_round_ord false).
  - rewrite rnds_neg by lia. apply (binary_round_ord true).
Qed.

Lemma aligned_ord (s : bool) (m : positive) (e ez : Z) :
  - 1074 <= ez <= e ->
  cond_Zopp s (Zpos (fst (shl_align m e ez))) * 2 ^ (ez + 1074)
  = ord (S754_finite s m e).
Proof.
  intro He. destruct (@shl_align_spec m e ez ltac:(lia)) as [Hf _].
  rewrite Hf. cbn [ord].
  replace (e + 1074) with ((e - ez) + (ez + 1074)) by lia.
  rewrite (Z.pow_add_r 2 (e - ez) (ez + 1074)) by lia.
  destruct s; cbn [cond_Zopp]; ring.
Qed.

Lemma SFadd_finite (sx sy : bool) (mx my : positive) (ex ey : Z) :
  bounded prec emax mx ex = true -> bounded prec emax my ey = true ->
  let r := SFadd prec emax (S754_finite sx mx ex) (S754_finite sy my ey) in
  is_nan r = false /\
  ord r = rnds (ord (S754_finite sx mx ex) + ord (S754_finite sy my ey))
               (- 1074).
Proof.
  intros Vx Vy r. subst r. cbn [SFadd].
  destruct (bounded_inv _ _ Vx) as (Hex & _ & _).
  destruct (bounded_inv _ _ Vy) as (Hey & _ & _).
  set (ez := Z.min ex ey).
  match goal with
  | |- context [binary_normalize prec emax ?z ez false] =>
      destruct (@binary_normalize_ord z ez false) as [Hnan Hord];
      split; [exact Hnan|]; rewrite Hord;
      rewrite <- (@rnds_shift z ez (ez + 1074))
        by (unfold ez; lia);
      f_equal; [|lia]
  end.
  rewrite Z.mul_add_distr_r.
  rewrite !aligned_ord by (unfold ez; lia). reflexivity.
Qed.

Lemma SFsub_finite (sx sy : bool) (mx my : positive) (ex ey : Z) :
  bounded prec emax mx ex = true -> bounded prec emax my ey = true ->
  let r := SFsub prec emax (S754_finite sx mx ex) (S754_finite sy my ey) in
  is_nan r = false /\
  ord r = rnds (ord (S754_finite sx mx ex) - ord (S754_finite sy my ey))
               (- 1074).
Proof.
  intros Vx Vy r. subst r. cbn [SFsub].
  destruct (bounded_inv _ _ Vx) as (Hex & _ & _).
  destruct (bounded_inv _ _ Vy) as (Hey & _ & _).
  set (ez := Z.min ex ey).
  match goal with
  | |- context [binary_normalize prec emax ?z ez false] =>
      destruct (@binary_normalize_ord z ez false) as [Hnan Hord];
      split; [exact Hnan|]; rewrite Hord;
      rewrite <- (@rnds_shift z ez (ez + 1074))
        by (unfold ez; lia);
      f_equal; [|lia]
  end.
  rewrite Z.mul_sub_distr_r.
  rewrite !aligned_ord by (unfold ez; lia). reflexivity.
Qed.

End B64Arith.

Module B64Prim.

Import B64 B64Facts B64Shr B64Round B64Aux B64Bra B64Rnd B64Ops B64Arith.
Local Open Scope Z_scope.

Lemma valid (x : float) : SpecFloat.valid_binary prec emax (Prim2SF x) = true.
Proof. apply Prim2SF_valid. Qed.

Lemma ord_bounds (x : spec_float) :
  SpecFloat.valid_binary prec emax x = true -> - TOP <= ord x <= TOP.
Proof.
  intro V. pose proof TOP_pos.
  destruct x as [s|s| |s m e]; cbn [ord]; try lia.
  - destruct s; lia.
  - pose proof (finite_ord_bounds _ _ V). destruct s; lia.
Qed.

Lemma val_bounds (x : float) : - TOP <= val x <= TOP.
Proof. apply ord_bounds, valid. Qed.

(** The comparisons of doubles that are not NaN are those of [val]. *)
Lemma compare_val (x y : float) :
  nan x = false -> nan y = false ->
  SFcompare (Prim2SF x) (Prim2SF y) = Some (val x ?= val y).
Proof. intros Nx Ny. apply ord_compare; auto using valid. Qed.

Lemma ltb_val (x y : float) :
  nan x = false -> nan y = false ->
  PrimFloat.ltb x y = (val x <? val y).
Proof.
  intros Nx Ny. rewrite ltb_spec. unfold SFltb. rewrite (compare_val x y Nx Ny).
  unfold Z.ltb. destruct (val x ?= val y); reflexivity.
Qed.

Lemma leb_val (x y : float) :
  nan x = false -> nan y = false ->
  PrimFloat.leb x y = (val x <=? val y).
Proof.
  intros Nx Ny. rewrite leb_spec. unfold SFleb. rewrite (compare_val x y Nx Ny).
  unfold Z.leb. destruct (val x ?= val y); reflexivity.
Qed.

Lemma eqb_val (x y : float) :
  nan x = false -> nan y = false ->
  PrimFloat.eqb x y = (val x =? val y).
Proof.
  intros Nx Ny. rewrite eqb_spec. unfold SFeqb. rewrite (compare_val x y Nx Ny).
  rewrite Z.eqb_compare. destruct (val x ?= val y); reflexivity.
Qed.

Lemma compare_nan (x y : spec_float) :
  is_nan x = true \/ is_nan y = true -> SFcompare x y = None.
Proof.
  intros [H|H]; destruct x, y; try discriminate; reflexivity.
Qed.

Lemma ltb_nan (x y : float) :
  nan x = true \/ nan y = true -> PrimFloat.ltb x y = false.
Proof.
  intro H. rewrite ltb_spec. unfold SFltb.
  rewrite (compare_nan _ _ H). reflexivity.
Qed.

Lemma leb_nan (x y : float) :
  nan x = true \/ nan y = true -> PrimFloat.leb x y = false.
Proof.
  intro H. rewrite leb_spec. unfold SFleb.
  rewrite (compare_nan _ _ H). reflexivity.
Qed.

(** A comparison that holds has no NaN on either side. *)
Lemma ltb_true (x y : float) :
  PrimFloat.ltb x y = true ->
  nan x = false /\ nan y = false /\ val x < val y.
Proof.
  intro H. destruct (nan x) eqn:Nx; [rewrite ltb_nan in H by auto; discriminate|].
  destruct (nan y) eqn:Ny; [rewrite ltb_nan in H by auto; discriminate|].
  rewrite (ltb_val x y Nx Ny) in H. apply Z.ltb_lt in H. auto.
Qed.

Lemma leb_true (x y : float) :
  PrimFloat.leb x y = true ->
  nan x = false /\ nan y = false /\ val x <= val y.
Proof.
  intro H. destruct (nan x) eqn:Nx; [rewrite leb_nan in H by auto; discriminate|].
  destruct (nan y) eqn:Ny; [rewrite leb_nan in H by auto; discriminate|].
  rewrite (leb_val x y Nx Ny) in H. apply Z.leb_le in H. auto.
Qed.

Lemma ltb_false (x y : float) :
  PrimFloat.ltb x y = false ->
  nan x = true \/ nan y = true \/ val y <= val x.
Proof.
  intro H. destruct (nan x) eqn:Nx; [auto|].
  destruct (nan y) eqn:Ny; [auto|].
  rewrite (ltb_val x y Nx Ny) in H. apply Z.ltb_ge in H. auto.
Qed.

(** *** The shapes of a double *)

Lemma finite_inv (x : float) :
  finite x = true ->
  (exists s, Prim2SF x = S754_zero s) \/
  (exists s m e, Prim2SF x = S754_finite s m e /\
                 bounded prec emax m e = true).
Proof.
  unfold finite, nan, val. pose proof (valid x) as V. pose proof TOP_pos.
  destruct (Prim2SF x) as [s|s| |s m e]; cbn [is_nan ord negb andb];
    intro Hf.
  - left. eauto.
  - exfalso. apply Z.ltb_lt in Hf. destruct s; lia.
  - discriminate.
  - right. exists s, m, e. split; [reflexivity | exact V].
Qed.

Lemma not_finite_inv (x : float) :
  nan x = false -> finite x = false ->
  exists s, Prim2SF x = S754_infinity s.
Proof.
  unfold finite, nan, val. pose proof (valid x) as V. pose proof TOP_pos.
  destruct (Prim2SF x) as [s|s| |s m e]; cbn [is_nan ord negb andb];
    intros Hn Hf; try discriminate.
  - eauto.
  - exfalso. apply Z.ltb_ge in Hf.
    pose proof (finite_ord_bounds _ _ V). destruct s; lia.
Qed.

(** *** Arithmetic on finite doubles *)

Lemma mul_val (x y : float) :
  finite x = true -> finite y = true ->
  nan (x * y)%float = false /\
  val (x * y)%float = rnds (val x * val y) (- 2148).
Proof.
  intros Fx Fy. unfold nan, val. rewrite mul_spec.
  destruct (finite_inv x Fx) as [[sx Hx]|(sx & mx & ex & Hx & Vx)];
    destruct (finite_inv y Fy) as [[sy Hy]|(sy & my & ey & Hy & Vy)];
    rewrite Hx, Hy.
  - cbn [ord]. rewrite Z.mul_0_l, rnds_0. split; reflexivity.
  - cbn [ord]. rewrite Z.mul_0_l, rnds_0. split; reflexivity.
  - cbn [ord]. rewrite Z.mul_0_r, rnds_0. split; reflexivity.
  - apply SFmul_finite; assumption.
Qed.

Lemma rnds_fixed (x : spec_float) :
  SpecFloat.valid_binary prec emax x = true ->
  is_nan x = false -> Z.abs (ord x) < TOP ->
  rnds (ord x) (- 1074) = ord x.
Proof.
  intros V N Hlt. destruct x as [s|s| |s m e]; try discriminate.
  - apply rnds_0.
  - pose proof TOP_pos. cbn [ord] in Hlt. destruct s; lia.
  - cbn [SpecFloat.valid_binary] in V.
    destruct (bounded_inv _ _ V) as (He & _ & _).
    destruct (bounded_mantissa _ _ V) as [Hm _].
    pose proof (finite_ord_bounds _ _ V) as Hb.
    assert (Hr : rnds (Z.pos m * 2 ^ (e + 1074)) (- 1074)
                 = Z.pos m * 2 ^ (e + 1074)).
    { replace (- 1074) with (e - (e + 1074)) by lia.
      rewrite rnds_shift by lia. apply rnds_exact; lia. }
    cbn [ord]. destruct s; [|exact Hr].
    rewrite rnds_opp, Hr. reflexivity.
Qed.

Lemma add_val (x y : float) :
  finite x = true -> finite y = true ->
  nan (x + y)%float = false /\
  val (x + y)%float = rnds (val x + val y) (- 1074).
Proof.
  intros Fx Fy. unfold nan, val. rewrite add_spec.
  pose proof (valid x) as Vx'. pose proof (valid y) as Vy'.
  assert (Hfx : rnds (val x) (- 1074) = val x).
  { unfold finite in Fx. apply andb_true_iff in Fx. destruct Fx as [Nx Bx].
    apply negb_true_iff in Nx. apply Z.ltb_lt in Bx.
    apply rnds_fixed; assumption. }
  assert (Hfy : rnds (val y) (- 1074) = val y).
  { unfold finite in Fy. apply andb_true_iff in Fy. destruct Fy as [Ny By].
    apply negb_true_iff in Ny. apply Z.ltb_lt in By.
    apply rnds_fixed; assumption. }
  unfold val in Hfx, Hfy.
  destruct (finite_inv x Fx) as [[sx Hx]|(sx & mx & ex & Hx & Vx)];
    destruct (finite_inv y Fy) as [[sy Hy]|(sy & my & ey & Hy & Vy)];
    rewrite Hx, Hy in *.
  - cbn [ord]. rewrite rnds_0. destruct sx, sy; split; reflexivity.
  - cbn [SF64add SFadd]. rewrite Z.add_0_l, Hfy. split; reflexivity.
  - cbn [SF64add SFadd]. change (ord (S754_zero sy)) with 0.
    rewrite Z.add_0_r, Hfx. split; reflexivity.
  - apply SFadd_finite; assumption.
Qed.

Lemma sub_val (x y : float) :
  finite x = true -> finite y = true ->
  nan (x - y)%float = false /\
  val (x - y)%float = rnds (val x - val y) (- 1074).
Proof.
  intros Fx Fy. unfold nan, val. rewrite sub_spec.
  pose proof (valid x) as Vx'. pose proof (valid y) as Vy'.
  assert (Hfx : rnds (val x) (- 1074) = val x).
  { unfold finite in Fx. apply andb_true_iff in Fx. destruct Fx as [Nx Bx].
    apply negb_true_iff in Nx. apply Z.ltb_lt in Bx.
    apply rnds_fixed; assumption. }
  assert (Hfy : rnds (val y) (- 1074) = val y).
  { unfold finite in Fy. apply andb_true_iff in Fy. destruct Fy as [Ny By].
    apply negb_true_iff in Ny. apply Z.ltb_lt in By.
    apply rnds_fixed; assumption. }
  unfold val in Hfx, Hfy.
  destruct (finite_inv x Fx) as [[sx Hx]|(sx & mx & ex & Hx & Vx)];
    destruct (finite_inv y Fy) as [[sy Hy]|(sy & my & ey & Hy & Vy)];
    rewrite Hx, Hy in *.
  - cbn [ord]. rewrite rnds_0. destruct sx, sy; split; reflexivity.
  - cbn [SF64sub SFsub]. change (ord (S754_zero sx)) with 0.
    rewrite Z.sub_0_l, rnds_opp, Hfy. split; [reflexivity|].
    cbn [ord]. destruct sy; cbn [negb]; lia.
  - cbn [SF64sub SFsub]. change (ord (S754_zero sy)) with 0.
    rewrite Z.sub_0_r, Hfx. split; reflexivity.
  - apply SFsub_finite; assumption.
Qed.

End B64Prim.

(** ** Double precision: operations with a constant *)

Module B64Const.

Import B64 B64Facts B64Shr B64Round B64Aux B64Bra B64Rnd B64Ops B64Arith B64Prim.
Local Open Scope Z_scope.

Lemma finite_of_SF (k : float) (s : bool) (m : positive) (e : Z) :
  Prim2SF k = S754_finite s m e ->
  finite k = true /\ nan k = false /\
  val k = (if s then - (Zpos m * 2 ^ (e + 1074)) else Zpos m * 2 ^ (e + 1074)) /\
  bounded prec emax m e = true.
Proof.
  intro Hk. pose proof (valid k) as V. unfold finite, nan, val.
  rewrite Hk in *. cbn [SpecFloat.valid_binary] in V.
  pose proof (finite_ord_bounds _ _ V) as Hb. cbn [is_nan ord negb andb].
  repeat split; try assumption.
  apply Z.ltb_lt. destruct s; lia.
Qed.

Lemma finite_nan (x : float) : finite x = true -> nan x = false.
Proof.
  unfold finite. intro H. apply andb_true_iff in H. destruct H as [H _].
  apply negb_true_iff in H. exact H.
Qed.

Lemma finite_val (x : float) : finite x = true -> - TOP < val x < TOP.
Proof.
  unfold finite. intro H. apply andb_true_iff in H. destruct H as [_ H].
  apply Z.ltb_lt in H. lia.
Qed.

Lemma infinite_val (x : float) :
  nan x = false -> finite x = false -> val x = TOP \/ val x = - TOP.
Proof.
  intros N Fx. destruct (not_finite_inv x N Fx) as [s Hs].
  unfold val. rewrite Hs. cbn [ord]. destruct s; auto.
Qed.

Lemma val_fixed (x : float) : finite x = true -> rnds (val x) (- 1074) = val x.
Proof.
  intro Fx. apply rnds_fixed; [apply valid | apply finite_nan; exact Fx|].
  pose proof (finite_val x Fx). unfold val in *. lia.
Qed.

(** The product with a positive finite constant, also of an infinity. *)
Lemma mul_const (k : float) (m : positive) (e : Z) (x : float) :
  Prim2SF k = S754_finite false m e ->
  nan x = false ->
  nan (x * k)%float = false /\
  val (x * k)%float
  = if finite x then rnds (val x * val k) (- 2148) else val x.
Proof.
  intros Hk Nx. destruct (finite_of_SF k Hk) as (Fk & Nk & Vk & Bk).
  destruct (finite x) eqn:Fx.
  - apply mul_val; assumption.
  - destruct (not_finite_inv x Nx Fx) as [s Hs].
    unfold nan, val. rewrite mul_spec, Hs, Hk. cbn [SF64mul SFmul is_nan ord].
    rewrite xorb_false_r. split; reflexivity.
Qed.

(** The sum of a finite constant and a double, also an infinity. *)
Lemma add_const (k x : float) :
  finite k = true -> nan x = false ->
  nan (k + x)%float = false /\
  val (k + x)%float
  = if finite x then rnds (val k + val x) (- 1074) else val x.
Proof.
  intros Fk Nx. destruct (finite x) eqn:Fx.
  - apply add_val; assumption.
  - destruct (not_finite_inv x Nx Fx) as [s Hs].
    unfold nan, val. rewrite add_spec, Hs.
    destruct (finite_inv k Fk) as [[sk Hk]|(sk & mk & ek & Hk & _)];
      rewrite Hk; split; reflexivity.
Qed.

(** A double, also an infinity, minus a finite constant. *)
Lemma sub_const (k x : float) :
  finite k = true -> nan x = false ->
  nan (x - k)%float = false /\
  val (x - k)%float
  = if finite x then rnds (val x - val k) (- 1074) else val x.
Proof.
  intros Fk Nx. destruct (finite x) eqn:Fx.
  - apply sub_val; assumption.
  - destruct (not_finite_inv x Nx Fx) as [s Hs].
    unfold nan, val. rewrite sub_spec, Hs.
    destruct (finite_inv k Fk) as [[sk Hk]|(sk & mk & ek & Hk & _)];
      rewrite Hk; split; reflexivity.
Qed.

(** An operation that rounds a non-decreasing function of the value of a
    finite double, and keeps an infinity, is non-decreasing. *)
Lemma extended_mono (g : Z -> Z) (x1 x2 : float) :
  (forall z z', z <= z' -> g z <= g z') ->
  (forall z, - TOP <= g z <= TOP) ->
  nan x1 = false -> nan x2 = false -> val x1 <= val x2 ->
  (if finite x1 then g (val x1) else val x1)
  <= (if finite x2 then g (val x2) else val x2).
Proof.
  intros Hg Hb N1 N2 Hle. pose proof TOP_pos.
  destruct (finite x1) eqn:F1, (finite x2) eqn:F2.
  - apply Hg. exact Hle.
  - pose proof (finite_val x1 F1). pose proof (Hb (val x1)).
    destruct (infinite_val x2 N2 F2) as [E|E]; lia.
  - pose proof (finite_val x2 F2). pose proof (Hb (val x2)).
    destruct (infinite_val x1 N1 F1) as [E|E]; lia.
  - exact Hle.
Qed.

Lemma mul_const_mono (k : float) (m : positive) (e : Z) (x1 x2 : float) :
  Prim2SF k = S754_finite false m e ->
  nan x1 = false -> nan x2 = false -> val x1 <= val x2 ->
  val (x1 * k)%float <= val (x2 * k)%float.
Proof.
  intros Hk N1 N2 Hle.
  destruct (mul_const k x1 Hk N1) as [_ ->].
  destruct (mul_const k x2 Hk N2) as [_ ->].
  destruct (finite_of_SF k Hk) as (_ & _ & Vk & Bk).
  pose proof (finite_ord_bounds _ _ Bk) as Hpos.
  apply (@extended_mono (fun z => rnds (z * val k) (- 2148))); try assumption.
  - intros z z' Hz. apply rnds_mono. rewrite Vk. nia.
  - intro z. apply rnds_bounds.
Qed.

Lemma add_const_mono (k x1 x2 : float) :
  finite k = true ->
  nan x1 = false -> nan x2 = false -> val x1 <= val x2 ->
  val (k + x1)%float <= val (k + x2)%float.
Proof.
  intros Fk N1 N2 Hle.
  destruct (add_const k x1 Fk N1) as [_ ->].
  destruct (add_const k x2 Fk N2) as [_ ->].
  apply (@extended_mono (fun z => rnds (val k + z) (- 1074))); try assumption.
  - intros z z' Hz. apply rnds_mono. lia.
  - intro z. apply rnds_bounds.
Qed.

Lemma sub_const_mono (k x1 x2 : float) :
  finite k = true ->
  nan x1 = false -> nan x2 = false -> val x1 <= val x2 ->
  val (x1 - k)%float <= val (x2 - k)%float.
Proof.
  intros Fk N1 N2 Hle.
  destruct (sub_const k x1 Fk N1) as [_ ->].
  destruct (sub_const k x2 Fk N2) as [_ ->].
  apply (@extended_mono (fun z => rnds (z - val k) (- 1074))); try assumption.
  - intros z z' Hz. apply rnds_mono. lia.
  - intro z. apply rnds_bounds.
Qed.

End B64Const.

(** ** Double precision: sums and products of non-negative doubles *)

Module B64Nonneg.

Import B64 B64Facts B64Shr B64Round B64Aux B64Bra B64Rnd B64Ops B64Arith B64Prim
       B64Const.
Local Open Scope Z_scope.

Lemma positive_SF (k : float) :
  finite k = true -> 0 < val k ->
  exists m e, Prim2SF k = S754_finite false m e.
Proof.
  intros Fk Hpos.
  destruct (finite_inv k Fk) as [[s Hk]|(s & m & e & Hk & B)];
    unfold val in Hpos; rewrite Hk in Hpos; cbn [ord] in Hpos; [lia|].
  pose proof (finite_ord_bounds _ _ B).
  destruct s; [lia|]. eauto.
Qed.

Lemma plus_inf_SF (x : float) :
  nan x = false -> finite x = false -> 0 <= val x ->
  Prim2SF x = S754_infinity false.
Proof.
  intros Nx Fx Hx. destruct (not_finite_inv x Nx Fx) as [s Hs].
  unfold val in Hx. rewrite Hs in *. cbn [ord] in Hx. pose proof TOP_pos.
  destruct s; [lia | reflexivity].
Qed.

Lemma plus_inf_val (x : float) :
  nan x = false -> finite x = false -> 0 <= val x -> val x = TOP.
Proof.
  intros Nx Fx Hx. unfold val. rewrite (plus_inf_SF x Nx Fx Hx). reflexivity.
Qed.

(** The product of a non-negative double and a positive finite price. *)
Lemma mul_price (p x : float) :
  finite p = true -> 0 < val p -> nan x = false -> 0 <= val x ->
  nan (x * p)%float = false /\ 0 <= val (x * p)%float.
Proof.
  intros Fp Hp Nx Hx. destruct (positive_SF p Fp Hp) as (m & e & Hk).
  destruct (mul_const p x Hk Nx) as [Hn Hv]. split; [exact Hn|].
  rewrite Hv. destruct (finite x); [|exact Hx].
  rewrite <- (rnds_0 (- 2148)). apply rnds_mono. nia.
Qed.

Lemma mul_price_mono (p x1 x2 : float) :
  finite p = true -> 0 < val p ->
  nan x1 = false -> nan x2 = false -> val x1 <= val x2 ->
  val (x1 * p)%float <= val (x2 * p)%float.
Proof.
  intros Fp Hp N1 N2 Hle. destruct (positive_SF p Fp Hp) as (m & e & Hk).
  exact (mul_const_mono p x1 x2 Hk N1 N2 Hle).
Qed.

(** The sum of two non-negative doubles. *)
Lemma add_nonneg (a b : float) :
  nan a = false -> nan b = false -> 0 <= val a -> 0 <= val b ->
  nan (a + b)%float = false /\
  val (a + b)%float
  = if (finite a && finite b)%bool then rnds (val a + val b) (- 1074)
    else TOP.
Proof.
  intros Na Nb Ha Hb.
  destruct (finite a) eqn:Fa; cbn [andb].
  - destruct (add_const a b Fa Nb) as [Hn Hv]. split; [exact Hn|].
    rewrite Hv. destruct (finite b) eqn:Fb; [reflexivity|].
    apply plus_inf_val; assumption.
  - pose proof (plus_inf_SF a Na Fa Ha) as Ea.
    unfold nan, val. rewrite add_spec, Ea.
    destruct (finite b) eqn:Fb.
    + destruct (finite_inv b Fb) as [[s Hk]|(s & m & e & Hk & _)];
        rewrite Hk; split; reflexivity.
    + rewrite (plus_inf_SF b Nb Fb Hb). split; reflexivity.
Qed.

Lemma add_nonneg_ge (a b : float) :
  nan a = false -> nan b = false -> 0 <= val a -> 0 <= val b ->
  val a <= val (a + b)%float.
Proof.
  intros Na Nb Ha Hb. destruct (add_nonneg a b Na Nb Ha Hb) as [_ ->].
  destruct (finite a) eqn:Fa; cbn [andb]; [|apply val_bounds].
  destruct (finite b); [|apply val_bounds].
  rewrite <- (val_fixed a Fa) at 1. apply rnds_mono. lia.
Qed.

Lemma add_nonneg_mono (a b1 b2 : float) :
  nan a = false -> nan b1 = false -> nan b2 = false ->
  0 <= val a -> 0 <= val b1 -> val b1 <= val b2 ->
  val (a + b1)%float <= val (a + b2)%float.
Proof.
  intros Na N1 N2 Ha H1 Hle.
  destruct (add_nonneg a b1 Na N1 Ha H1) as [_ ->].
  destruct (add_nonneg a b2 Na N2 Ha ltac:(lia)) as [_ ->].
  destruct (finite a) eqn:Fa; cbn [andb]; [|lia].
  destruct (finite b2) eqn:F2.
  - assert (F1 : finite b1 = true).
    { unfold finite. rewrite N1. cbn [negb andb]. apply Z.ltb_lt.
      pose proof (finite_val b2 F2). lia. }
    rewrite F1. apply rnds_mono. lia.
  - destruct (finite b1); [apply rnds_bounds | lia].
Qed.

End B64Nonneg.
(** *** Doubling *)

Module B64Scale.

Import B64 B64Round B64Bra B64Rnd B64Arith B64Prim B64Const B64Nonneg.
Local Open Scope Z_scope.

(** Doubling a number whose rounding keeps at least the 53 leading digits
    doubles its rounding, up to overflow. *)
Lemma rnd_double (M E : Z) :
  0 < M -> 0 <= digits M - 53 -> - 1074 - E <= digits M - 53 ->
  rnd (2 * M) E
  = Z.min TOP (2 * (rne M (shift M E) * 2 ^ (shift M E + E + 1074))).
Proof.
  intros HM Hd HE.
  assert (Hdig : digits (2 * M) = digits M + 1).
  { replace (2 * M) with (M * 2 ^ 1) by (change (2 ^ 1) with 2; ring).
    apply digits_scale; lia. }
  assert (Hs : shift M E = digits M - 53) by (unfold shift; lia).
  assert (Hs' : shift (2 * M) E = shift M E + 1)
    by (unfold shift; rewrite Hdig; lia).
  unfold rnd at 1. rewrite Hs'.
  replace (2 * M) with (M * 2 ^ 1) by (change (2 ^ 1) with 2; ring).
  rewrite rne_scale by lia.
  replace (shift M E + 1 + E + 1074) with (shift M E + E + 1074 + 1) by ring.
  rewrite Z.pow_add_r by lia. change (2 ^ 1) with 2.
  f_equal. ring.
Qed.

(** On a double, rounding at the next exponent doubles. *)
Lemma rnd_next (v : Z) :
  0 <= v < TOP -> rnd v (- 1074) = v -> rnd v (- 1073) = Z.min TOP (2 * v).
Proof.
  intros Hv Hfix.
  assert (Hs : shift v (- 1073) = shift v (- 1074)) by (unfold shift; lia).
  pose proof (shift_nonneg v (- 1074)) as Hs0.
  unfold rnd in Hfix |- *. rewrite Hs.
  replace (shift v (- 1074) + - 1073 + 1074) with (shift v (- 1074) + 1) by ring.
  replace (shift v (- 1074) + - 1074 + 1074) with (shift v (- 1074)) in Hfix
    by ring.
  rewrite Z.pow_add_r by lia. change (2 ^ 1) with 2.
  set (Y := rne v (shift v (- 1074)) * 2 ^ shift v (- 1074)) in *.
  replace (rne v (shift v (- 1074)) * (2 ^ shift v (- 1074) * 2)) with (2 * Y)
    by (unfold Y; ring).
  assert (HY : Y = v) by lia. rewrite HY. reflexivity.
Qed.

Lemma two_SF :
  Prim2SF (of_int (F:=float) 2) = S754_finite false 4503599627370496 (- 51).
Proof. vm_compute. reflexivity. Qed.

Lemma two_val :
  finite (of_int (F:=float) 2) = true /\ val (of_int (F:=float) 2) = 2 ^ 1075.
Proof.
  destruct (finite_of_SF _ two_SF) as (Hf & _ & Hv & _).
  split; [exact Hf|]. rewrite Hv.
  change 4503599627370496 with (2 ^ 52). rewrite <- Z.pow_add_r by lia.
  reflexivity.
Qed.

(** [2 * x] for a double that is not negative. *)
Lemma double_val (x : float) :
  finite x = true -> 0 <= val x ->
  nan (of_int 2 * x)%float = false /\
  val (of_int 2 * x)%float = Z.min TOP (2 * val x).
Proof.
  intros Hf H0.
  destruct two_val as [Hf2 Hv2].
  destruct (mul_val _ _ Hf2 Hf) as [Hn Hv].
  split; [exact Hn|]. rewrite Hv, Hv2.
  pose proof (finite_val _ Hf) as Hb.
  pose proof (val_fixed _ Hf) as Hfix.
  rewrite rnds_pos in Hfix by lia.
  rewrite rnds_pos by (apply Z.mul_nonneg_nonneg; lia).
  destruct (Z.eq_dec (val x) 0) as [Hz | Hnz].
  - rewrite Hz, Z.mul_0_r, rnd_0. pose proof TOP_pos. lia.
  - replace (2 ^ 1075 * val x) with (val x * 2 ^ 1075) by ring.
    change (- 2148) with (- 1073 - 1075).
    rewrite rnd_shift by lia.
    apply rnd_next; [lia | exact Hfix].
Qed.

End B64Scale.
(** *** Integers and gigabytes *)

Module B64Int.

Import B64 B64Round B64Bra B64Rnd B64Ops B64Arith B64Prim B64Const B64Nonneg.
Local Open Scope Z_scope.

(** The double nearest to an integer of 63 bits is the one the processor
    converts it to. *)
Lemma of_Z_SF (z : Z) :
  0 <= z < 2 ^ 63 ->
  Prim2SF (Binary64.of_Z z) = binary_normalize prec emax z 0 false.
Proof.
  intro Hz. unfold Binary64.of_Z.
  assert (E : Uint63.to_Z (Uint63.of_Z z) = z).
  { rewrite Uint63.of_Z_spec. apply Z.mod_small.
    change Uint63.wB with (2 ^ 63). exact Hz. }
  rewrite <- E at 1. rewrite <- of_uint63_spec, SF2Prim_Prim2SF.
  rewrite of_uint63_spec, E. reflexivity.
Qed.


End B64Int.

(** *** Gigabytes: division by [1024 ** 3] *)

Module B64Gb.

Import B64 B64Round B64Bra B64Rnd B64Ops B64Arith B64Prim B64Const B64Nonneg
       B64Int.
Local Open Scope Z_scope.

Lemma gb_SF :
  Prim2SF (Binary64.of_Z (Zpos (2 ^ 30)))
  = S754_finite false 4503599627370496 (- 22).
Proof. vm_compute. reflexivity. Qed.

Lemma digits_xO (m : positive) : digits (Zpos m~0) = digits (Zpos m) + 1.
Proof.
  rewrite Pos2Z.inj_xO.
  replace (2 * Zpos m) with (Zpos m * 2 ^ 1) by (change (2 ^ 1) with 2; ring).
  apply digits_scale; lia.
Qed.

Lemma div_eucl_exact (a b : Z) : 0 < b -> Z.div_eucl (a * b) b = (a, 0).
Proof.
  intro Hb.
  rewrite (surjective_pairing (Z.div_eucl (a * b) b)).
  change (fst (Z.div_eucl (a * b) b)) with (a * b / b).
  change (snd (Z.div_eucl (a * b) b)) with ((a * b) mod b).
  rewrite Z.div_mul, Z.mod_mul by lia. reflexivity.
Qed.

(** The quotient of a normal double by [2 ^ 30], before rounding. *)
Lemma div_core_gb (m : positive) (e : Z) :
  digits (Zpos m) = 53 -> - 1043 <= e ->
  SFdiv_core_binary prec emax (Zpos m) e 4503599627370496 (- 22)
  = (Zpos m~0, e - 31, loc_Exact).
Proof.
  intros Hd He. unfold SFdiv_core_binary. cbn [Zdigits2].
  rewrite digits_pos, Hd.
  change (Z.pos (digits2_pos 4503599627370496)) with 53.
  assert (He' : Z.min (fexp prec emax (53 + e - (53 + - 22))) (e - - 22) = e - 31).
  { unfold fexp, emin, emax, prec. lia. }
  rewrite He'.
  replace (e - - 22 - (e - 31)) with 53 by ring.
  cbv beta iota zeta.
  rewrite Z.shiftl_mul_pow2 by lia.
  replace (Zpos m * 2 ^ 53) with (Zpos m~0 * 4503599627370496)
    by (rewrite Pos2Z.inj_xO; change (2 ^ 53) with (2 * 4503599627370496); ring).
  rewrite div_eucl_exact by lia. reflexivity.
Qed.

Lemma div_gb (x : float) (m : positive) (e : Z) :
  Prim2SF x = S754_finite false m e ->
  digits (Zpos m) = 53 -> - 1043 <= e ->
  nan (x / Binary64.of_Z (Zpos (2 ^ 30)))%float = false /\
  val (x / Binary64.of_Z (Zpos (2 ^ 30)))%float * 2 ^ 30 = val x.
Proof.
  intros Hx Hd He.
  destruct (finite_of_SF _ Hx) as (_ & _ & Hv & Hb).
  pose proof (finite_ord_bounds _ _ Hb) as Hfin.
  pose proof (bounded_mantissa _ _ Hb) as [Hm _].
  unfold nan, val at 1. rewrite div_spec, Hx, gb_SF.
  unfold SF64div, SFdiv. rewrite (div_core_gb _ Hd He). cbn [xorb].
  destruct (@bra_ord false m~0 (e - 31)) as [Hn Ho].
  { rewrite digits_xO, Hd. lia. }
  cbv zeta in Hn, Ho. rewrite Hn, Ho. split; [reflexivity|].
  rewrite Hv, Pos2Z.inj_xO.
  replace (2 * Zpos m) with (Zpos m * 2 ^ 1) by (change (2 ^ 1) with 2; ring).
  replace (e - 31) with (e - 30 - 1) by ring.
  rewrite rnd_shift by lia.
  assert (Hp : 2 ^ (e + 1074) = 2 ^ (e - 30 + 1074) * 2 ^ 30).
  { rewrite <- Z.pow_add_r by lia. f_equal. ring. }
  rewrite rnd_exact; [rewrite Hp; ring | lia | lia |].
  rewrite Hp in Hfin.
  assert (0 < 2 ^ (e - 30 + 1074)) by (apply Z.pow_pos_nonneg; lia).
  nia.
Qed.



End B64Gb.

(** ** Exact arithmetic: the comparisons *)

Lemma Qltb_true (a b : Q) : Exact.Qltb a b = true <-> a < b.
Proof.
  unfold Exact.Qltb. rewrite negb_true_iff.
  split; intro Hlt.
  - apply Qnot_le_lt. intro Hle. apply Qle_bool_iff in Hle. congruence.
  - destruct (Qle_bool b a) eqn:E; [|reflexivity].
    apply Qle_bool_iff in E. exfalso. exact (Qlt_not_le _ _ Hlt E).
Qed.

Lemma Qltb_false (a b : Q) : Exact.Qltb a b = false <-> b <= a.
Proof.
  unfold Exact.Qltb. rewrite negb_false_iff. apply Qle_bool_iff.
Qed.

Lemma Qleb_false (a b : Q) : Qle_bool a b = false <-> b < a.
Proof.
  rewrite <- Qltb_true. unfold Exact.Qltb. now rewrite negb_true_iff.
Qed.

(** Case analysis on a comparison of rationals, with its meaning. *)
Ltac case_Q :=
  match goal with
  | |- context [Exact.Qltb ?a ?b] =>
      let E := fresh "E" in
      destruct (Exact.Qltb a b) eqn:E;
      [apply Qltb_true in E | apply Qltb_false in E]
  | |- context [Qle_bool ?a ?b] =>
      let E := fresh "E" in
      destruct (Qle_bool a b) eqn:E;
      [apply Qle_bool_iff in E | apply Qleb_false in E]
  | |- context [Qeq_bool ?a ?b] =>
      let E := fresh "E" in
      destruct (Qeq_bool a b) eqn:E;
      [apply Qeq_bool_iff in E | apply Qeq_bool_neq in E]
  end.

(** The operations of [exact] on finite numbers, one step at a time. *)
Ltac exact_ops :=
  cbv [fadd fsub fmul fltb fleb feqb of_int ratio inf exact_number
       Exact.add Exact.sub Exact.mul Exact.opp Exact.ltb Exact.leb Exact.eqb
       pymin].

(** ** The tiered pricing model *)

Section GraduatedRefinement.

Context {F : Type} `{Number F}.

Lemma fold_bill_stopped (tiers : list tier) (st : billing F) :
  stopped st = true -> fold_left bill tiers st = st.
Proof.
  intro Hs. induction tiers as [|tr tiers IH]; simpl; [reflexivity|].
  unfold bill at 2. rewrite Hs. exact IH.
Qed.

Lemma bill_running (r p c boundary rate : F) :
  bill (Billing r p c false) (boundary, rate)
  = Billing (r - pymin r (boundary - p))%num boundary
            (c + pymin r (boundary - p) * rate)%num
            ((r - pymin r (boundary - p)) <=? of_int 0)%num.
Proof. reflexivity. Qed.

Lemma tier_loop_graduated (tiers : list tier) :
  forall remaining_gb total_cost previous_limit,
    tier_loop tiers remaining_gb total_cost previous_limit
    = cost (fold_left bill tiers
              (Billing remaining_gb previous_limit total_cost false)).
Proof.
  induction tiers as [|[tier_limit price_per_gb] tiers IH]; intros;
    [reflexivity|].
  cbn [tier_loop fold_left]. rewrite bill_running.
  destruct (fleb _ _) eqn:Hstop.
  - rewrite fold_bill_stopped; reflexivity.
  - apply IH.
Qed.

End GraduatedRefinement.

(** *** The STANDARD tiers in exact arithmetic: the cost in closed form *)

Ltac solve_standard :=
  cbv [tiered_cost STANDARD tier_loop has_value]; exact_ops;
  repeat (case_Q; exact_ops); cbv [inject_Z] in *;
  change (50 * 1024)%Z with 51200%Z in *;
  change (500 * 1024)%Z with 512000%Z in *;
  try lra.

Lemma standard_cost_first (c : Q) :
  c <= 51200 ->
  has_value (tiered_cost STANDARD (Fin c)) (c * (23 # 1000)).
Proof. intro Hc. solve_standard. Qed.

Lemma standard_cost_second (c : Q) :
  51200 <= c -> c <= 512000 ->
  has_value (tiered_cost STANDARD (Fin c))
            (51200 * (23 # 1000) + (c - 51200) * (22 # 1000)).
Proof. intros Hl Hu. solve_standard. Qed.

Lemma standard_cost_third (c : Q) :
  512000 <= c ->
  has_value (tiered_cost STANDARD (Fin c))
            (51200 * (23 # 1000) + 460800 * (22 # 1000)
             + (c - 512000) * (21 # 1000)).
Proof. intro Hc. solve_standard. Qed.

(** *** The numbers of the sources, in double precision *)

(** [ratio] and [of_int] at [binary64] are the doubles CPython reads for the
    literals [0.023], [0.022], [0.021], [0.05], [0.5] and for the integers
    [50 * 1024] and [500 * 1024]. *)
Lemma binary64_literals :
  ratio 23 1000 = 0x1.78d4fdf3b645ap-6%float /\
  ratio 22 1000 = 0x1.6872b020c49bap-6%float /\
  ratio 21 1000 = 0x1.5810624dd2f1bp-6%float /\
  ratio 5 100 = 0x1.999999999999ap-5%float /\
  ratio 5 10 = 0x1p-1%float /\
  of_int (50 * 1024) = 0x1.9p+15%float /\
  of_int (500 * 1024) = 0x1.f4p+18%float /\
  of_int 0 = 0%float.
Proof. repeat split; vm_compute; reflexivity. Qed.

(** [_calculate_cost] of [cost.S3], for a storage type of the table: it
    stores the tiered cost of [total_gb] and prints it, and does nothing
    else. *)
Lemma s3_calculate_cost_run {F} `{Number F} (o : CostS3.t F) (tiers : list tier) :
  dict_get _pricing (CostS3.storage_type o) = Some tiers ->
  CostS3._calculate_cost o
  = Run (inr tt)
        (CostS3.set_total_cost (tiered_cost tiers (CostS3.total_gb o)) o)
        [Print [Text "Total cost for storage type ";
                Val (FStr (CostS3.storage_type o)); Text ": $";
                Val (FFixed6 (tiered_cost tiers (CostS3.total_gb o)))]].
Proof.
  intro Hget.
  cbv [CostS3._calculate_cost bind get outcome state_after events].
  rewrite Hget. reflexivity.
Qed.

(** C1.  The tiered pricing model is the graduated algorithm of the
    specification: for every tier list and every capacity, over any numbers,
    the cost [_calculate_cost] computes is the cost of billing each tier in
    order on [min(remaining, boundary - previousBoundary)] and stopping once
    [remaining <= 0]; the table holds, under ["STANDARD"], the tiers
    [(50*1024, 0.023), (500*1024, 0.022), (inf, 0.021)], and the method stores
    that cost for them.  In double precision and in exact arithmetic alike,
    the cost of [50*1024] GB is [50*1024*0.023], of [100*1024] GB it is
    [50*1024*0.023 + 50*1024*0.022], and of [600*1024] GB it is
    [50*1024*0.023 + 450*1024*0.022 + 100*1024*0.021]. *)
Theorem tiered_cost_is_graduated :
  (forall (F : Type) (N : Number F) (tiers : list tier) (capacityGB : F),
      tiered_cost tiers capacityGB = graduated_cost tiers capacityGB) /\
  (forall (F : Type) (N : Number F),
      dict_get (@_pricing F N) "STANDARD"
      = Some [ (of_int (50 * 1024), ratio 23 1000);
               (of_int (500 * 1024), ratio 22 1000);
               (inf, ratio 21 1000) ]) /\
  (forall (F : Type) (N : Number F) region folder files threshold
          github_summary github_output (total_gb total_cost : F) color_code
          all_files,
      CostS3.total_cost
        (state_after
           (CostS3._calculate_cost
              (CostS3.Make region "STANDARD" folder files threshold
                           github_summary github_output total_gb total_cost
                           color_code all_files)))
      = graduated_cost STANDARD total_gb) /\
  ((tiered_cost (F:=float) STANDARD (of_int (50 * 1024))
    =? of_int (50 * 1024) * ratio 23 1000)%num = true /\
   (tiered_cost (F:=float) STANDARD (of_int (100 * 1024))
    =? of_int (50 * 1024) * ratio 23 1000
       + of_int (50 * 1024) * ratio 22 1000)%num = true /\
   (tiered_cost (F:=float) STANDARD (of_int (600 * 1024))
    =? of_int (50 * 1024) * ratio 23 1000
       + of_int (450 * 1024) * ratio 22 1000
       + of_int (100 * 1024) * ratio 21 1000)%num = true) /\
  ((tiered_cost (F:=exact) STANDARD (of_int (50 * 1024))
    =? of_int (50 * 1024) * ratio 23 1000)%num = true /\
   (tiered_cost (F:=exact) STANDARD (of_int (100 * 1024))
    =? of_int (50 * 1024) * ratio 23 1000
       + of_int (50 * 1024) * ratio 22 1000)%num = true /\
   (tiered_cost (F:=exact) STANDARD (of_int (600 * 1024))
    =? of_int (50 * 1024) * ratio 23 1000
       + of_int (450 * 1024) * ratio 22 1000
       + of_int (100 * 1024) * ratio 21 1000)%num = true).
Proof.
  split; [|split; [|split; [|split]]].
  - intros F N tiers capacityGB. apply tier_loop_graduated.
  - reflexivity.
  - intros. rewrite (s3_calculate_cost_run _ (tiers:=STANDARD)) by reflexivity.
    apply tier_loop_graduated.
  - repeat split; vm_compute; reflexivity.
  - repeat split; vm_compute; reflexivity.
Qed.

Lemma has_value_inv (x : exact) (q : Q) :
  has_value x q -> exists p, x = Fin p /\ p == q.
Proof.
  destruct x as [p| | |]; simpl; intro Hv; try contradiction.
  exists p. split; [reflexivity | exact Hv].
Qed.

Lemma standard_cost_closed (c : Q) :
  has_value (tiered_cost STANDARD (Fin c)) (standard_bill c).
Proof.
  unfold standard_bill. repeat case_Q.
  - apply standard_cost_first. exact E.
  - apply standard_cost_second; [apply Qlt_le_weak; exact E | exact E0].
  - apply standard_cost_third. apply Qlt_le_weak. exact E0.
Qed.

(** From a capacity to a larger one the bill grows, and by no more than the
    first price on each GB added. *)
Lemma standard_bill_increment (c c' : Q) :
  c <= c' ->
  0 <= standard_bill c' - standard_bill c /\
  standard_bill c' - standard_bill c <= (23 # 1000) * (c' - c).
Proof.
  intro Hle. unfold standard_bill. repeat case_Q; split; lra.
Qed.

Lemma standard_bill_lipschitz (c c' : Q) :
  Qabs (standard_bill c' - standard_bill c) <= (23 # 1000) * Qabs (c' - c).
Proof.
  destruct (Qlt_le_dec c' c) as [Hlt | Hle].
  - destruct (standard_bill_increment (Qlt_le_weak _ _ Hlt)) as [H0 H1].
    rewrite (Qabs_neg (c' - c)) by lra.
    rewrite Qabs_neg by lra. lra.
  - destruct (standard_bill_increment Hle) as [H0 H1].
    rewrite (Qabs_pos (c' - c)) by lra.
    rewrite Qabs_pos by lra. lra.
Qed.

Lemma standard_cost_value (c : Q) :
  exists q, standard_cost c = Fin q /\ q == standard_bill c.
Proof. apply has_value_inv, standard_cost_closed. Qed.

(** ** The flat-rate pricing model *)

(** [_calculate_cost] of [cost.CodeArtifact]: it stores the flat cost of
    [total_gb] and prints it, and does nothing else. *)
Lemma code_artifact_calculate_cost_run {F} `{Number F} (o : CostCodeArtifact.t F) :
  CostCodeArtifact._calculate_cost o
  = Run (inr tt)
        (CostCodeArtifact.set_total_cost
           (flat_cost (CostCodeArtifact.total_gb o)) o)
        [Print [Text "Total cost for CodeArtifact: $";
                Val (FFixed6 (flat_cost (CostCodeArtifact.total_gb o)))]].
Proof. reflexivity. Qed.


(** ** The threshold classifier *)

(** [_determine_color_code] stores the color of [classify] and never raises
    (both classes). *)
Lemma s3_determine_color_code_stores {F} `{Number F} (o : CostS3.t F) :
  outcome (CostS3._determine_color_code o) = inr tt /\
  CostS3.color_code (state_after (CostS3._determine_color_code o))
  = classify (CostS3.total_cost o) (CostS3.threshold o).
Proof.
  unfold CostS3._determine_color_code, classify, bind, get. cbn.
  destruct (CostS3.threshold o); split; reflexivity.
Qed.

Lemma code_artifact_determine_color_code_stores {F} `{Number F}
      (o : CostCodeArtifact.t F) :
  outcome (CostCodeArtifact._determine_color_code o) = inr tt /\
  CostCodeArtifact.color_code
    (state_after (CostCodeArtifact._determine_color_code o))
  = classify (CostCodeArtifact.total_cost o) (CostCodeArtifact.threshold o).
Proof.
  unfold CostCodeArtifact._determine_color_code, classify, bind, get. cbn.
  destruct (CostCodeArtifact.threshold o); split; reflexivity.
Qed.

Lemma classify_green {F} `{Number F} (total_cost threshold : F) :
  (total_cost <? threshold * ratio 5 10)%num = true ->
  classify total_cost (Some threshold) = Some "green"%string.
Proof. intro Hlt. cbv [classify color_of]. rewrite Hlt. reflexivity. Qed.

(** *** Half of a double *)

Section Halving.

Import B64 B64Rnd B64Arith B64Prim B64Const.
Local Open Scope Z_scope.

(** The double [0.5]. *)
Lemma half_SF :
  Prim2SF (ratio (F:=float) 5 10) = S754_finite false 4503599627370496 (-53).
Proof. vm_compute. reflexivity. Qed.

Lemma zero_val : nan (of_int (F:=float) 0) = false /\ val (of_int (F:=float) 0) = 0.
Proof. split; vm_compute; reflexivity. Qed.

(** [x * 0.5] is the value of [x] at one exponent less, rounded. *)
Lemma mul_half (x : float) :
  nan x = false ->
  nan (x * ratio 5 10)%float = false /\
  val (x * ratio 5 10)%float
  = if finite x then rnds (val x) (- 1075) else val x.
Proof.
  intro Nx. destruct (mul_const _ x half_SF Nx) as [Hn Hv].
  split; [exact Hn|]. rewrite Hv.
  destruct (finite x); [|reflexivity].
  destruct (finite_of_SF _ half_SF) as (_ & _ & -> & _).
  change (4503599627370496 * 2 ^ (-53 + 1074)) with (2 ^ 1073).
  replace (- 2148) with (- 1075 - 1073) by lia.
  apply rnds_shift. lia.
Qed.

Lemma halve_le (v : Z) :
  0 <= v -> rnds v (- 1074) = v -> 0 <= rnds v (- 1075) <= v.
Proof.
  intros Hv Hfix. rewrite rnds_pos in * by lia.
  split; [apply rnd_nonneg; exact Hv|].
  destruct (Z.eq_dec v 0) as [->|Hv0]; [rewrite rnd_0; lia|].
  rewrite <- Hfix at 2.
  replace (rnd v (- 1074)) with (rnd (v * 2 ^ 1) (- 1074 - 1))
    by (apply rnd_shift; lia).
  apply rnd_mono; lia.
Qed.

Lemma halve_lt (v : Z) : 0 < v -> rnds v (- 1075) < v.
Proof.
  intro Hv. rewrite rnds_pos by lia. unfold rnd.
  pose proof (shift_nonneg v (- 1075)) as Hs.
  assert (Hn : 0 < shift v (- 1075)) by (unfold shift; lia).
  set (n := shift v (- 1075)) in *.
  replace (n + - 1075 + 1074) with (n - 1) by lia.
  destruct (@B64Round.rne_cases v n Hn) as (Hdm & Hr & H2 & Hh & Hc).
  assert (Hq : 0 <= v / 2 ^ n)
    by (apply Z.div_pos; [lia | apply Z.pow_pos_nonneg; lia]).
  apply Z.le_lt_trans with (rne v n * 2 ^ (n - 1)); [apply Z.le_min_r|].
  destruct Hc as [[Hc ->]|[[Hc ->]|[(Hc & He & ->)|(Hc & He & ->)]]]; try nia.
  assert (v / 2 ^ n <> 0) by (intro H0; rewrite H0 in He; discriminate).
  nia.
Qed.

Lemma halve_nonpos (v : Z) : v <= 0 -> rnds v (- 1075) <= 0.
Proof.
  intro Hv. rewrite <- (rnds_0 (- 1075)). apply rnds_mono. exact Hv.
Qed.

(** For a positive threshold, half of it is not above it; it is below it
    when the threshold is finite. *)
Lemma half_le (t : float) :
  nan t = false -> 0 < val t ->
  nan (t * ratio 5 10)%float = false /\
  0 <= val (t * ratio 5 10)%float <= val t.
Proof.
  intros Nt Hpos. destruct (mul_half t Nt) as [Hn Hv].
  split; [exact Hn|]. rewrite Hv.
  destruct (finite t) eqn:Ft; [|lia].
  apply halve_le; [lia | apply val_fixed; exact Ft].
Qed.

Lemma half_lt (t : float) :
  finite t = true -> 0 < val t -> val (t * ratio 5 10)%float < val t.
Proof.
  intros Ft Hpos. destruct (mul_half t (finite_nan t Ft)) as [_ ->].
  rewrite Ft. apply halve_lt. exact Hpos.
Qed.

Lemma half_nonpos (t : float) :
  nan t = false -> val t <= 0 ->
  nan (t * ratio 5 10)%float = false /\ val (t * ratio 5 10)%float <= 0.
Proof.
  intros Nt Hneg. destruct (mul_half t Nt) as [Hn Hv].
  split; [exact Hn|]. rewrite Hv.
  destruct (finite t); [apply halve_nonpos; exact Hneg | exact Hneg].
Qed.

End Halving.

Section ClassifierBinary64.

Import B64 B64Prim B64Const.
Local Open Scope Z_scope.

(** The classifier on doubles, by the values of its arguments. *)
Lemma color_of_val (cost t : float) :
  nan cost = false -> nan t = false ->
  color_of cost t
  = if val cost <? val (t * ratio 5 10)%float then "green"%string
    else if val cost <? val t then "yellow"%string
    else "red"%string.
Proof.
  intros Nc Nt. destruct (mul_half t Nt) as [Nh _].
  unfold color_of. cbn [fltb fmul binary64].
  rewrite (ltb_val cost _ Nc Nh), (ltb_val cost t Nc Nt). reflexivity.
Qed.

Lemma nonneg_val (x : float) :
  (of_int 0 <=? x)%num = true -> nan x = false /\ 0 <= val x.
Proof.
  intro H. apply leb_true in H. destruct H as (_ & Nx & Hv).
  destruct zero_val as [_ Hz]. rewrite Hz in Hv. auto.
Qed.

Lemma positive_val (x : float) :
  (of_int 0 <? x)%num = true -> nan x = false /\ 0 < val x.
Proof.
  intro H. apply ltb_true in H. destruct H as (_ & Nx & Hv).
  destruct zero_val as [_ Hz]. rewrite Hz in Hv. auto.
Qed.

Lemma nonpos_val (x : float) :
  (x <=? of_int 0)%num = true -> nan x = false /\ val x <= 0.
Proof.
  intro H. apply leb_true in H. destruct H as (Nx & _ & Hv).
  destruct zero_val as [_ Hz]. rewrite Hz in Hv. auto.
Qed.

Lemma inf_val : nan (inf (F:=float)) = false /\ val (inf (F:=float)) = TOP.
Proof. split; reflexivity. Qed.

Lemma positive_finite (x : float) :
  (of_int 0 <? x)%num = true -> (x <? inf)%num = true ->
  finite x = true /\ 0 < val x.
Proof.
  intros Hpos Hlt. apply positive_val in Hpos. destruct Hpos as [Nx Hv].
  apply ltb_true in Hlt. destruct Hlt as (_ & _ & Hi).
  destruct inf_val as [_ Ei]. rewrite Ei in Hi.
  split; [|exact Hv].
  unfold finite. rewrite Nx. cbn [negb andb]. apply Z.ltb_lt. lia.
Qed.

(** The bands of the classifier on doubles. *)
Lemma classify_bands_binary64 (cost t : float) :
  (of_int 0 <=? cost)%num = true ->
  (of_int 0 <? t)%num = true ->
  ((cost <? t * ratio 5 10)%num = true ->
   classify cost (Some t) = Some "green"%string) /\
  ((t * ratio 5 10 <=? cost)%num = true -> (cost <? t)%num = true ->
   classify cost (Some t) = Some "yellow"%string) /\
  ((t <=? cost)%num = true ->
   classify cost (Some t) = Some "red"%string) /\
  ((cost <? t * ratio 5 10)%num = true \/
   ((t * ratio 5 10 <=? cost)%num = true /\ (cost <? t)%num = true) \/
   (t <=? cost)%num = true).
Proof.
  intros H0 Ht.
  destruct (@nonneg_val _ H0) as [Nc Hc].
  destruct (@positive_val _ Ht) as [Nt Hpos].
  destruct (half_le t Nt Hpos) as [Nh Hh].
  unfold classify. rewrite (color_of_val cost t Nc Nt).
  cbn [fltb fleb fmul binary64].
  rewrite (ltb_val cost _ Nc Nh), (ltb_val cost t Nc Nt),
    (leb_val _ cost Nh Nc), (leb_val t cost Nt Nc).
  destruct (Z.ltb_spec (val cost) (val (t * ratio 5 10)%float)) as [H1|H1];
    destruct (Z.ltb_spec (val cost) (val t)) as [H2|H2];
    destruct (Z.leb_spec (val (t * ratio 5 10)%float) (val cost)) as [H3|H3];
    destruct (Z.leb_spec (val t) (val cost)) as [H4|H4];
    try lia;
    repeat split; try reflexivity; try (intros; discriminate); auto.
Qed.

(** The two boundaries. *)
Lemma classify_boundaries_binary64 (t : float) :
  (of_int 0 <? t)%num = true ->
  classify t (Some t) = Some "red"%string /\
  ((t <? inf)%num = true ->
   classify (t * ratio 5 10)%num (Some t) = Some "yellow"%string).
Proof.
  intro Ht. destruct (@positive_val _ Ht) as [Nt Hpos].
  destruct (half_le t Nt Hpos) as [Nh Hh]. split.
  - unfold classify. rewrite (color_of_val t t Nt Nt).
    destruct (Z.ltb_spec (val t) (val (t * ratio 5 10)%float)); [lia|].
    rewrite Z.ltb_irrefl. reflexivity.
  - intro Hfin. destruct (@positive_finite _ Ht Hfin) as [Ft _].
    pose proof (half_lt t Ft Hpos) as Hlt.
    unfold classify. cbn [fmul binary64].
    rewrite (color_of_val _ t Nh Nt). rewrite Z.ltb_irrefl.
    destruct (Z.ltb_spec (val (t * ratio 5 10)%float) (val t)); [reflexivity|lia].
Qed.

End ClassifierBinary64.

(** The sentence of the claim on the lower boundary fails for the infinite
    threshold, which is positive: half of it is the threshold itself, and a
    cost equal to the threshold is red, as the rule for
    [cost >= threshold] says. *)
Lemma classifier_bands_counterexample :
  (of_int 0 <? inf (F:=float))%num = true /\
  (of_int 0 <=? inf (F:=float) * ratio 5 10)%num = true /\
  classify (F:=float) (inf * ratio 5 10)%num (Some inf) = Some "red"%string.
Proof. repeat split; vm_compute; reflexivity. Qed.

(** C2 (amended).  The threshold classifier.  [_determine_color_code] of either class
    stores [classify total_cost threshold]; without a threshold that is
    [None]; with one, a cost below [threshold * 0.5] is green (over any
    numbers).  In double precision, for every non-negative cost and every
    positive threshold: a cost below [threshold * 0.5] is green, a cost from
    [threshold * 0.5] on and below [threshold] is yellow, a cost from
    [threshold] on is red, and one of the three applies.  The boundary
    [threshold] is red, and the boundary [threshold * 0.5] is yellow for
    every positive threshold that is finite (half of the infinite threshold
    is the threshold itself, which is red as the rule for [cost >= threshold]
    says).  With threshold 1.0 the costs 0, 0.5 and 1.0 are green, yellow
    and red. *)
Theorem classifier_bands :
  (forall (F : Type) (N : Number F) (o : CostS3.t F),
      CostS3.color_code (state_after (CostS3._determine_color_code o))
      = classify (CostS3.total_cost o) (CostS3.threshold o)) /\
  (forall (F : Type) (N : Number F) (o : CostCodeArtifact.t F),
      CostCodeArtifact.color_code
        (state_after (CostCodeArtifact._determine_color_code o))
      = classify (CostCodeArtifact.total_cost o) (CostCodeArtifact.threshold o)) /\
  (forall (F : Type) (N : Number F) (total_cost : F),
      classify total_cost None = None) /\
  (forall (F : Type) (N : Number F) (total_cost threshold : F),
      (total_cost <? threshold * ratio 5 10)%num = true ->
      classify total_cost (Some threshold) = Some "green"%string) /\
  (forall total_cost threshold : float,
      (of_int 0 <=? total_cost)%num = true ->
      (of_int 0 <? threshold)%num = true ->
      ((total_cost <? threshold * ratio 5 10)%num = true ->
       classify total_cost (Some threshold) = Some "green"%string) /\
      ((threshold * ratio 5 10 <=? total_cost)%num = true ->
       (total_cost <? threshold)%num = true ->
       classify total_cost (Some threshold) = Some "yellow"%string) /\
      ((threshold <=? total_cost)%num = true ->
       classify total_cost (Some threshold) = Some "red"%string) /\
      ((total_cost <? threshold * ratio 5 10)%num = true \/
       ((threshold * ratio 5 10 <=? total_cost)%num = true /\
        (total_cost <? threshold)%num = true) \/
       (threshold <=? total_cost)%num = true)) /\
  (forall threshold : float,
      (of_int 0 <? threshold)%num = true ->
      classify threshold (Some threshold) = Some "red"%string /\
      ((threshold <? inf)%num = true ->
       classify (threshold * ratio 5 10)%num (Some threshold)
       = Some "yellow"%string)) /\
  (classify (F:=float) (of_int 0) (Some (of_int 1)) = Some "green"%string /\
   classify (F:=float) (ratio 5 10) (Some (of_int 1)) = Some "yellow"%string /\
   classify (F:=float) (of_int 1) (Some (of_int 1)) = Some "red"%string).
Proof.
  split; [|split; [|split; [|split; [|split; [|split]]]]].
  - intros. apply s3_determine_color_code_stores.
  - intros. apply code_artifact_determine_color_code_stores.
  - reflexivity.
  - intros F N. apply classify_green.
  - apply classify_bands_binary64.
  - apply classify_boundaries_binary64.
  - repeat split; vm_compute; reflexivity.
Qed.

Lemma classifier_bands_witness :
  classify (F:=float) (ratio 3 4) (Some (of_int 1)) = Some "yellow"%string.
Proof.
  refine (proj1 (proj2 (proj1 (proj2 (proj2 (proj2 (proj2 classifier_bands))))
                              (ratio 3 4) (of_int 1) _ _)) _ _);
    vm_compute; reflexivity.
Defined.

Section ClassifierOrder.

Import B64 B64Prim B64Const.
Local Open Scope Z_scope.

(** A threshold that is not positive: every non-negative cost is red. *)
Lemma nonpositive_red_binary64 (cost t : float) :
  (t <=? of_int 0)%num = true ->
  (of_int 0 <=? cost)%num = true ->
  classify cost (Some t) = Some "red"%string.
Proof.
  intros Ht H0.
  destruct (@nonneg_val _ H0) as [Nc Hc].
  destruct (@nonpos_val _ Ht) as [Nt Hneg].
  destruct (half_nonpos t Nt Hneg) as [Nh Hh].
  unfold classify. rewrite (color_of_val cost t Nc Nt).
  destruct (Z.ltb_spec (val cost) (val (t * ratio 5 10)%float)); [lia|].
  destruct (Z.ltb_spec (val cost) (val t)); [lia|]. reflexivity.
Qed.

(** The color of a double by cases, NaN included. *)
Lemma color_of_cases (cost t : float) :
  (color_of cost t = "green"%string /\
   nan cost = false /\ nan t = false /\
   val cost < val (t * ratio 5 10)%float) \/
  (color_of cost t = "yellow"%string /\
   nan cost = false /\ nan t = false /\ val cost < val t) \/
  color_of cost t = "red"%string.
Proof.
  unfold color_of. cbn [fltb fmul binary64].
  destruct (PrimFloat.ltb cost (t * ratio 5 10)) eqn:H1.
  - left. apply ltb_true in H1. destruct H1 as (Nc & Nh & Hlt).
    split; [reflexivity|]. split; [exact Nc|]. split; [|exact Hlt].
    destruct (nan t) eqn:Nt; [|reflexivity].
    exfalso. unfold nan in Nt, Nh. rewrite mul_spec in Nh.
    destruct (Prim2SF t); try discriminate;
      destruct (Prim2SF (ratio 5 10)); discriminate.
  - destruct (PrimFloat.ltb cost t) eqn:H2; [|right; right; reflexivity].
    right; left. apply ltb_true in H2. destruct H2 as (Nc & Nt & Hlt).
    repeat split; assumption.
Qed.

(** A higher cost never gets a milder color. *)
Lemma color_monotone_binary64 (c1 c2 t : float) :
  (c1 <=? c2)%num = true ->
  (severity (color_of c1 t) <= severity (color_of c2 t))%nat.
Proof.
  intro Hle. apply leb_true in Hle. destruct Hle as (N1 & N2 & Hle).
  destruct (color_of_cases c2 t)
    as [(-> & _ & Nt & Hlt)|[(-> & _ & Nt & Hlt)| ->]].
  - rewrite (color_of_val c1 t N1 Nt).
    destruct (Z.ltb_spec (val c1) (val (t * ratio 5 10)%float)); [|lia].
    apply Nat.le_refl.
  - rewrite (color_of_val c1 t N1 Nt).
    destruct (Z.ltb_spec (val c1) (val (t * ratio 5 10)%float));
      [cbn; lia|].
    destruct (Z.ltb_spec (val c1) (val t)); [apply Nat.le_refl | lia].
  - destruct (color_of_cases c1 t) as [(-> & _)|[(-> & _)| ->]]; cbn; lia.
Qed.

End ClassifierOrder.

(** *** The tiered cost on doubles is non-decreasing *)

Section TierLoopBinary64.

Import B64 B64Arith B64Prim B64Const B64Nonneg.
Local Open Scope Z_scope.

Lemma tier_loop_step (tier_limit price_per_gb : float) (tiers : list tier)
      (remaining_gb total_cost previous_limit : float) :
  tier_loop (((tier_limit, price_per_gb) : tier) :: tiers) remaining_gb total_cost
            previous_limit
  = let span := (tier_limit - previous_limit)%float in
    let tier_gb := if PrimFloat.ltb span remaining_gb then span
                   else remaining_gb in
    let total_cost' := (total_cost + tier_gb * price_per_gb)%float in
    let remaining_gb' := (remaining_gb - tier_gb)%float in
    if PrimFloat.leb remaining_gb' (of_int 0) then total_cost'
    else tier_loop tiers remaining_gb' total_cost' tier_limit.
Proof. reflexivity. Qed.

(** A remaining capacity within the span: the tier bills all of it, and the
    loop ends. *)
Lemma tier_loop_within (tier_limit price_per_gb : float) (tiers : list tier)
      (r K previous_limit : float) :
  let span := (tier_limit - previous_limit)%float in
  nan span = false -> nan r = false -> 0 <= val r -> val r <= val span ->
  (finite span = false -> tiers = []) ->
  tier_loop (((tier_limit, price_per_gb) : tier) :: tiers) r K previous_limit
  = (K + r * price_per_gb)%float.
Proof.
  intros span Ns Nr Hr Hle Hlast. rewrite tier_loop_step. fold span.
  cbv zeta. rewrite (ltb_val span r Ns Nr).
  destruct (Z.ltb_spec (val span) (val r)) as [H|_]; [lia|].
  destruct (finite r) eqn:Fr.
  - destruct (sub_val r r Fr Fr) as [Nd Hd].
    rewrite Z.sub_diag, rnds_0 in Hd.
    destruct zero_val as [Nz Hz].
    rewrite (leb_val _ _ Nd Nz), Hd, Hz. reflexivity.
  - assert (Fs : finite span = false).
    { destruct (finite span) eqn:Fs; [|reflexivity].
      pose proof (finite_val span Fs).
      pose proof (plus_inf_val r Nr Fr Hr). lia. }
    rewrite (Hlast Fs).
    destruct (PrimFloat.leb (r - r) (of_int 0)); reflexivity.
Qed.

(** A remaining capacity beyond the span. *)
Lemma tier_loop_beyond (tier_limit price_per_gb : float) (tiers : list tier)
      (r K previous_limit : float) :
  let span := (tier_limit - previous_limit)%float in
  nan span = false -> nan r = false -> val span < val r ->
  tier_loop (((tier_limit, price_per_gb) : tier) :: tiers) r K previous_limit
  = if PrimFloat.leb (r - span) (of_int 0)
    then (K + span * price_per_gb)%float
    else tier_loop tiers (r - span)%float (K + span * price_per_gb)%float
                   tier_limit.
Proof.
  intros span Ns Nr Hlt. rewrite tier_loop_step. fold span.
  cbv zeta. rewrite (ltb_val span r Ns Nr).
  destruct (Z.ltb_spec (val span) (val r)) as [_|H]; [reflexivity | lia].
Qed.

Lemma billable_inv (previous_limit tier_limit price_per_gb : float)
      (tiers : list tier) :
  billable previous_limit (((tier_limit, price_per_gb) : tier) :: tiers) = true ->
  let span := (tier_limit - previous_limit)%float in
  nan span = false /\ 0 <= val span /\
  (finite span = false -> tiers = []) /\
  finite price_per_gb = true /\ 0 < val price_per_gb /\
  billable tier_limit tiers = true.
Proof.
  cbn [billable]. intro H.
  repeat (apply andb_true_iff in H; destruct H as [H ?]).
  apply negb_true_iff in H. cbv zeta.
  repeat split; try assumption; try (apply Z.leb_le; assumption);
    try (apply Z.ltb_lt; assumption).
  intro Fs. rewrite Fs in *. destruct tiers; [reflexivity | discriminate].
Qed.

(** The loop on a billable tier list: its result is a number not below the
    cost it starts from, and it does not decrease when the remaining
    capacity grows. *)
Lemma tier_loop_monotone (tiers : list tier) :
  forall previous_limit K,
    billable previous_limit tiers = true ->
    nan K = false -> 0 <= val K ->
    (forall r, nan r = false -> 0 <= val r ->
               nan (tier_loop tiers r K previous_limit) = false /\
               val K <= val (tier_loop tiers r K previous_limit)) /\
    (forall r1 r2, nan r1 = false -> nan r2 = false ->
                   0 <= val r1 -> val r1 <= val r2 ->
                   val (tier_loop tiers r1 K previous_limit)
                   <= val (tier_loop tiers r2 K previous_limit)).
Proof.
  induction tiers as [|[L P] tiers IH]; intros prev K Hb NK HK.
  - cbn [tier_loop]. split; [intros; split; [assumption | lia] | intros; lia].
  - destruct (@billable_inv _ _ _ _ Hb) as (Ns & Hs & Hlast & FP & HP & Hb').
    set (span := (L - prev)%float) in *.
    destruct (mul_price P span FP HP Ns Hs) as [NsP HsP].
    destruct (add_nonneg K _ NK NsP HK HsP) as [NK' _].
    pose proof (add_nonneg_ge K _ NK NsP HK HsP) as HK'.
    set (K' := (K + span * P)%float) in *.
    destruct (IH L K' Hb' NK' ltac:(lia)) as [IH1 IH2].
    assert (Hbeyond : forall r, nan r = false -> val span < val r ->
                nan (tier_loop (((L, P) : tier) :: tiers) r K prev) = false /\
                val K' <= val (tier_loop (((L, P) : tier) :: tiers) r K prev)).
    { intros r Nr Hlt.
      rewrite (@tier_loop_beyond L P tiers r K prev Ns Nr Hlt).
      fold span. fold K'.
      destruct (PrimFloat.leb (r - span) (of_int 0)) eqn:Hstop;
        [split; [exact NK' | lia]|].
      assert (Fs : finite span = true).
      { unfold finite. rewrite Ns. cbn [negb andb]. apply Z.ltb_lt.
        pose proof (val_bounds r). lia. }
      destruct (sub_const span r Fs Nr) as [Nd _].
      destruct zero_val as [Nz Hz].
      rewrite (leb_val _ _ Nd Nz), Hz in Hstop. apply Z.leb_gt in Hstop.
      apply IH1; [exact Nd | lia]. }
    assert (Hwithin : forall r, nan r = false -> 0 <= val r ->
                val r <= val span ->
                tier_loop (((L, P) : tier) :: tiers) r K prev = (K + r * P)%float).
    { intros r Nr Hr Hle.
      exact (@tier_loop_within L P tiers r K prev Ns Nr Hr Hle Hlast). }
    split.
    + intros r Nr Hr.
      destruct (Z.le_gt_cases (val r) (val span)) as [Hle|Hgt].
      * rewrite (Hwithin r Nr Hr Hle).
        destruct (mul_price P r FP HP Nr Hr) as [NrP HrP].
        destruct (add_nonneg K _ NK NrP HK HrP) as [Nres _].
        split; [exact Nres | apply add_nonneg_ge; assumption].
      * destruct (Hbeyond r Nr Hgt) as [Nres Hres].
        split; [exact Nres | lia].
    + intros r1 r2 N1 N2 H1 Hle.
      destruct (Z.le_gt_cases (val r1) (val span)) as [Hle1|Hgt1].
      * rewrite (Hwithin r1 N1 H1 Hle1).
        destruct (mul_price P r1 FP HP N1 H1) as [N1P H1P].
        destruct (Z.le_gt_cases (val r2) (val span)) as [Hle2|Hgt2].
        -- rewrite (Hwithin r2 N2 ltac:(lia) Hle2).
           destruct (mul_price P r2 FP HP N2 ltac:(lia)) as [N2P H2P].
           apply add_nonneg_mono; try assumption.
           apply mul_price_mono; assumption.
        -- destruct (Hbeyond r2 N2 Hgt2) as [_ Hres].
           apply Z.le_trans with (val K'); [|exact Hres].
           unfold K'. apply add_nonneg_mono; try assumption.
           apply mul_price_mono; assumption.
      * assert (Hgt2 : val span < val r2) by lia.
        rewrite (@tier_loop_beyond L P tiers r1 K prev Ns N1 Hgt1).
        rewrite (@tier_loop_beyond L P tiers r2 K prev Ns N2 Hgt2).
        fold span. fold K'.
        assert (Fs : finite span = true).
        { unfold finite. rewrite Ns. cbn [negb andb]. apply Z.ltb_lt.
          pose proof (val_bounds r1). lia. }
        destruct (sub_const span r1 Fs N1) as [Nd1 _].
        destruct (sub_const span r2 Fs N2) as [Nd2 _].
        pose proof (sub_const_mono span r1 r2 Fs N1 N2 Hle) as Hd.
        destruct zero_val as [Nz Hz].
        rewrite (leb_val _ _ Nd1 Nz), (leb_val _ _ Nd2 Nz), Hz.
        destruct (Z.leb_spec (val (r1 - span)%float) 0) as [Hs1|Hs1];
          destruct (Z.leb_spec (val (r2 - span)%float) 0) as [Hs2|Hs2].
        -- lia.
        -- apply IH1; [exact Nd2 | lia].
        -- lia.
        -- apply IH2; try assumption; lia.
Qed.

(** The tiers of STANDARD are billable. *)
Lemma standard_billable : billable (of_int 0) STANDARD = true.
Proof. vm_compute. reflexivity. Qed.

(** On doubles the tiered cost of STANDARD storage does not decrease when
    the capacity grows. *)
Lemma tiered_cost_monotone_binary64 (c1 c2 : float) :
  (of_int 0 <=? c1)%num = true -> (c1 <=? c2)%num = true ->
  (tiered_cost STANDARD c1 <=? tiered_cost STANDARD c2)%num = true.
Proof.
  intros H0 Hle.
  destruct (@nonneg_val _ H0) as [N1 H1].
  apply leb_true in Hle. destruct Hle as (_ & N2 & Hle).
  destruct zero_val as [Nz Hz].
  destruct (tier_loop_monotone STANDARD (of_int 0) (of_int 0)
                               standard_billable Nz ltac:(lia))
    as [Hnum Hmono].
  destruct (Hnum c1 N1 H1) as [Nr1 _].
  destruct (Hnum c2 N2 ltac:(lia)) as [Nr2 _].
  unfold tiered_cost. cbn [fleb binary64].
  rewrite (leb_val _ _ Nr1 Nr2). apply Z.leb_le.
  apply Hmono; assumption.
Qed.

End TierLoopBinary64.
(** *** The flat rate on doubles *)

Section FlatCostBinary64.

Import B64 B64Round B64Bra B64Rnd B64Arith B64Prim B64Const B64Nonneg B64Scale.
Local Open Scope Z_scope.

Lemma rate_SF :
  Prim2SF (_pricing_per_gb (F:=float))
  = S754_finite false 7205759403792794 (- 57).
Proof. vm_compute. reflexivity. Qed.

Lemma rate_val :
  finite (_pricing_per_gb (F:=float)) = true /\
  val (_pricing_per_gb (F:=float)) = 7205759403792794 * 2 ^ 1017.
Proof.
  destruct (finite_of_SF _ rate_SF) as (Hf & _ & Hv & _).
  split; [exact Hf | exact Hv].
Qed.

Lemma flat_cost_val (c : float) :
  finite c = true ->
  nan (flat_cost c) = false /\
  val (flat_cost c) = rnds (val c * (7205759403792794 * 2 ^ 1017)) (- 2148).
Proof.
  intro Hf. destruct rate_val as [Hfk Hvk].
  destruct (mul_val _ _ Hf Hfk) as [Hn Hv].
  split; [exact Hn|]. unfold flat_cost. cbn [fmul binary64].
  rewrite Hv, Hvk. reflexivity.
Qed.

Lemma smallest_normal_val :
  nan 0x1p-1022%float = false /\ val 0x1p-1022%float = 2 ^ 52.
Proof. split; vm_compute; reflexivity. Qed.

(** A capacity that is not negative and whose double is finite is finite. *)
Lemma double_finite (c : float) :
  nan c = false -> 0 <= val c ->
  val (of_int 2 * c)%float < TOP -> finite c = true.
Proof.
  intros Hn H0 Hlt.
  destruct (finite c) eqn:Hf; [reflexivity | exfalso].
  pose proof (plus_inf_SF _ Hn Hf H0) as Hinf.
  assert (Hv : val (of_int 2 * c)%float = TOP).
  { unfold val. rewrite mul_spec, Hinf, two_SF. reflexivity. }
  lia.
Qed.

(** Where the cost is a normal double and twice the capacity is a double,
    the cost of twice the capacity is twice the cost. *)
Lemma flat_cost_doubles (c : float) :
  (of_int 0 <=? c)%num = true ->
  (of_int 2 * c <? inf)%num = true ->
  (0x1p-1022%float <? flat_cost c)%num = true ->
  (flat_cost (of_int 2 * c) =? of_int 2 * flat_cost c)%num = true.
Proof.
  intros H0 H2 Hnorm. cbn [fleb fltb feqb fmul binary64] in *.
  apply leb_true in H0. destruct H0 as (_ & Hnc & H0).
  destruct zero_val as [_ Hz]. rewrite Hz in H0.
  apply ltb_true in H2. destruct H2 as (_ & _ & H2).
  destruct inf_val as [_ Hinf]. rewrite Hinf in H2.
  apply ltb_true in Hnorm. destruct Hnorm as (_ & _ & Hnorm).
  destruct smallest_normal_val as [_ Hsn]. rewrite Hsn in Hnorm.
  pose proof (@double_finite c Hnc H0 H2) as Hfc.
  destruct (@double_val c Hfc H0) as [Hn2 Hv2].
  assert (Hv2' : val (of_int 2 * c)%float = 2 * val c) by lia.
  assert (Hf2 : finite (of_int 2 * c)%float = true).
  { unfold finite. rewrite Hn2. cbn [negb andb]. apply Z.ltb_lt. lia. }
  destruct (@flat_cost_val c Hfc) as [HnC HvC].
  destruct (@flat_cost_val _ Hf2) as [HnB HvB].
  set (K := 7205759403792794 * 2 ^ 1017) in *.
  assert (HK : 0 < K <= 2 ^ 1074).
  { unfold K. split; [lia|].
    change (2 ^ 1074) with (2 ^ 57 * 2 ^ 1017).
    apply Z.mul_le_mono_nonneg_r; lia. }
  set (M := val c * K) in *.
  rewrite Hv2' in HvB.
  replace (2 * val c * K) with (2 * M) in HvB by (unfold M; ring).
  rewrite rnds_pos in HvC by (unfold M; nia).
  rewrite rnds_pos in HvB by (unfold M; nia).
  assert (HM : 0 < M).
  { destruct (Z.eq_dec M 0) as [E | E]; [|unfold M in *; nia].
    rewrite E, rnd_0 in HvC. lia. }
  assert (Hvc : 0 < val c) by (unfold M in HM; nia).
  (* the cost is a double below the capacity *)
  assert (HC : val (flat_cost c) <= val c).
  { rewrite HvC.
    apply Z.le_trans with (rnd (val c * 2 ^ 1074) (- 1074 - 1074)).
    - apply rnd_mono; [lia | unfold M; nia].
    - rewrite rnd_shift by lia.
      pose proof (val_fixed _ Hfc) as Hfix.
      rewrite rnds_pos in Hfix by lia. lia. }
  assert (HfC : finite (flat_cost c) = true).
  { unfold finite. rewrite HnC. cbn [negb andb]. apply Z.ltb_lt. lia. }
  (* it has at least 53 digits beyond the smallest exponent *)
  assert (Hd : 1127 <= digits M).
  { destruct (Z_lt_le_dec (digits M) 1127) as [Hlt | Hge]; [exfalso | exact Hge].
    pose proof (@digits_bounds M HM) as [_ Hu].
    assert (HM' : M <= 1 * 2 ^ 1126).
    { apply Z.lt_le_incl, (Z.lt_le_trans _ _ _ Hu).
      rewrite Z.mul_1_l. apply Z.pow_le_mono_r; lia. }
    pose proof (@rnd_mono M (1 * 2 ^ 1126) (- 1022 - 1126) ltac:(lia) HM') as Hle.
    rewrite rnd_shift in Hle by lia.
    rewrite (@rnd_exact 1 (- 1022)) in Hle; [| lia | lia | vm_compute; reflexivity].
    change (- 1022 - 1126) with (- 2148) in Hle.
    change (1 * 2 ^ (- 1022 + 1074)) with (2 ^ 52) in Hle. lia. }
  pose proof (@rnd_double M (- 2148) HM ltac:(lia) ltac:(lia)) as Hdbl.
  set (X := rne M (shift M (- 2148)) * 2 ^ (shift M (- 2148) + - 2148 + 1074))
    in *.
  assert (HX : rnd M (- 2148) = Z.min TOP X) by reflexivity.
  destruct (@double_val _ HfC ltac:(lia)) as [HnD HvD].
  assert (Heq : val (flat_cost (of_int 2 * c)%float)
                = val (of_int 2 * flat_cost c)%float).
  { rewrite HvB, Hdbl, HvD, HvC, HX.
    rewrite HvC, HX in HC. lia. }
  rewrite eqb_val by assumption. apply Z.eqb_eq. exact Heq.
Qed.

End FlatCostBinary64.
(** *** The tiered cost grows with the capacity *)

(** C4.  The tiered cost of the STANDARD tiers is non-decreasing in the
    capacity, in the arithmetic the code runs: for all doubles
    [0 <= c1 <= c2] (infinity included), [cost(c1) <= cost(c2)], and so for
    the cost [_calculate_cost] stores.  The prices of the table strictly
    decrease from tier to tier, [0.023 > 0.022 > 0.021], as doubles and as
    rationals.  Continuity is a property of the function of a real capacity
    that the method defines, the cost in exact arithmetic: there the cost
    is non-decreasing, continuous (for every capacity and every tolerance
    there is a distance within which the cost stays within the tolerance),
    and grows at the price of the band the capacity is in, so that the
    marginal rate drops at each of the two boundaries. *)
Theorem tiered_cost_monotone_continuous :
  (forall c1 c2 : float,
      (of_int 0 <=? c1)%num = true -> (c1 <=? c2)%num = true ->
      (tiered_cost STANDARD c1 <=? tiered_cost STANDARD c2)%num = true) /\
  (forall o1 o2 : CostS3.t float,
      CostS3.storage_type o1 = "STANDARD"%string ->
      CostS3.storage_type o2 = "STANDARD"%string ->
      (of_int 0 <=? CostS3.total_gb o1)%num = true ->
      (CostS3.total_gb o1 <=? CostS3.total_gb o2)%num = true ->
      (CostS3.total_cost (state_after (CostS3._calculate_cost o1))
       <=? CostS3.total_cost (state_after (CostS3._calculate_cost o2)))%num
      = true) /\
  (prices_decrease (F:=float) STANDARD = true /\
   (ratio (F:=float) 22 1000 <? ratio 23 1000)%num = true /\
   (ratio (F:=float) 21 1000 <? ratio 22 1000)%num = true /\
   prices_decrease (F:=exact) STANDARD = true) /\
  (forall c1 c2 : Q,
      0 <= c1 -> c1 <= c2 ->
      (standard_cost c1 <=? standard_cost c2)%num = true) /\
  (forall c eps : Q,
      0 <= c -> 0 < eps ->
      exists delta : Q,
        0 < delta /\
        forall c' : Q,
          0 <= c' -> Qabs (c' - c) < delta ->
          exists q q' : Q,
            standard_cost c = Fin q /\ standard_cost c' = Fin q' /\
            Qabs (q' - q) < eps) /\
  (forall c d : Q,
      0 <= c -> 0 <= d ->
      exists q q' : Q,
        standard_cost c = Fin q /\ standard_cost (c + d) = Fin q' /\
        (c + d <= 51200 -> q' - q == (23 # 1000) * d) /\
        (51200 <= c -> c + d <= 512000 -> q' - q == (22 # 1000) * d) /\
        (512000 <= c -> q' - q == (21 # 1000) * d)).
Proof.
  split; [|split; [|split; [|split; [|split]]]].
  - exact tiered_cost_monotone_binary64.
  - intros o1 o2 E1 E2 H0 Hle.
    rewrite (s3_calculate_cost_run o1 (tiers:=STANDARD))
      by (rewrite E1; reflexivity).
    rewrite (s3_calculate_cost_run o2 (tiers:=STANDARD))
      by (rewrite E2; reflexivity).
    cbn [state_after CostS3.set_total_cost CostS3.total_cost].
    apply tiered_cost_monotone_binary64; assumption.
  - repeat split; vm_compute; reflexivity.
  - intros c1 c2 H0 Hle.
    destruct (standard_cost_value c1) as (q1 & -> & E1).
    destruct (standard_cost_value c2) as (q2 & -> & E2).
    exact_ops. apply Qle_bool_iff.
    destruct (standard_bill_increment Hle) as [Hinc _]. lra.
  - intros c eps H0 Heps.
    exists (eps * (1000 # 23)). split; [lra|].
    intros c' H0' Hnear.
    destruct (standard_cost_value c) as (q & -> & E).
    destruct (standard_cost_value c') as (q' & -> & E').
    exists q, q'. split; [reflexivity | split; [reflexivity|]].
    rewrite E, E'.
    apply Qle_lt_trans with (y := (23 # 1000) * Qabs (c' - c));
      [apply standard_bill_lipschitz | lra].
  - intros c d H0 Hd.
    destruct (standard_cost_value c) as (q & -> & E).
    destruct (standard_cost_value (c + d)) as (q' & -> & E').
    exists q, q'. split; [reflexivity | split; [reflexivity|]].
    rewrite E, E'. unfold standard_bill.
    repeat split; intros; repeat case_Q; lra.
Qed.

Lemma tiered_cost_monotone_continuous_witness :
  (tiered_cost (F:=float) STANDARD (of_int 100)
   <=? tiered_cost STANDARD (of_int 60000))%num = true.
Proof.
  refine (proj1 tiered_cost_monotone_continuous (of_int 100) (of_int 60000) _ _);
    vm_compute; reflexivity.
Defined.

(** *** The flat rate is linear where nothing underflows or overflows *)

(** The claim of linearity fails on doubles at a capacity of ten units of
    [5e-324]: its cost rounds to [0], the cost of twice the capacity to one
    unit. *)
Lemma flat_cost_linear_counterexample :
  (of_int 0 <=? 0x1.4p-1071%float)%num = true /\
  (flat_cost (of_int 2 * 0x1.4p-1071%float)
   =? of_int 2 * flat_cost 0x1.4p-1071%float)%num = false.
Proof. split; vm_compute; reflexivity. Qed.

(** C8 (amended).  The flat-rate variant: the cost
    [CodeArtifact._calculate_cost] stores is the capacity times the one
    configured rate, which is the double [0.05], for every capacity.  On
    doubles it is linear where the product neither underflows nor
    overflows: for every capacity [c >= 0] such that [2 * c] is finite and
    the cost of [c] is above the smallest normal double [2 ** -1022], the
    cost of [2 * c] equals twice the cost of [c]; so it is at capacity [0].
    In exact arithmetic, the function of a real capacity, it is linear
    everywhere. *)
Theorem flat_cost_linear :
  (forall (F : Type) (N : Number F) (o : CostCodeArtifact.t F),
      CostCodeArtifact.total_cost
        (state_after (CostCodeArtifact._calculate_cost o))
      = (CostCodeArtifact.total_gb o * _pricing_per_gb)%num) /\
  ((forall (F : Type) (N : Number F), @_pricing_per_gb F N = ratio 5 100) /\
   _pricing_per_gb (F:=float) = 0x1.999999999999ap-5%float) /\
  (forall c : float,
      (of_int 0 <=? c)%num = true ->
      (of_int 2 * c <? inf)%num = true ->
      (0x1p-1022%float <? flat_cost c)%num = true ->
      (flat_cost (of_int 2 * c) =? of_int 2 * flat_cost c)%num = true) /\
  (flat_cost (F:=float) (of_int 2 * of_int 0)
   =? of_int 2 * flat_cost (of_int 0))%num = true /\
  (forall c : Q, has_value (flat_cost (Fin c)) (c * (5 # 100))) /\
  (forall c : Q,
      (flat_cost (of_int 2 * Fin c) =? of_int 2 * flat_cost (Fin c))%num
      = true).
Proof.
  split; [|split; [|split; [|split; [|split]]]].
  - intros F N o. rewrite code_artifact_calculate_cost_run. reflexivity.
  - split; [reflexivity | vm_compute; reflexivity].
  - exact flat_cost_doubles.
  - vm_compute. reflexivity.
  - intro c. cbv [flat_cost _pricing_per_gb has_value]. exact_ops. reflexivity.
  - intro c. cbv [flat_cost _pricing_per_gb]. exact_ops.
    apply Qeq_bool_iff. cbv [inject_Z]. ring.
Qed.

Lemma flat_cost_linear_witness :
  (flat_cost (F:=float) (of_int 2 * of_int 1)
   =? of_int 2 * flat_cost (of_int 1))%num = true.
Proof.
  refine (proj1 (proj2 (proj2 flat_cost_linear)) (of_int 1) _ _ _);
    vm_compute; reflexivity.
Defined.

(** ** How the shared steps run *)

(** One step of a run: the combinators of the monad, then the projections. *)
Ltac run_steps :=
  repeat (progress (unfold print, bind, emit, raise, ret, get, modify;
                    cbn [outcome state_after events negb app])).

Section EstimatorRuns.

Context {F : Type} `{Number F}.
Variable w : world.

(** The steps the estimators share leave the object as it is: their outcome
    and their events are those of a run on any state. *)
Lemma keep_files_run {S} (all_files : list pathlike) (s : S) :
  keep_files (F:=F) w all_files s
  = Run (outcome (keep_files (F:=F) w all_files tt)) s
        (events (keep_files (F:=F) w all_files tt)).
Proof.
  induction all_files as [|[x|p] rest IH]; try reflexivity.
  cbn [keep_files]. run_steps. rewrite IH. cbn [outcome state_after events].
  destruct (outcome (keep_files w rest tt)); reflexivity.
Qed.

Lemma walk_run {S} (folder : pathlike) (s : S) :
  walk (F:=F) w folder s
  = Run (outcome (walk (F:=F) w folder tt)) s
        (events (walk (F:=F) w folder tt)).
Proof.
  unfold walk. run_steps.
  destruct (path_exists w (Path folder)); reflexivity.
Qed.

Lemma gather_run {S} folder files (s : S) :
  gather (F:=F) w folder files s
  = Run (outcome (gather (F:=F) w folder files tt)) s
        (events (gather (F:=F) w folder files tt)).
Proof.
  unfold gather.
  destruct folder as [x|]; [destruct (truthy_pathlike x)|];
    destruct files as [[|f fs]|];
    unfold walk; run_steps;
    try destruct (path_exists w (Path x));
    run_steps; try reflexivity;
    rewrite keep_files_run; cbn [outcome state_after events];
    destruct (outcome (keep_files w _ tt)); reflexivity.
Qed.

Lemma measure_run {S} (all_files : list path) (s : S) :
  measure w all_files s
  = Run (inr (pysum (map (size_gb w) all_files))) s (map Stat all_files).
Proof.
  unfold measure.
  generalize (pysum (map (size_gb w) all_files)) as total.
  induction all_files as [|p rest IH]; intro total; [reflexivity|].
  cbn [fold_right map]. unfold bind, emit. cbn [outcome state_after events].
  rewrite IH. reflexivity.
Qed.

Lemma write_github_output_run {S} github_output (total_gb total_cost : F)
      color_code (s : S) :
  write_github_output w github_output total_gb total_cost color_code s
  = Run (match sink_failure w github_output "GITHUB_OUTPUT" with
         | Some e => inl (exn_of e)
         | None => inr tt
         end) s
        (output_events w github_output total_gb total_cost color_code).
Proof.
  unfold output_events, write_github_output, sink_failure.
  destruct github_output; [|reflexivity].
  run_steps. destruct (environ w "GITHUB_OUTPUT") as [f|]; [|reflexivity].
  destruct (truthy_str f); [|reflexivity].
  unfold append_lines. run_steps.
  destruct (append_error w f); reflexivity.
Qed.

Lemma write_github_summary_run {S} label github_summary
      (total_gb total_cost : F) color_code (s : S) :
  write_github_summary w label github_summary total_gb total_cost color_code s
  = Run (match sink_failure w github_summary "GITHUB_STEP_SUMMARY" with
         | Some e => inl (exn_of e)
         | None => inr tt
         end) s
        (summary_events w label github_summary total_gb total_cost color_code).
Proof.
  unfold summary_events, write_github_summary, sink_failure.
  destruct github_summary; [|reflexivity].
  run_steps. destruct (environ w "GITHUB_STEP_SUMMARY") as [f|]; [|reflexivity].
  destruct (truthy_str f); [|reflexivity].
  unfold append_lines. run_steps.
  destruct (append_error w f); reflexivity.
Qed.

End EstimatorRuns.

(** ** Sequencing *)

Lemma bind_ok {X E S A B} (m : M X E S A) (k : A -> M X E S B) s a s' ev :
  m s = Run (inr a) s' ev -> bind m k s = after ev (k a s').
Proof. intro Hm. unfold bind, after. rewrite Hm. reflexivity. Qed.

Lemma bind_raise {X E S A B} (m : M X E S A) (k : A -> M X E S B) s e s' ev :
  m s = Run (inl e) s' ev -> bind m k s = Run (inl e) s' ev.
Proof. intro Hm. unfold bind. rewrite Hm. reflexivity. Qed.

(** ** The methods of [cost.S3], one by one *)

Section S3Runs.

Context {F : Type} `{Number F}.
Variable w : world.

Import CostS3.

Lemma s3_validate_region_run (o : t F) :
  _validate_region o
  = if String.eqb (region o) "eu-west-1" then
      Run (inr tt) o [Print [Text "Using region: "; Val (FStr (region o))]]
    else
      Run (inl (ValueError
                  [Text "Currently only Ireland (eu-west-1) region is supported"]))
          o [].
Proof.
  unfold _validate_region. run_steps.
  destruct (String.eqb (region o) "eu-west-1"); reflexivity.
Qed.

Lemma s3_validate_storage_type_run (o : t F) :
  _validate_storage_type o
  = if dict_mem _pricing (storage_type o) then Run (inr tt) o []
    else
      Run (inl (ValueError [Text "Storage type '"; Val (FStr (storage_type o));
                            Text "' is not supported"]))
          o [].
Proof.
  unfold _validate_storage_type. run_steps.
  destruct (dict_mem _pricing (storage_type o)); reflexivity.
Qed.

Lemma s3_gather_files_run (o : t F) :
  _gather_files w o
  = match gathered w (folder o) (files o) with
    | inl e => Run (inl e) o (gather_events w (folder o) (files o))
    | inr kept =>
        Run (inr tt) (set_all_files kept o)
            (gather_events w (folder o) (files o))
    end.
Proof.
  unfold _gather_files, gathered, gather_events. run_steps.
  rewrite gather_run. cbn [outcome state_after events].
  destruct (outcome (gather w (folder o) (files o) tt)); run_steps;
    rewrite ?app_nil_r; reflexivity.
Qed.

Lemma s3_calculate_total_gb_run (o : t F) :
  _calculate_total_gb w o
  = Run (inr tt)
        (set_total_gb (pysum (map (size_gb w) (all_files o))) o)
        (map Stat (all_files o)
         ++ [Print [Text "Total size: ";
                    Val (FFixed6 (pysum (map (size_gb w) (all_files o))));
                    Text " GB"]]).
Proof.
  unfold _calculate_total_gb. run_steps. rewrite measure_run. reflexivity.
Qed.

Lemma s3_determine_color_code_run (o : t F) :
  _determine_color_code o
  = Run (inr tt)
        (set_color_code (classify (total_cost o) (threshold o)) o)
        (color_events (threshold o) (classify (total_cost o) (threshold o))).
Proof.
  unfold _determine_color_code, classify, color_events. run_steps.
  destruct (threshold o); reflexivity.
Qed.

Lemma s3_write_github_output_run (o : t F) :
  _write_github_output w o
  = Run (match sink_failure w (github_output o) "GITHUB_OUTPUT" with
         | Some e => inl (exn_of e)
         | None => inr tt
         end) o
        (output_events w (github_output o) (total_gb o) (total_cost o)
                       (color_code o)).
Proof.
  unfold _write_github_output. run_steps.
  rewrite write_github_output_run. cbn [outcome state_after events].
  destruct (sink_failure w (github_output o) "GITHUB_OUTPUT"); reflexivity.
Qed.

Lemma s3_write_github_summary_run (o : t F) :
  _write_github_summary w o
  = Run (match sink_failure w (github_summary o) "GITHUB_STEP_SUMMARY" with
         | Some e => inl (exn_of e)
         | None => inr tt
         end) o
        (summary_events w "S3" (github_summary o) (total_gb o) (total_cost o)
                        (color_code o)).
Proof.
  unfold _write_github_summary. run_steps.
  rewrite write_github_summary_run. cbn [outcome state_after events].
  destruct (sink_failure w (github_summary o) "GITHUB_STEP_SUMMARY");
    reflexivity.
Qed.

End S3Runs.

(** ** [calculate] of [cost.S3] *)

Section S3Calculate.

Context {F : Type} `{Number F}.
Variable w : world.

Import CostS3.

Lemma s3_calculate_bad_region (o : t F) :
  String.eqb (region o) "eu-west-1" = false ->
  calculate w o
  = Run (inl (ValueError
                [Text "Currently only Ireland (eu-west-1) region is supported"]))
        o [].
Proof.
  intro Hr. unfold calculate.
  apply bind_raise. rewrite s3_validate_region_run, Hr. reflexivity.
Qed.

Lemma s3_calculate_bad_storage_type (o : t F) :
  String.eqb (region o) "eu-west-1" = true ->
  dict_mem (@_pricing F _) (storage_type o) = false ->
  calculate w o
  = Run (inl (ValueError [Text "Storage type '"; Val (FStr (storage_type o));
                          Text "' is not supported"]))
        o [Print [Text "Using region: "; Val (FStr (region o))]].
Proof.
  intros Hr Hs. unfold calculate.
  erewrite bind_ok by (rewrite s3_validate_region_run, Hr; reflexivity).
  erewrite bind_raise by (rewrite s3_validate_storage_type_run, Hs; reflexivity).
  reflexivity.
Qed.

Lemma s3_calculate_gather_raises (o : t F) (e : exn F) :
  String.eqb (region o) "eu-west-1" = true ->
  dict_mem (@_pricing F _) (storage_type o) = true ->
  gathered w (folder o) (files o) = inl e ->
  calculate w o
  = Run (inl e) o
        (Print [Text "Using region: "; Val (FStr (region o))]
         :: gather_events w (folder o) (files o)).
Proof.
  intros Hr Hs Hg. unfold calculate.
  erewrite bind_ok by (rewrite s3_validate_region_run, Hr; reflexivity).
  erewrite bind_ok by (rewrite s3_validate_storage_type_run, Hs; reflexivity).
  erewrite bind_raise by (rewrite s3_gather_files_run, Hg; reflexivity).
  reflexivity.
Qed.

(** [calculate] once the collector has returned: the object is updated,
    then the sinks are written, and the run ends in the failure of a sink
    or returns the estimate. *)
Lemma s3_calculate_measures (o : t F) (tiers : list tier) (kept : list path) :
  String.eqb (region o) "eu-west-1" = true ->
  dict_get _pricing (storage_type o) = Some tiers ->
  gathered (F:=F) w (folder o) (files o) = inr kept ->
  let gb := pysum (map (size_gb w) kept) in
  let cost := tiered_cost tiers gb in
  let color := classify cost (threshold o) in
  calculate w o
  = Run (match sinks_failure w (github_output o) (github_summary o) with
         | Some e => inl e
         | None => inr (Estimate gb cost color)
         end)
        (set_color_code color
           (set_total_cost cost (set_total_gb gb (set_all_files kept o))))
        (Print [Text "Using region: "; Val (FStr (region o))]
         :: gather_events w (folder o) (files o)
         ++ map Stat kept
         ++ [Print [Text "Total size: "; Val (FFixed6 gb); Text " GB"];
             Print [Text "Total cost for storage type ";
                    Val (FStr (storage_type o)); Text ": $";
                    Val (FFixed6 cost)]]
         ++ color_events (threshold o) color
         ++ sinks_events w "S3" (github_output o) (github_summary o)
                         gb cost color).
Proof.
  intros Hr Hs Hg gb cost color. unfold calculate.
  erewrite bind_ok by (rewrite s3_validate_region_run, Hr; reflexivity).
  erewrite bind_ok
    by (rewrite s3_validate_storage_type_run; unfold dict_mem; rewrite Hs;
        reflexivity).
  erewrite bind_ok by (rewrite s3_gather_files_run, Hg; reflexivity).
  erewrite bind_ok by (rewrite s3_calculate_total_gb_run; reflexivity).
  erewrite bind_ok by (apply s3_calculate_cost_run; exact Hs).
  erewrite bind_ok by (rewrite s3_determine_color_code_run; reflexivity).
  destruct (sink_failure w (github_output o) "GITHUB_OUTPUT") as [e1|] eqn:Ho.
  - erewrite bind_raise
      by (rewrite s3_write_github_output_run; cbn [set_all_files set_total_gb set_total_cost set_color_code region
       storage_type folder files threshold github_summary github_output
       total_gb total_cost color_code all_files]; rewrite Ho;
          reflexivity).
    unfold sinks_failure, sinks_events. rewrite Ho. unfold after.
    cbn [outcome state_after events set_all_files set_total_gb set_total_cost set_color_code region
       storage_type folder files threshold github_summary github_output
       total_gb total_cost color_code all_files].
    rewrite ?app_nil_r, <- ?app_assoc. reflexivity.
  - erewrite bind_ok
      by (rewrite s3_write_github_output_run; cbn [set_all_files set_total_gb set_total_cost set_color_code region
       storage_type folder files threshold github_summary github_output
       total_gb total_cost color_code all_files]; rewrite Ho;
          reflexivity).
    destruct (sink_failure w (github_summary o) "GITHUB_STEP_SUMMARY")
      as [e2|] eqn:Hsum.
    + erewrite bind_raise
        by (rewrite s3_write_github_summary_run; cbn [set_all_files set_total_gb set_total_cost set_color_code region
       storage_type folder files threshold github_summary github_output
       total_gb total_cost color_code all_files]; rewrite Hsum;
            reflexivity).
      unfold sinks_failure, sinks_events. rewrite Ho, Hsum. unfold after.
      cbn [outcome state_after events set_all_files set_total_gb set_total_cost set_color_code region
       storage_type folder files threshold github_summary github_output
       total_gb total_cost color_code all_files].
      rewrite ?app_nil_r, <- ?app_assoc. reflexivity.
    + erewrite bind_ok
        by (rewrite s3_write_github_summary_run; cbn [set_all_files set_total_gb set_total_cost set_color_code region
       storage_type folder files threshold github_summary github_output
       total_gb total_cost color_code all_files]; rewrite Hsum;
            reflexivity).
      unfold sinks_failure, sinks_events. rewrite Ho, Hsum.
      unfold after, bind, get, ret.
      cbn [outcome state_after events set_all_files set_total_gb set_total_cost set_color_code region
       storage_type folder files threshold github_summary github_output
       total_gb total_cost color_code all_files].
      rewrite ?app_nil_r, <- ?app_assoc. reflexivity.
Qed.


End S3Calculate.

(** ** The methods of [cost.CodeArtifact], and its [calculate] *)

Section CodeArtifactRuns.

Context {F : Type} `{Number F}.
Variable w : world.

Import CostCodeArtifact.

Lemma code_artifact_validate_region_run (o : t F) :
  _validate_region o
  = if String.eqb (region o) "eu-west-1" then
      Run (inr tt) o [Print [Text "Using region: "; Val (FStr (region o))]]
    else
      Run (inl (ValueError
                  [Text "Currently only Ireland (eu-west-1) region is supported"]))
          o [].
Proof.
  unfold _validate_region. run_steps.
  destruct (String.eqb (region o) "eu-west-1"); reflexivity.
Qed.

Lemma code_artifact_gather_files_run (o : t F) :
  _gather_files w o
  = match gathered w (folder o) (files o) with
    | inl e => Run (inl e) o (gather_events w (folder o) (files o))
    | inr kept =>
        Run (inr tt) (set_all_files kept o)
            (gather_events w (folder o) (files o))
    end.
Proof.
  unfold _gather_files, gathered, gather_events. run_steps.
  rewrite gather_run. cbn [outcome state_after events].
  destruct (outcome (gather w (folder o) (files o) tt)); run_steps;
    rewrite ?app_nil_r; reflexivity.
Qed.

Lemma code_artifact_calculate_total_gb_run (o : t F) :
  _calculate_total_gb w o
  = Run (inr tt)
        (set_total_gb (pysum (map (size_gb w) (all_files o))) o)
        (map Stat (all_files o)
         ++ [Print [Text "Total size: ";
                    Val (FFixed6 (pysum (map (size_gb w) (all_files o))));
                    Text " GB"]]).
Proof.
  unfold _calculate_total_gb. run_steps. rewrite measure_run. reflexivity.
Qed.

Lemma code_artifact_determine_color_code_run (o : t F) :
  _determine_color_code o
  = Run (inr tt)
        (set_color_code (classify (total_cost o) (threshold o)) o)
        (color_events (threshold o) (classify (total_cost o) (threshold o))).
Proof.
  unfold _determine_color_code, classify, color_events. run_steps.
  destruct (threshold o); reflexivity.
Qed.

Lemma code_artifact_write_github_output_run (o : t F) :
  _write_github_output w o
  = Run (match sink_failure w (github_output o) "GITHUB_OUTPUT" with
         | Some e => inl (exn_of e)
         | None => inr tt
         end) o
        (output_events w (github_output o) (total_gb o) (total_cost o)
                       (color_code o)).
Proof.
  unfold _write_github_output. run_steps.
  rewrite write_github_output_run. cbn [outcome state_after events].
  destruct (sink_failure w (github_output o) "GITHUB_OUTPUT"); reflexivity.
Qed.

Lemma code_artifact_write_github_summary_run (o : t F) :
  _write_github_summary w o
  = Run (match sink_failure w (github_summary o) "GITHUB_STEP_SUMMARY" with
         | Some e => inl (exn_of e)
         | None => inr tt
         end) o
        (summary_events w "CodeArtifact" (github_summary o) (total_gb o)
                        (total_cost o) (color_code o)).
Proof.
  unfold _write_github_summary. run_steps.
  rewrite write_github_summary_run. cbn [outcome state_after events].
  destruct (sink_failure w (github_summary o) "GITHUB_STEP_SUMMARY");
    reflexivity.
Qed.

Lemma code_artifact_calculate_bad_region (o : t F) :
  String.eqb (region o) "eu-west-1" = false ->
  calculate w o
  = Run (inl (ValueError
                [Text "Currently only Ireland (eu-west-1) region is supported"]))
        o [].
Proof.
  intro Hr. unfold calculate.
  apply bind_raise. rewrite code_artifact_validate_region_run, Hr. reflexivity.
Qed.

Lemma code_artifact_calculate_gather_raises (o : t F) (e : exn F) :
  String.eqb (region o) "eu-west-1" = true ->
  gathered w (folder o) (files o) = inl e ->
  calculate w o
  = Run (inl e) o
        (Print [Text "Using region: "; Val (FStr (region o))]
         :: gather_events w (folder o) (files o)).
Proof.
  intros Hr Hg. unfold calculate.
  erewrite bind_ok
    by (rewrite code_artifact_validate_region_run, Hr; reflexivity).
  erewrite bind_raise
    by (rewrite code_artifact_gather_files_run, Hg; reflexivity).
  reflexivity.
Qed.

Lemma code_artifact_calculate_measures (o : t F) (kept : list path) :
  String.eqb (region o) "eu-west-1" = true ->
  gathered (F:=F) w (folder o) (files o) = inr kept ->
  let gb := pysum (map (size_gb w) kept) in
  let cost := flat_cost gb in
  let color := classify cost (threshold o) in
  calculate w o
  = Run (match sinks_failure w (github_output o) (github_summary o) with
         | Some e => inl e
         | None => inr (Estimate gb cost color)
         end)
        (set_color_code color
           (set_total_cost cost (set_total_gb gb (set_all_files kept o))))
        (Print [Text "Using region: "; Val (FStr (region o))]
         :: gather_events w (folder o) (files o)
         ++ map Stat kept
         ++ [Print [Text "Total size: "; Val (FFixed6 gb); Text " GB"];
             Print [Text "Total cost for CodeArtifact: $"; Val (FFixed6 cost)]]
         ++ color_events (threshold o) color
         ++ sinks_events w "CodeArtifact" (github_output o) (github_summary o)
                         gb cost color).
Proof.
  intros Hr Hg gb cost color. unfold calculate.
  erewrite bind_ok
    by (rewrite code_artifact_validate_region_run, Hr; reflexivity).
  erewrite bind_ok by (rewrite code_artifact_gather_files_run, Hg; reflexivity).
  erewrite bind_ok by (rewrite code_artifact_calculate_total_gb_run; reflexivity).
  erewrite bind_ok by (apply code_artifact_calculate_cost_run).
  erewrite bind_ok by (rewrite code_artifact_determine_color_code_run; reflexivity).
  destruct (sink_failure w (github_output o) "GITHUB_OUTPUT") as [e1|] eqn:Ho.
  - erewrite bind_raise
      by (rewrite code_artifact_write_github_output_run; cbn [set_all_files set_total_gb set_total_cost set_color_code region
       folder files threshold github_summary github_output
       total_gb total_cost color_code all_files]; rewrite Ho;
          reflexivity).
    unfold sinks_failure, sinks_events. rewrite Ho. unfold after.
    cbn [outcome state_after events set_all_files set_total_gb set_total_cost set_color_code region
       folder files threshold github_summary github_output
       total_gb total_cost color_code all_files].
    rewrite ?app_nil_r, <- ?app_assoc. reflexivity.
  - erewrite bind_ok
      by (rewrite code_artifact_write_github_output_run; cbn [set_all_files set_total_gb set_total_cost set_color_code region
       folder files threshold github_summary github_output
       total_gb total_cost color_code all_files]; rewrite Ho;
          reflexivity).
    destruct (sink_failure w (github_summary o) "GITHUB_STEP_SUMMARY")
      as [e2|] eqn:Hsum.
    + erewrite bind_raise
        by (rewrite code_artifact_write_github_summary_run; cbn [set_all_files set_total_gb set_total_cost set_color_code region
       folder files threshold github_summary github_output
       total_gb total_cost color_code all_files]; rewrite Hsum;
            reflexivity).
      unfold sinks_failure, sinks_events. rewrite Ho, Hsum. unfold after.
      cbn [outcome state_after events set_all_files set_total_gb set_total_cost set_color_code region
       folder files threshold github_summary github_output
       total_gb total_cost color_code all_files].
      rewrite ?app_nil_r, <- ?app_assoc. reflexivity.
    + erewrite bind_ok
        by (rewrite code_artifact_write_github_summary_run; cbn [set_all_files set_total_gb set_total_cost set_color_code region
       folder files threshold github_summary github_output
       total_gb total_cost color_code all_files]; rewrite Hsum;
            reflexivity).
      unfold sinks_failure, sinks_events. rewrite Ho, Hsum.
      unfold after, bind, get, ret.
      cbn [outcome state_after events set_all_files set_total_gb set_total_cost set_color_code region
       folder files threshold github_summary github_output
       total_gb total_cost color_code all_files].
      rewrite ?app_nil_r, <- ?app_assoc. reflexivity.
Qed.


End CodeArtifactRuns.

(** ** The file inventory collector *)

Section Collector.

Context {F : Type}.
Variable w : world.

Lemma keep_files_paths (ps : list path) :
  keep_files (F:=F) w (map PathObj ps) tt
  = Run (inr (filter (path_is_file w) ps)) tt (map IsFile ps).
Proof.
  induction ps as [|p ps IH]; [reflexivity|].
  cbn [map keep_files filter]. run_steps. rewrite IH. run_steps.
  rewrite app_nil_r. destruct (path_is_file w p); reflexivity.
Qed.

Lemma keep_files_str (ps : list path) (s : string) (rest : list pathlike) :
  outcome (keep_files (F:=F) w (map PathObj ps ++ Str s :: rest) tt)
  = inl (AttributeError [Text "'str' object has no attribute 'is_file'"]).
Proof.
  induction ps as [|p ps IH]; [reflexivity|].
  cbn [map app keep_files]. run_steps.
  destruct (keep_files w (map PathObj ps ++ Str s :: rest) tt) as [o st ev].
  cbn [outcome] in IH. subst o. reflexivity.
Qed.


(** When the folder is not missing and the explicit list holds [Path]
    objects only, the collector returns: its inventory is the regular files
    among the paths of the walk followed by those of the list. *)
Lemma gathered_paths (folder : option pathlike) (files : option (list pathlike))
      (ps : list path) :
  folder_missing w folder = false ->
  listed files = map PathObj ps ->
  gathered (F:=F) w folder files
  = inr (filter (path_is_file w) (walked w folder ++ ps)).
Proof.
  unfold gathered, gather, folder_missing, walked, listed.
  intros Hmiss Hps.
  destruct folder as [x|]; [destruct (truthy_pathlike x)|];
    cbn [andb] in Hmiss; unfold walk;
    try rewrite Hmiss; run_steps;
    destruct files as [[|f fs]|]; subst; run_steps;
    try (destruct ps; [|discriminate]);
    rewrite ?Hps, ?app_nil_r, <- ?map_app, ?keep_files_paths;
    try reflexivity.
Qed.

(** A folder that is missing makes the collector raise. *)
Lemma gathered_missing (x : pathlike) (files : option (list pathlike)) :
  folder_missing w (Some x) = true ->
  gathered (F:=F) w (Some x) files
  = inl (FileNotFoundError
           [Text "Folder "; Val (FStr (Path x)); Text " does not exist"]).
Proof.
  unfold gathered, gather, folder_missing. intro Hmiss.
  apply andb_true_iff in Hmiss. destruct Hmiss as [Ht He].
  rewrite Ht. unfold walk. run_steps. rewrite He. reflexivity.
Qed.

End Collector.

(** ** The size aggregator *)








(** ** Validation comes first *)

(** C5.  When the region is not ["eu-west-1"], [calculate] of either class
    raises [ValueError] with no event at all; when the region is supported
    and the storage type of [cost.S3] is not a key of [_pricing], it raises
    [ValueError] after printing the region.  Either way no folder is walked,
    no file is tested or measured, nothing is appended to a sink, and the
    object is unchanged, so that on a new object [total_gb], [total_cost]
    and [color_code] are still [0.0], [0.0] and [None]. *)
Theorem validation_precedes_file_access :
  (forall (F : Type) (N : Number F) (w : world) (o : CostS3.t F),
      CostS3.region o <> "eu-west-1"%string \/
      dict_mem (@_pricing F N) (CostS3.storage_type o) = false ->
      rejected o (CostS3.calculate w o) /\
      (CostS3.region o <> "eu-west-1"%string ->
       events (CostS3.calculate w o) = [])) /\
  (forall (F : Type) (N : Number F) (w : world) (o : CostCodeArtifact.t F),
      CostCodeArtifact.region o <> "eu-west-1"%string ->
      rejected o (CostCodeArtifact.calculate w o) /\
      events (CostCodeArtifact.calculate w o) = []) /\
  (forall (F : Type) (N : Number F) (w : world) region storage_type folder
          files threshold github_summary github_output,
      region <> "eu-west-1"%string \/
      dict_mem (@_pricing F N) storage_type = false ->
      let o := CostS3.init region storage_type folder files threshold
                           github_summary github_output in
      let o' := state_after (CostS3.calculate w o) in
      CostS3.total_gb o' = of_int 0 /\
      CostS3.total_cost o' = of_int 0 /\
      CostS3.color_code o' = None /\
      CostS3.all_files o' = []).
Proof.
  assert (Hs3 : forall (F : Type) (N : Number F) (w : world) (o : CostS3.t F),
             CostS3.region o <> "eu-west-1"%string \/
             dict_mem (@_pricing F N) (CostS3.storage_type o) = false ->
             rejected o (CostS3.calculate w o) /\
             (CostS3.region o <> "eu-west-1"%string ->
              events (CostS3.calculate w o) = [])).
  { intros F N w o Hbad.
    destruct (String.eqb (CostS3.region o) "eu-west-1") eqn:Hr.
    - destruct Hbad as [Hne | Hst];
        [apply String.eqb_eq in Hr; contradiction|].
      rewrite (s3_calculate_bad_storage_type w o Hr Hst).
      split.
      + split; [eexists; reflexivity | split; reflexivity].
      + intro Hne. apply String.eqb_eq in Hr. contradiction.
    - rewrite (s3_calculate_bad_region w o Hr).
      split; [|reflexivity].
      split; [eexists; reflexivity | split; reflexivity]. }
  split; [exact Hs3 | split].
  - intros F N w o Hne. apply String.eqb_neq in Hne.
    rewrite (code_artifact_calculate_bad_region w o Hne).
    split; [|reflexivity].
    split; [eexists; reflexivity | split; reflexivity].
  - intros F N w region storage_type folder files threshold gs go Hbad o o'.
    destruct (Hs3 F N w o Hbad) as [(_ & Hsame & _) _].
    subst o'. rewrite Hsame. repeat split; reflexivity.
Qed.

Lemma validation_precedes_file_access_witness :
  rejected (CostS3.init (F:=float) "us-east-1" "STANDARD"
                        (Some (Str "data")) None None true true)
           (CostS3.calculate
              (World (fun _ => true) (fun _ => []) (fun _ => true)
                     (fun _ => 0%Z) (fun _ => None) (fun _ => None))
              (CostS3.init (F:=float) "us-east-1" "STANDARD"
                           (Some (Str "data")) None None true true)).
Proof.
  apply (proj1 validation_precedes_file_access).
  left. cbn. discriminate.
Defined.

(** ** The threshold is never validated *)

(** What [calculate] raises is decided by the region, the storage type and
    the collector, and then by the sinks. *)
Lemma s3_calculate_raises_iff {F} `{Number F} (w : world) (o : CostS3.t F)
      (e : exn F) :
  outcome (CostS3.calculate w o) = inl e <->
  match s3_failure w (CostS3.region o) (CostS3.storage_type o)
                   (CostS3.folder o) (CostS3.files o) with
  | Some e' => e' = e
  | None =>
      sinks_failure w (CostS3.github_output o) (CostS3.github_summary o)
      = Some e
  end.
Proof.
  unfold s3_failure.
  destruct (String.eqb (CostS3.region o) "eu-west-1") eqn:Hr; cbn [negb].
  - destruct (dict_mem (@_pricing F _) (CostS3.storage_type o)) eqn:Hm;
      cbn [negb].
    + destruct (gathered (F:=F) w (CostS3.folder o) (CostS3.files o))
        as [x|kept] eqn:Hg.
      * rewrite (s3_calculate_gather_raises w o Hr Hm Hg). cbn [outcome].
        split; intro Heq; [injection Heq as <-; reflexivity | rewrite Heq; reflexivity].
      * unfold dict_mem in Hm.
        destruct (dict_get _pricing (CostS3.storage_type o)) as [tiers|] eqn:Hs;
          [|discriminate].
        rewrite (s3_calculate_measures w o Hr Hs Hg). cbn [outcome].
        destruct (sinks_failure w (CostS3.github_output o)
                                (CostS3.github_summary o));
          split; intro Heq; try discriminate;
          injection Heq as <-; reflexivity.
    + rewrite (s3_calculate_bad_storage_type w o Hr Hm). cbn [outcome].
      split; intro Heq; [injection Heq as <-; reflexivity | rewrite Heq; reflexivity].
  - rewrite (s3_calculate_bad_region w o Hr). cbn [outcome].
    split; intro Heq; [injection Heq as <-; reflexivity | rewrite Heq; reflexivity].
Qed.

Lemma code_artifact_calculate_raises_iff {F} `{Number F} (w : world)
      (o : CostCodeArtifact.t F) (e : exn F) :
  outcome (CostCodeArtifact.calculate w o) = inl e <->
  match code_artifact_failure w (CostCodeArtifact.region o)
                              (CostCodeArtifact.folder o)
                              (CostCodeArtifact.files o) with
  | Some e' => e' = e
  | None =>
      sinks_failure w (CostCodeArtifact.github_output o)
                    (CostCodeArtifact.github_summary o) = Some e
  end.
Proof.
  unfold code_artifact_failure.
  destruct (String.eqb (CostCodeArtifact.region o) "eu-west-1") eqn:Hr;
    cbn [negb].
  - destruct (gathered (F:=F) w (CostCodeArtifact.folder o)
                       (CostCodeArtifact.files o)) as [x|kept] eqn:Hg.
    + rewrite (code_artifact_calculate_gather_raises w o Hr Hg). cbn [outcome].
      split; intro Heq; [injection Heq as <-; reflexivity | rewrite Heq; reflexivity].
    + rewrite (code_artifact_calculate_measures w o Hr Hg). cbn [outcome].
      destruct (sinks_failure w (CostCodeArtifact.github_output o)
                              (CostCodeArtifact.github_summary o));
        split; intro Heq; try discriminate;
        injection Heq as <-; reflexivity.
  - rewrite (code_artifact_calculate_bad_region w o Hr). cbn [outcome].
    split; intro Heq; [injection Heq as <-; reflexivity | rewrite Heq; reflexivity].
Qed.

(** Whether [calculate] raises, and what, does not depend on the
    threshold. *)
Lemma s3_calculate_raises_whatever_threshold {F} `{Number F} (w : world)
      (o : CostS3.t F) (threshold : option F) (e : exn F) :
  outcome (CostS3.calculate w (s3_with_threshold threshold o)) = inl e <->
  outcome (CostS3.calculate w o) = inl e.
Proof.
  pose proof (s3_calculate_raises_iff w (s3_with_threshold threshold o) e)
    as Hwith.
  pose proof (s3_calculate_raises_iff w o e) as Hplain.
  cbn [s3_with_threshold CostS3.region CostS3.storage_type CostS3.folder
       CostS3.files CostS3.github_output CostS3.github_summary] in Hwith.
  split; intro Hx.
  - exact (proj2 Hplain (proj1 Hwith Hx)).
  - exact (proj2 Hwith (proj1 Hplain Hx)).
Qed.

Lemma code_artifact_calculate_raises_whatever_threshold {F} `{Number F}
      (w : world) (o : CostCodeArtifact.t F) (threshold : option F)
      (e : exn F) :
  outcome (CostCodeArtifact.calculate
             w (code_artifact_with_threshold threshold o)) = inl e <->
  outcome (CostCodeArtifact.calculate w o) = inl e.
Proof.
  pose proof (code_artifact_calculate_raises_iff
                w (code_artifact_with_threshold threshold o) e) as Hwith.
  pose proof (code_artifact_calculate_raises_iff w o e) as Hplain.
  cbn [code_artifact_with_threshold CostCodeArtifact.region
       CostCodeArtifact.folder CostCodeArtifact.files
       CostCodeArtifact.github_output CostCodeArtifact.github_summary]
    in Hwith.
  split; intro Hx.
  - exact (proj2 Hplain (proj1 Hwith Hx)).
  - exact (proj2 Hwith (proj1 Hplain Hx)).
Qed.

(** C10.  A threshold that is not positive is accepted as it is.  On
    doubles, for every threshold [<= 0] (zero of either sign and minus
    infinity included) and every cost [>= 0], the color is red, and red is
    what [_determine_color_code] of either class stores; a cost of 0 against
    a threshold of 0 is red, not green and not [None].  Nothing in the
    estimators tests the threshold: [_determine_color_code] never raises,
    and whether [calculate] raises, and what, is the same for every
    threshold. *)
Theorem nonpositive_threshold_is_red :
  (forall total_cost threshold : float,
      (threshold <=? of_int 0)%num = true ->
      (of_int 0 <=? total_cost)%num = true ->
      classify total_cost (Some threshold) = Some "red"%string) /\
  (forall o : CostS3.t float,
      (exists threshold,
          CostS3.threshold o = Some threshold /\
          (threshold <=? of_int 0)%num = true) ->
      (of_int 0 <=? CostS3.total_cost o)%num = true ->
      CostS3.color_code (state_after (CostS3._determine_color_code o))
      = Some "red"%string) /\
  (forall o : CostCodeArtifact.t float,
      (exists threshold,
          CostCodeArtifact.threshold o = Some threshold /\
          (threshold <=? of_int 0)%num = true) ->
      (of_int 0 <=? CostCodeArtifact.total_cost o)%num = true ->
      CostCodeArtifact.color_code
        (state_after (CostCodeArtifact._determine_color_code o))
      = Some "red"%string) /\
  (classify (F:=float) (of_int 0) (Some (of_int 0)) = Some "red"%string /\
   classify (F:=float) (of_int 0) (Some (of_int (-1))) = Some "red"%string /\
   classify (F:=float) (of_int 0) (Some (-0)%float) = Some "red"%string) /\
  (forall (F : Type) (N : Number F) (o : CostS3.t F),
      outcome (CostS3._determine_color_code o) = inr tt) /\
  (forall (F : Type) (N : Number F) (o : CostCodeArtifact.t F),
      outcome (CostCodeArtifact._determine_color_code o) = inr tt) /\
  (forall (F : Type) (N : Number F) (w : world) (o : CostS3.t F)
          (threshold : option F) (e : exn F),
      outcome (CostS3.calculate w (s3_with_threshold threshold o)) = inl e <->
      outcome (CostS3.calculate w o) = inl e) /\
  (forall (F : Type) (N : Number F) (w : world) (o : CostCodeArtifact.t F)
          (threshold : option F) (e : exn F),
      outcome (CostCodeArtifact.calculate
                 w (code_artifact_with_threshold threshold o)) = inl e <->
      outcome (CostCodeArtifact.calculate w o) = inl e).
Proof.
  split; [|split; [|split; [|split; [|split; [|split; [|split]]]]]].
  - exact nonpositive_red_binary64.
  - intros o (t & Ht & Hle) H0.
    rewrite (proj2 (s3_determine_color_code_stores o)), Ht.
    apply nonpositive_red_binary64; assumption.
  - intros o (t & Ht & Hle) H0.
    rewrite (proj2 (code_artifact_determine_color_code_stores o)), Ht.
    apply nonpositive_red_binary64; assumption.
  - repeat split; vm_compute; reflexivity.
  - intros. apply s3_determine_color_code_stores.
  - intros. apply code_artifact_determine_color_code_stores.
  - intros. apply s3_calculate_raises_whatever_threshold.
  - intros. apply code_artifact_calculate_raises_whatever_threshold.
Qed.

Lemma nonpositive_threshold_is_red_witness :
  classify (F:=float) (ratio 3 2) (Some (of_int (-1))) = Some "red"%string.
Proof.
  refine (proj1 nonpositive_threshold_is_red (ratio 3 2) (of_int (-1)) _ _);
    vm_compute; reflexivity.
Defined.

(** ** The inventory: no deduplication, and the falsy folder *)



Lemma total_bytes_app (w : world) (l1 l2 : list path) :
  total_bytes w (l1 ++ l2) = (total_bytes w l1 + total_bytes w l2)%Z.
Proof.
  unfold total_bytes. induction l1 as [|x l1 IH]; [reflexivity|].
  cbn [app map fold_right]. rewrite IH. ring.
Qed.







(** ** Object transfer: [download_files] *)

(** The events of a sequence are those of its first part, followed, when
    that returns, by those of the rest. *)
Lemma bind_events {X E S A B} (m : M X E S A) (k : A -> M X E S B) (s : S)
      (e : E) :
  In e (events (bind m k s)) ->
  In e (events (m s)) \/
  exists a, outcome (m s) = inr a /\ In e (events (k a (state_after (m s)))).
Proof.
  unfold bind. destruct (m s) as [[x|a] s' ev]; cbn [outcome state_after events].
  - intro Hin. left. exact Hin.
  - intro Hin. apply in_app_or in Hin. destruct Hin as [Hin | Hin].
    + left. exact Hin.
    + right. exists a. split; [reflexivity | exact Hin].
Qed.

Lemma attempts_app (l1 l2 : list Transfer.call) :
  attempts (l1 ++ l2) = attempts l1 ++ attempts l2.
Proof.
  induction l1 as [|e l1 IH]; [reflexivity|].
  destruct e; cbn [app attempts]; rewrite IH; reflexivity.
Qed.

Lemma in_attempts (evs : list Transfer.call) (b k p : string) :
  In (b, k, p) (attempts evs) <-> In (Transfer.DownloadFile b k p) evs.
Proof.
  induction evs as [|e evs IH]; [reflexivity|].
  destruct e; cbn [attempts In]; rewrite IH; split; intro Hin;
    try (right; exact Hin);
    try (destruct Hin as [Heq | Hin]; [discriminate | exact Hin]).
  - destruct Hin as [Heq | Hin]; [left; congruence | right; exact Hin].
  - destruct Hin as [Heq | Hin]; [left; congruence | right; exact Hin].
Qed.

Section TransferRuns.

Import Transfer.

Variable self : t.
Variable r : remote.

(** [os.makedirs]: the directory is created, or the call raises. *)
Lemma makedirs_run (p : string) (f : frame) :
  makedirs r p f
  = Run (match makedirs_failure r p with
         | Some e => inl (exn_of e)
         | None => inr tt
         end) f [Makedirs p].
Proof.
  unfold makedirs. run_steps. destruct (makedirs_failure r p); reflexivity.
Qed.

(** A download that is answered returns whether the key was delivered. *)
Lemma download_file_run (s3_key local_dir : string) (f : frame) :
  answered r local_dir s3_key = true ->
  _download_file self r s3_key (path_join local_dir s3_key) f
  = Run (inr (match client_error r s3_key with None => true | Some _ => false end))
        f (fetch_events self r local_dir s3_key).
Proof.
  unfold answered, _download_file, fetch_events, makedirs. intro Ha.
  destruct (makedirs_failure r (path_dirname (path_join local_dir s3_key)));
    [discriminate|].
  destruct (download_crash r s3_key (path_join local_dir s3_key));
    [discriminate|].
  run_steps. destruct (client_error r s3_key); reflexivity.
Qed.

(** A download that is not answered raises, and the frame is unchanged. *)
Lemma download_file_crashes (s3_key local_dir : string) (f : frame) :
  answered r local_dir s3_key = false ->
  exists e, outcome (_download_file self r s3_key (path_join local_dir s3_key) f)
            = inl e /\
            state_after (_download_file self r s3_key
                                        (path_join local_dir s3_key) f) = f.
Proof.
  unfold answered, _download_file, makedirs. intro Ha. run_steps.
  destruct (makedirs_failure r (path_dirname (path_join local_dir s3_key)));
    [eexists; split; reflexivity|].
  destruct (download_crash r s3_key (path_join local_dir s3_key));
    [eexists; split; reflexivity | discriminate].
Qed.

(** Whatever happens, [_download_file] calls [client.download_file] on the
    bucket, the key and the path it was given, and on nothing else. *)
Lemma download_file_calls (s3_key local_path : string) (f : frame)
      (b k p : string) :
  In (DownloadFile b k p) (events (_download_file self r s3_key local_path f)) ->
  b = bucket_name self /\ k = s3_key /\ p = local_path.
Proof.
  unfold _download_file, makedirs. run_steps.
  destruct (makedirs_failure r (path_dirname local_path));
    cbn [outcome state_after events app];
    [intros [Heq | []]; discriminate|].
  destruct (download_crash r s3_key local_path);
    [|destruct (client_error r s3_key)];
    cbn [outcome state_after events app]; intro Hin;
    repeat (destruct Hin as [Heq | Hin];
            [try discriminate; injection Heq as <- <- <-;
             repeat split; reflexivity|]);
    contradiction.
Qed.

Lemma attempts_fetch (local_dir s3_key : string) :
  attempts (fetch_events self r local_dir s3_key)
  = [(bucket_name self, s3_key, path_join local_dir s3_key)].
Proof.
  unfold fetch_events. destruct (client_error r s3_key); reflexivity.
Qed.

(** The loop over the requested entries, when every entry has a key and is
    answered: it does not raise; it appends to the two lists and attempts
    every entry. *)
Lemma download_requested_run (local_dir : string) (files : list file_info) :
  forallb (entry_answered r local_dir) files = true ->
  forall f : frame,
    outcome (download_requested self r local_dir files f) = inr tt /\
    state_after (download_requested self r local_dir files f)
    = Frame (missing_mandatory f ++ missing_keys r files)
            (downloaded_files f ++ fetched_keys r files) /\
    attempts (events (download_requested self r local_dir files f))
    = map (fun fi => (bucket_name self, entry_key fi,
                      path_join local_dir (entry_key fi)))
          files.
Proof.
  induction files as [|fi files IH]; intros Hall f.
  - cbn. unfold missing_keys, fetched_keys. cbn. rewrite !app_nil_r.
    destruct f; repeat split; reflexivity.
  - cbn [forallb] in Hall. apply andb_true_iff in Hall.
    destruct Hall as [Hfi Hall]. specialize (IH Hall).
    unfold entry_answered in Hfi.
    cbn [download_requested].
    unfold missing_keys, fetched_keys, fetched, entry_key in *.
    cbn [filter map].
    destruct (key fi) as [k|] eqn:Hk; [|discriminate].
    erewrite bind_ok by (apply download_file_run; exact Hfi).
    unfold after. cbn [outcome state_after events].
    destruct (client_error r k) as [e|] eqn:He; cbn [negb andb].
    + destruct (get_mandatory fi) eqn:Hm.
      * erewrite bind_ok by reflexivity. unfold after.
        cbn [outcome state_after events app filter map]. rewrite Hk.
        destruct (IH (append_missing k f)) as (Ho & Hs & Ha).
        rewrite Ho, Hs. rewrite !attempts_app, Ha, attempts_fetch.
        unfold append_missing. cbn [missing_mandatory downloaded_files map app].
        rewrite <- app_assoc. repeat split; reflexivity.
      * erewrite bind_ok by reflexivity. unfold after.
        cbn [outcome state_after events app].
        destruct (IH f) as (Ho & Hs & Ha).
        rewrite Ho, Hs. rewrite !attempts_app, Ha, attempts_fetch.
        repeat split; reflexivity.
    + erewrite bind_ok by reflexivity. unfold after.
      cbn [outcome state_after events app filter map]. rewrite Hk.
      destruct (IH (append_downloaded k f)) as (Ho & Hs & Ha).
      rewrite Ho, Hs. rewrite !attempts_app, Ha, attempts_fetch.
      unfold append_downloaded. cbn [missing_mandatory downloaded_files map app].
      rewrite <- app_assoc. repeat split; reflexivity.
Qed.

(** When some entry has no key or is not answered, the loop raises. *)
Lemma download_requested_crashes (local_dir : string) (files : list file_info) :
  forallb (entry_answered r local_dir) files = false ->
  forall f : frame,
    exists e, outcome (download_requested self r local_dir files f) = inl e.
Proof.
  induction files as [|fi files IH]; intros Hall f; [discriminate|].
  cbn [forallb] in Hall. cbn [download_requested].
  unfold entry_answered in Hall.
  destruct (key fi) as [k|] eqn:Hk; [|eexists; reflexivity].
  destruct (answered r local_dir k) eqn:Ha.
  - cbn [andb] in Hall.
    erewrite bind_ok by (apply download_file_run; exact Ha).
    unfold after. cbn [outcome].
    match goal with
    | |- context [bind ?m ?c f] =>
        assert (Hstep : exists f', m f = Run (inr tt) f' [])
    end.
    { destruct (client_error r k); [destruct (get_mandatory fi)|];
        eexists; reflexivity. }
    destruct Hstep as [f' Hstep].
    erewrite bind_ok by exact Hstep. unfold after. cbn [outcome].
    apply IH. exact Hall.
  - destruct (download_file_crashes k local_dir f Ha) as (e & He & _).
    exists e. unfold bind. rewrite He. reflexivity.
Qed.

(** Whatever happens, the loop calls [client.download_file] on the bucket
    and on [os.path.join(local_dir, key)] only. *)
Lemma download_requested_calls (local_dir : string) (files : list file_info) :
  forall (f : frame) (b k p : string),
    In (DownloadFile b k p)
       (events (download_requested self r local_dir files f)) ->
    b = bucket_name self /\ p = path_join local_dir k.
Proof.
  induction files as [|fi files IH]; intros f b k p Hin; [contradiction|].
  cbn [download_requested] in Hin.
  destruct (key fi) as [k0|]; [|contradiction].
  apply bind_events in Hin. destruct Hin as [Hin | (ok & _ & Hin)].
  - apply download_file_calls in Hin. destruct Hin as (-> & -> & ->).
    split; reflexivity.
  - apply bind_events in Hin. destruct Hin as [Hin | (u & _ & Hin)].
    + destruct ok; [|destruct (get_mandatory fi)]; contradiction.
    + exact (IH _ b k p Hin).
Qed.

(** The same for the loop over the objects of the bucket. *)
Lemma download_objects_run (local_dir : string) (keys : list string) :
  forallb (answered r local_dir) keys = true ->
  forall f : frame,
    outcome (download_objects self r local_dir keys f) = inr tt /\
    state_after (download_objects self r local_dir keys f)
    = Frame (missing_mandatory f)
            (downloaded_files f ++ filter (deliverable r) keys) /\
    attempts (events (download_objects self r local_dir keys f))
    = map (fun k => (bucket_name self, k, path_join local_dir k)) keys.
Proof.
  induction keys as [|k keys IH]; intros Hall f.
  - cbn. rewrite app_nil_r. destruct f; repeat split; reflexivity.
  - cbn [forallb] in Hall. apply andb_true_iff in Hall.
    destruct Hall as [Hk Hall]. specialize (IH Hall).
    cbn [download_objects].
    erewrite bind_ok by (apply download_file_run; exact Hk).
    unfold after. cbn [outcome state_after events filter map].
    unfold deliverable at 1.
    destruct (client_error r k) as [e|] eqn:He.
    + erewrite bind_ok by reflexivity. unfold after.
      cbn [outcome state_after events app].
      destruct (IH f) as (Ho & Hs & Ha).
      rewrite Ho, Hs. rewrite !attempts_app, Ha, attempts_fetch.
      repeat split; reflexivity.
    + erewrite bind_ok by reflexivity. unfold after.
      cbn [outcome state_after events app].
      destruct (IH (append_downloaded k f)) as (Ho & Hs & Ha).
      rewrite Ho, Hs. rewrite !attempts_app, Ha, attempts_fetch.
      unfold append_downloaded. cbn [missing_mandatory downloaded_files map app].
      rewrite <- app_assoc. repeat split; reflexivity.
Qed.

Lemma download_objects_crashes (local_dir : string) (keys : list string) :
  forallb (answered r local_dir) keys = false ->
  forall f : frame,
    exists e, outcome (download_objects self r local_dir keys f) = inl e.
Proof.
  induction keys as [|k keys IH]; intros Hall f; [discriminate|].
  cbn [forallb] in Hall. cbn [download_objects].
  destruct (answered r local_dir k) eqn:Ha.
  - cbn [andb] in Hall.
    erewrite bind_ok by (apply download_file_run; exact Ha).
    unfold after. cbn [outcome].
    match goal with
    | |- context [bind ?m ?c f] =>
        assert (Hstep : exists f', m f = Run (inr tt) f' [])
    end.
    { destruct (client_error r k); eexists; reflexivity. }
    destruct Hstep as [f' Hstep].
    erewrite bind_ok by exact Hstep. unfold after. cbn [outcome].
    apply IH. exact Hall.
  - destruct (download_file_crashes k local_dir f Ha) as (e & He & _).
    exists e. unfold bind. rewrite He. reflexivity.
Qed.

Lemma download_objects_calls (local_dir : string) (keys : list string) :
  forall (f : frame) (b k p : string),
    In (DownloadFile b k p)
       (events (download_objects self r local_dir keys f)) ->
    b = bucket_name self /\ p = path_join local_dir k.
Proof.
  induction keys as [|k0 keys IH]; intros f b k p Hin; [contradiction|].
  cbn [download_objects] in Hin.
  apply bind_events in Hin. destruct Hin as [Hin | (ok & _ & Hin)].
  - apply download_file_calls in Hin. destruct Hin as (-> & -> & ->).
    split; reflexivity.
  - apply bind_events in Hin. destruct Hin as [Hin | (u & _ & Hin)].
    + destruct ok; contradiction.
    + exact (IH _ b k p Hin).
Qed.

Lemma download_pages_run (local_dir : string) (ps : list (option (list string))) :
  forallb (answered r local_dir) (List.concat (map contents_of ps)) = true ->
  forall f : frame,
    outcome (download_pages self r local_dir ps f) = inr tt /\
    state_after (download_pages self r local_dir ps f)
    = Frame (missing_mandatory f)
            (downloaded_files f
             ++ filter (deliverable r) (List.concat (map contents_of ps))) /\
    attempts (events (download_pages self r local_dir ps f))
    = map (fun k => (bucket_name self, k, path_join local_dir k))
          (List.concat (map contents_of ps)).
Proof.
  induction ps as [|page ps IH]; intros Hall f.
  - cbn. rewrite app_nil_r. destruct f; repeat split; reflexivity.
  - cbn [map List.concat] in Hall. rewrite forallb_app in Hall.
    apply andb_true_iff in Hall. destruct Hall as [Hpage Hall].
    specialize (IH Hall).
    cbn [download_pages map List.concat].
    fold (contents_of page).
    destruct (download_objects_run local_dir (contents_of page) Hpage f)
      as (Ho & Hs & Ha).
    destruct (download_objects self r local_dir (contents_of page) f)
      as [o s ev] eqn:Hrun.
    cbn [outcome state_after events] in Ho, Hs, Ha. subst o s.
    erewrite bind_ok by exact Hrun.
    unfold after. cbn [outcome state_after events].
    match goal with
    | |- context [download_pages self r local_dir ps ?g] =>
        destruct (IH g) as (Ho' & Hs' & Ha')
    end.
    rewrite Ho', Hs'. rewrite attempts_app, Ha, Ha'.
    cbn [missing_mandatory downloaded_files].
    rewrite filter_app, map_app, <- app_assoc.
    repeat split; reflexivity.
Qed.

Lemma download_pages_crashes (local_dir : string)
      (ps : list (option (list string))) :
  forallb (answered r local_dir) (List.concat (map contents_of ps)) = false ->
  forall f : frame,
    exists e, outcome (download_pages self r local_dir ps f) = inl e.
Proof.
  induction ps as [|page ps IH]; intros Hall f; [discriminate|].
  cbn [map List.concat] in Hall. rewrite forallb_app in Hall.
  cbn [download_pages]. fold (contents_of page).
  destruct (forallb (answered r local_dir) (contents_of page)) eqn:Hpage.
  - cbn [andb] in Hall.
    destruct (download_objects_run local_dir (contents_of page) Hpage f)
      as (Ho & _ & _).
    destruct (download_objects self r local_dir (contents_of page) f)
      as [o s ev] eqn:Hrun.
    cbn [outcome] in Ho. subst o.
    erewrite bind_ok by exact Hrun. unfold after. cbn [outcome].
    apply IH. exact Hall.
  - destruct (download_objects_crashes local_dir (contents_of page) Hpage f)
      as [e He].
    exists e. unfold bind. rewrite He. reflexivity.
Qed.

Lemma download_pages_calls (local_dir : string)
      (ps : list (option (list string))) :
  forall (f : frame) (b k p : string),
    In (DownloadFile b k p) (events (download_pages self r local_dir ps f)) ->
    b = bucket_name self /\ p = path_join local_dir k.
Proof.
  induction ps as [|page ps IH]; intros f b k p Hin; [contradiction|].
  cbn [download_pages] in Hin.
  apply bind_events in Hin. destruct Hin as [Hin | (u & _ & Hin)].
  - exact (download_objects_calls _ _ _ b k p Hin).
  - exact (IH _ b k p Hin).
Qed.

End TransferRuns.

(** [download_files] when [local_dir] cannot be created: it raises at once. *)
Lemma download_files_no_dir (self : Transfer.t) (r : Transfer.remote)
      (local_dir : string) (files : option (list Transfer.file_info))
      (download_all : bool) (e : failure) :
  Transfer.makedirs_failure r local_dir = Some e ->
  Transfer.call_download_files self r local_dir files download_all
  = Run (inl (exn_of e)) (Transfer.Frame [] []) [Transfer.Makedirs local_dir].
Proof.
  intro Hd. unfold Transfer.call_download_files, Transfer.download_files.
  erewrite bind_raise by (rewrite makedirs_run, Hd; reflexivity).
  reflexivity.
Qed.

Lemma download_files_requested_run (self : Transfer.t) (r : Transfer.remote)
      (local_dir : string) (file_info : Transfer.file_info)
      (files' : list Transfer.file_info) :
  let files := file_info :: files' in
  let run := Transfer.call_download_files self r local_dir (Some files) false in
  Transfer.makedirs_failure r local_dir = None ->
  forallb (entry_answered r local_dir) files = true ->
  state_after run
  = Transfer.Frame (missing_keys r files) (fetched_keys r files) /\
  attempts (events run)
  = map (fun fi => (Transfer.bucket_name self, entry_key fi,
                    Transfer.path_join local_dir (entry_key fi))) files /\
  outcome run
  = match missing_keys r files with
    | [] => inr (Transfer.Result (fetched_keys r files) [])
    | _ :: _ =>
        inl (FileNotFoundError
               [Text "Mandatory files missing in S3: ";
                Val (FStrList (missing_keys r files))])
    end.
Proof.
  intros files run Hd Hall. subst run files.
  destruct (download_requested_run self r local_dir (file_info :: files') Hall
                                   (Transfer.Frame [] [])) as (Ho & Hs & Ha).
  unfold Transfer.call_download_files, Transfer.download_files.
  erewrite bind_ok by (rewrite makedirs_run, Hd; reflexivity).
  erewrite bind_ok by reflexivity.
  unfold after. cbn [app events outcome state_after].
  destruct (Transfer.download_requested self r local_dir (file_info :: files')
                                        (Transfer.Frame [] []))
    as [o s ev] eqn:Hrun.
  cbn [outcome state_after events Transfer.missing_mandatory
       Transfer.downloaded_files app] in Ho, Hs, Ha.
  subst o s.
  erewrite bind_ok by exact Hrun.
  unfold after, bind, get, raise, ret.
  cbn [outcome state_after events Transfer.missing_mandatory
       Transfer.downloaded_files app attempts].
  destruct (missing_keys r (file_info :: files')) as [|k ks] eqn:Hm;
    cbn [outcome state_after events Transfer.missing_mandatory
         Transfer.downloaded_files app attempts];
    rewrite ?app_nil_r; repeat split; try reflexivity; exact Ha.
Qed.

Lemma download_files_requested_crashes (self : Transfer.t) (r : Transfer.remote)
      (local_dir : string) (file_info : Transfer.file_info)
      (files' : list Transfer.file_info) :
  Transfer.makedirs_failure r local_dir = None ->
  forallb (entry_answered r local_dir) (file_info :: files') = false ->
  exists e,
    outcome (Transfer.call_download_files self r local_dir
                                          (Some (file_info :: files')) false)
    = inl e.
Proof.
  intros Hd Hall.
  destruct (download_requested_crashes self r local_dir (file_info :: files')
                                       Hall (Transfer.Frame [] [])) as [e He].
  exists e.
  unfold Transfer.call_download_files, Transfer.download_files.
  erewrite bind_ok by (rewrite makedirs_run, Hd; reflexivity).
  erewrite bind_ok by reflexivity.
  unfold after. cbn [outcome].
  unfold bind at 1. rewrite He. reflexivity.
Qed.

Lemma in_missing_keys (r : Transfer.remote) (files : list Transfer.file_info)
      (k : string) :
  In k (missing_keys r files) <->
  exists fi, In fi files /\ entry_key fi = k /\
             Transfer.get_mandatory fi = true /\ fetched r fi = false.
Proof.
  unfold missing_keys. rewrite in_map_iff. split.
  - intros (fi & Hk & Hin). apply filter_In in Hin. destruct Hin as [Hin Hf].
    apply andb_true_iff in Hf. destruct Hf as [Hf Hm].
    apply negb_true_iff in Hf. exists fi. repeat split; assumption.
  - intros (fi & Hin & Hk & Hm & Hf). exists fi. split; [exact Hk|].
    apply filter_In. split; [exact Hin|]. rewrite Hf, Hm. reflexivity.
Qed.




(** * Further properties of the estimators *)

(** ** The report sinks *)

Lemma output_events_cases {F} (w : world) (github_output : bool)
      (total_gb total_cost : F) (color_code : option string) :
  output_events w github_output total_gb total_cost color_code
  = if github_output then
      Getenv "GITHUB_OUTPUT"
      :: match environ w "GITHUB_OUTPUT" with
         | Some f =>
             if truthy_str f then
               Open f
               :: match append_error w f with
                  | Some _ => []
                  | None =>
                      [Append f (output_lines total_gb total_cost color_code)]
                  end
             else []
         | None => []
         end
    else [].
Proof.
  unfold output_events, write_github_output, output_lines, append_lines.
  destruct github_output; [|reflexivity]. run_steps.
  destruct (environ w "GITHUB_OUTPUT") as [f|]; [|reflexivity].
  destruct (truthy_str f); [|reflexivity]. run_steps.
  destruct (append_error w f); reflexivity.
Qed.

Lemma summary_events_cases {F} (w : world) (label : string)
      (github_summary : bool) (total_gb total_cost : F)
      (color_code : option string) :
  summary_events w label github_summary total_gb total_cost color_code
  = if github_summary then
      Getenv "GITHUB_STEP_SUMMARY"
      :: match environ w "GITHUB_STEP_SUMMARY" with
         | Some f =>
             if truthy_str f then
               Open f
               :: match append_error w f with
                  | Some _ => []
                  | None =>
                      [Append f (summary_lines label total_gb total_cost
                                               color_code)]
                  end
             else []
         | None => []
         end
    else [].
Proof.
  unfold summary_events, write_github_summary, summary_lines, append_lines.
  destruct github_summary; [|reflexivity]. run_steps.
  destruct (environ w "GITHUB_STEP_SUMMARY") as [f|]; [|reflexivity].
  destruct (truthy_str f); [|reflexivity]. run_steps.
  destruct (append_error w f); reflexivity.
Qed.

Lemma truthy_str_iff (s : string) : truthy_str s = true <-> s <> ""%string.
Proof.
  unfold truthy_str. rewrite negb_true_iff. apply String.eqb_neq.
Qed.

(** The events of a sink, from a list of the shape both sinks have. *)
Lemma in_sink_events {F} (switched_on : bool) (variable : string)
      (w : world) (own : list (fstring F)) (file : string)
      (lines : list (fstring F)) :
  let evs :=
    if switched_on then
      Getenv variable
      :: match environ w variable with
         | Some f =>
             if truthy_str f then
               Open f
               :: match append_error w f with
                  | Some _ => []
                  | None => [Append f own]
                  end
             else []
         | None => []
         end
    else [] in
  (In (Open file) evs <->
   switched_on = true /\ environ w variable = Some file /\ file <> ""%string) /\
  (In (Append file lines) evs <->
   switched_on = true /\ environ w variable = Some file /\ file <> ""%string /\
   append_error w file = None /\ lines = own).
Proof.
  intro evs. subst evs.
  destruct switched_on;
    [|split; split; [intros [] | intros (Hx & _); discriminate
                     | intros [] | intros (Hx & _); discriminate]].
  destruct (environ w variable) as [f|] eqn:He;
    [|split; split; [intros [Hx | []]; discriminate
                     | intros (_ & Hx & _); discriminate
                     | intros [Hx | []]; discriminate
                     | intros (_ & Hx & _); discriminate]].
  destruct (truthy_str f) eqn:Ht.
  - apply truthy_str_iff in Ht.
    destruct (append_error w f) as [err|] eqn:Ha; split; split.
    + intros [Hx | [Hx | []]]; [discriminate|].
      injection Hx as <-. repeat split; assumption.
    + intros (_ & Hf & _). injection Hf as <-. right. left. reflexivity.
    + intros [Hx | [Hx | []]]; discriminate.
    + intros (_ & Hf & _ & Hn & _). injection Hf as <-. congruence.
    + intros [Hx | [Hx | [Hx | []]]]; try discriminate.
      injection Hx as <-. repeat split; assumption.
    + intros (_ & Hf & _). injection Hf as <-. right. left. reflexivity.
    + intros [Hx | [Hx | [Hx | []]]]; try discriminate.
      injection Hx as <- <-. repeat split; assumption.
    + intros (_ & Hf & _ & _ & ->). injection Hf as <-.
      right. right. left. reflexivity.
  - assert (Hempty : f = ""%string).
    { destruct (String.eqb_spec f "") as [E | E]; [exact E|].
      apply truthy_str_iff in E. congruence. }
    split; split.
    + intros [Hx | []]. discriminate.
    + intros (_ & Hf & Hne). injection Hf as <-. contradiction.
    + intros [Hx | []]. discriminate.
    + intros (_ & Hf & Hne & _). injection Hf as <-. contradiction.
Qed.

(** When a sink raises: it is switched on, its variable names a file, and
    appending to the file fails. *)
Lemma sink_failure_iff (w : world) (switched_on : bool) (variable : string)
      (err : failure) :
  sink_failure w switched_on variable = Some err <->
  exists file, switched_on = true /\ environ w variable = Some file /\
               file <> ""%string /\ append_error w file = Some err.
Proof.
  unfold sink_failure. destruct switched_on.
  - destruct (environ w variable) as [f|] eqn:He.
    + destruct (truthy_str f) eqn:Ht.
      * apply truthy_str_iff in Ht. split.
        -- intro Ha. exists f. repeat split; assumption.
        -- intros (file & _ & Hf & _ & Ha). injection Hf as <-. exact Ha.
      * split; [discriminate|].
        intros (file & _ & Hf & Hne & _). injection Hf as <-.
        apply truthy_str_iff in Hne. congruence.
    + split; [discriminate|]. intros (file & _ & Hf & _). discriminate.
  - split; [discriminate|]. intros (file & Hx & _). discriminate.
Qed.

(** X1.  The machine-readable sink of either class leaves the object as it
    is.  It opens a file exactly when [github_output] is set and
    [GITHUB_OUTPUT] names a file (is set and not empty); when the file can
    be appended to, it appends the three lines [total_gb=],
    [estimate_cost=], [color_code=] of the object's fields, and returns;
    when it cannot (the [open] or a write fails), the method raises that
    failure and nothing is recorded as appended.  Otherwise it writes
    nothing and returns. *)
Theorem github_output_written_iff_configured :
  (forall (F : Type) (N : Number F) (w : world) (o : CostS3.t F),
      outcome (CostS3._write_github_output w o)
      = match sink_failure w (CostS3.github_output o) "GITHUB_OUTPUT" with
        | Some err => inl (exn_of err)
        | None => inr tt
        end /\
      (forall err,
          sink_failure w (CostS3.github_output o) "GITHUB_OUTPUT" = Some err <->
          exists file,
            CostS3.github_output o = true /\
            environ w "GITHUB_OUTPUT" = Some file /\ file <> ""%string /\
            append_error w file = Some err) /\
      state_after (CostS3._write_github_output w o) = o /\
      forall file lines,
        (In (Open file) (events (CostS3._write_github_output w o)) <->
         CostS3.github_output o = true /\
         environ w "GITHUB_OUTPUT" = Some file /\ file <> ""%string) /\
        (In (Append file lines) (events (CostS3._write_github_output w o)) <->
         CostS3.github_output o = true /\
         environ w "GITHUB_OUTPUT" = Some file /\ file <> ""%string /\
         append_error w file = None /\
         lines = output_lines (CostS3.total_gb o) (CostS3.total_cost o)
                              (CostS3.color_code o))) /\
  (forall (F : Type) (N : Number F) (w : world) (o : CostCodeArtifact.t F),
      outcome (CostCodeArtifact._write_github_output w o)
      = match sink_failure w (CostCodeArtifact.github_output o)
                           "GITHUB_OUTPUT" with
        | Some err => inl (exn_of err)
        | None => inr tt
        end /\
      (forall err,
          sink_failure w (CostCodeArtifact.github_output o) "GITHUB_OUTPUT"
          = Some err <->
          exists file,
            CostCodeArtifact.github_output o = true /\
            environ w "GITHUB_OUTPUT" = Some file /\ file <> ""%string /\
            append_error w file = Some err) /\
      state_after (CostCodeArtifact._write_github_output w o) = o /\
      forall file lines,
        (In (Open file)
            (events (CostCodeArtifact._write_github_output w o)) <->
         CostCodeArtifact.github_output o = true /\
         environ w "GITHUB_OUTPUT" = Some file /\ file <> ""%string) /\
        (In (Append file lines)
            (events (CostCodeArtifact._write_github_output w o)) <->
         CostCodeArtifact.github_output o = true /\
         environ w "GITHUB_OUTPUT" = Some file /\ file <> ""%string /\
         append_error w file = None /\
         lines = output_lines (CostCodeArtifact.total_gb o)
                              (CostCodeArtifact.total_cost o)
                              (CostCodeArtifact.color_code o))).
Proof.
  split; intros F N w o.
  - rewrite s3_write_github_output_run. cbn [outcome state_after events].
    split; [reflexivity|]. split; [intro err; apply sink_failure_iff|].
    split; [reflexivity|].
    intros file lines. rewrite output_events_cases. apply in_sink_events.
  - rewrite code_artifact_write_github_output_run.
    cbn [outcome state_after events].
    split; [reflexivity|]. split; [intro err; apply sink_failure_iff|].
    split; [reflexivity|].
    intros file lines. rewrite output_events_cases. apply in_sink_events.
Qed.

(** X2.  The human-readable sink of either class leaves the object as it
    is.  It opens a file exactly when [github_summary] is set and
    [GITHUB_STEP_SUMMARY] names a file; when the file can be appended to,
    it appends the heading, the two lines of the table header and one row,
    under the label of the class ([S3] or [CodeArtifact]), and returns;
    when it cannot, the method raises that failure and nothing is recorded
    as appended. *)
Theorem github_summary_written_iff_configured :
  (forall (F : Type) (N : Number F) (w : world) (o : CostS3.t F),
      outcome (CostS3._write_github_summary w o)
      = match sink_failure w (CostS3.github_summary o)
                           "GITHUB_STEP_SUMMARY" with
        | Some err => inl (exn_of err)
        | None => inr tt
        end /\
      (forall err,
          sink_failure w (CostS3.github_summary o) "GITHUB_STEP_SUMMARY"
          = Some err <->
          exists file,
            CostS3.github_summary o = true /\
            environ w "GITHUB_STEP_SUMMARY" = Some file /\ file <> ""%string /\
            append_error w file = Some err) /\
      state_after (CostS3._write_github_summary w o) = o /\
      forall file lines,
        (In (Open file) (events (CostS3._write_github_summary w o)) <->
         CostS3.github_summary o = true /\
         environ w "GITHUB_STEP_SUMMARY" = Some file /\ file <> ""%string) /\
        (In (Append file lines) (events (CostS3._write_github_summary w o)) <->
         CostS3.github_summary o = true /\
         environ w "GITHUB_STEP_SUMMARY" = Some file /\ file <> ""%string /\
         append_error w file = None /\
         lines = summary_lines "S3" (CostS3.total_gb o) (CostS3.total_cost o)
                               (CostS3.color_code o))) /\
  (forall (F : Type) (N : Number F) (w : world) (o : CostCodeArtifact.t F),
      outcome (CostCodeArtifact._write_github_summary w o)
      = match sink_failure w (CostCodeArtifact.github_summary o)
                           "GITHUB_STEP_SUMMARY" with
        | Some err => inl (exn_of err)
        | None => inr tt
        end /\
      (forall err,
          sink_failure w (CostCodeArtifact.github_summary o)
                       "GITHUB_STEP_SUMMARY" = Some err <->
          exists file,
            CostCodeArtifact.github_summary o = true /\
            environ w "GITHUB_STEP_SUMMARY" = Some file /\ file <> ""%string /\
            append_error w file = Some err) /\
      state_after (CostCodeArtifact._write_github_summary w o) = o /\
      forall file lines,
        (In (Open file)
            (events (CostCodeArtifact._write_github_summary w o)) <->
         CostCodeArtifact.github_summary o = true /\
         environ w "GITHUB_STEP_SUMMARY" = Some file /\ file <> ""%string) /\
        (In (Append file lines)
            (events (CostCodeArtifact._write_github_summary w o)) <->
         CostCodeArtifact.github_summary o = true /\
         environ w "GITHUB_STEP_SUMMARY" = Some file /\ file <> ""%string /\
         append_error w file = None /\
         lines = summary_lines "CodeArtifact" (CostCodeArtifact.total_gb o)
                               (CostCodeArtifact.total_cost o)
                               (CostCodeArtifact.color_code o))).
Proof.
  split; intros F N w o.
  - rewrite s3_write_github_summary_run. cbn [outcome state_after events].
    split; [reflexivity|]. split; [intro err; apply sink_failure_iff|].
    split; [reflexivity|].
    intros file lines. rewrite summary_events_cases. apply in_sink_events.
  - rewrite code_artifact_write_github_summary_run.
    cbn [outcome state_after events].
    split; [reflexivity|]. split; [intro err; apply sink_failure_iff|].
    split; [reflexivity|].
    intros file lines. rewrite summary_events_cases. apply in_sink_events.
Qed.

(** ** The collector, in full *)

Lemma pathlike_split (l : list pathlike) :
  (exists ps, l = map PathObj ps) \/
  (exists ps s rest, l = map PathObj ps ++ Str s :: rest).
Proof.
  induction l as [|[s|p] l IH].
  - left. exists []. reflexivity.
  - right. exists [], s, l. reflexivity.
  - destruct IH as [(ps & ->) | (ps & s & rest & ->)].
    + left. exists (p :: ps). reflexivity.
    + right. exists (p :: ps), s, rest. reflexivity.
Qed.

Lemma gathered_str {F} (w : world) (folder : option pathlike)
      (files : option (list pathlike)) (ps : list path) (s : string)
      (rest : list pathlike) :
  folder_missing w folder = false ->
  listed files = map PathObj ps ++ Str s :: rest ->
  gathered (F:=F) w folder files
  = inl (AttributeError [Text "'str' object has no attribute 'is_file'"]).
Proof.
  unfold gathered, gather, folder_missing, walked, listed.
  intros Hmiss Hps.
  assert (Hk : forall qs,
             outcome (keep_files (F:=F) w
                        (map PathObj qs ++ map PathObj ps ++ Str s :: rest) tt)
             = inl (AttributeError
                      [Text "'str' object has no attribute 'is_file'"])).
  { intro qs. rewrite app_assoc, <- map_app. apply keep_files_str. }
  destruct files as [[|f fs]|];
    try (destruct ps; discriminate Hps).
  rewrite Hps.
  destruct folder as [x|]; [destruct (truthy_pathlike x)|];
    cbn [andb] in Hmiss; unfold walk; try rewrite Hmiss; run_steps.
  - apply Hk.
  - apply (Hk []).
  - apply (Hk []).
Qed.



(** The collector returns exactly when the folder is not missing and the
    explicit list holds no [str]; what it returns is then the regular files
    of the walk followed by those of the list. *)
Lemma gathered_inr_inv {F} (w : world) (folder : option pathlike)
      (files : option (list pathlike)) (kept : list path) :
  gathered (F:=F) w folder files = inr kept ->
  folder_missing w folder = false /\
  exists ps, listed files = map PathObj ps /\
             kept = filter (path_is_file w) (walked w folder ++ ps).
Proof.
  intro Hg.
  destruct (folder_missing w folder) eqn:Hmiss.
  - destruct folder as [x|]; [|discriminate].
    rewrite (gathered_missing (F:=F) w x files Hmiss) in Hg. discriminate.
  - split; [reflexivity|].
    destruct (pathlike_split (listed files))
      as [(ps & Hps) | (ps & s & rest & Hps)].
    + exists ps. split; [exact Hps|].
      rewrite (gathered_paths (F:=F) w folder files ps Hmiss Hps) in Hg.
      injection Hg as <-. reflexivity.
    + rewrite (gathered_str (F:=F) w folder files ps s rest Hmiss Hps) in Hg.
      discriminate.
Qed.

Lemma gathered_inl_inv {F} (w : world) (folder : option pathlike)
      (files : option (list pathlike)) (e : exn F) :
  gathered (F:=F) w folder files = inl e ->
  (exists x, folder = Some x /\ folder_missing w folder = true /\
             e = FileNotFoundError
                   [Text "Folder "; Val (FStr (Path x)); Text " does not exist"]) \/
  (folder_missing w folder = false /\
   (exists ps s rest, listed files = map PathObj ps ++ Str s :: rest) /\
   e = AttributeError [Text "'str' object has no attribute 'is_file'"]).
Proof.
  intro Hg.
  destruct (folder_missing w folder) eqn:Hmiss.
  - destruct folder as [x|]; [|discriminate].
    rewrite (gathered_missing (F:=F) w x files Hmiss) in Hg.
    injection Hg as <-. left. exists x. repeat split; assumption.
  - right. split; [reflexivity|].
    destruct (pathlike_split (listed files))
      as [(ps & Hps) | (ps & s & rest & Hps)].
    + rewrite (gathered_paths (F:=F) w folder files ps Hmiss Hps) in Hg.
      discriminate.
    + rewrite (gathered_str (F:=F) w folder files ps s rest Hmiss Hps) in Hg.
      injection Hg as <-. split; [|reflexivity].
      exists ps, s, rest. exact Hps.
Qed.

(** X3.  What the collector returns is exactly the regular files of its two
    sources: when it returns [inventory], a path is in the inventory if and
    only if it is a regular file and either the walk of the folder yields it
    or it is in the explicit list; nothing else is ever billed. *)
Theorem inventory_is_regular_files_of_sources :
  forall (F : Type) (w : world) (folder : option pathlike)
         (files : option (list pathlike)) (inventory : list path),
    gathered (F:=F) w folder files = inr inventory ->
    forall p : path,
      In p inventory <->
      path_is_file w p = true /\
      (In p (walked w folder) \/ In (PathObj p) (listed files)).
Proof.
  intros F w folder files inventory Hg p.
  destruct (gathered_inr_inv w folder files Hg) as (_ & ps & Hps & ->).
  rewrite Hps, filter_In, in_app_iff, in_map_iff.
  split.
  - intros [[Hin | Hin] Hf]; (split; [exact Hf|]).
    + left. exact Hin.
    + right. exists p. split; [reflexivity | exact Hin].
  - intros [Hf [Hin | (q & Hq & Hin)]]; (split; [|exact Hf]).
    + left. exact Hin.
    + right. injection Hq as ->. exact Hin.
Qed.

Lemma inventory_is_regular_files_of_sources_witness :
  In "d/a"%string ["d/a"%string] <->
  (fun p => negb (String.eqb p "d/sub")) "d/a"%string = true /\
  (In "d/a"%string ["d/sub"%string; "d/a"%string] \/
   In (PathObj "d/a"%string) (@nil pathlike)).
Proof.
  apply (inventory_is_regular_files_of_sources
           (F:=float)
           (World (fun _ => true) (fun _ => ["d/sub"%string; "d/a"%string])
                  (fun p => negb (String.eqb p "d/sub")) (fun _ => 7%Z)
                  (fun _ => None) (fun _ => None))
           (Some (PathObj "d"%string)) None eq_refl "d/a"%string).
Defined.







(** X7.  When [calculate] returns, the object it leaves is consistent and
    the dictionary it returns repeats it: [all_files] is the inventory of
    the collector, [total_gb] is the sum of the sizes of [all_files], each
    over [1024 ** 3], [total_cost] is the cost of [total_gb] (tiered under
    the object's storage type, or flat), [color_code] classifies
    [total_cost] against the threshold, and the three returned values are
    these fields. *)
Theorem calculate_returns_consistent_object :
  (forall (F : Type) (N : Number F) (w : world) (o : CostS3.t F)
          (est : estimate F),
      outcome (CostS3.calculate w o) = inr est ->
      let o' := state_after (CostS3.calculate w o) in
      gathered (F:=F) w (CostS3.folder o) (CostS3.files o)
      = inr (CostS3.all_files o') /\
      CostS3.total_gb o'
      = pysum (map (fun f => ratio (st_size w f) (2 ^ 30)) (CostS3.all_files o')) /\
      (exists tiers,
          dict_get _pricing (CostS3.storage_type o) = Some tiers /\
          CostS3.total_cost o' = tiered_cost tiers (CostS3.total_gb o')) /\
      CostS3.color_code o'
      = classify (CostS3.total_cost o') (CostS3.threshold o) /\
      est = Estimate (CostS3.total_gb o') (CostS3.total_cost o')
                     (CostS3.color_code o')) /\
  (forall (F : Type) (N : Number F) (w : world) (o : CostCodeArtifact.t F)
          (est : estimate F),
      outcome (CostCodeArtifact.calculate w o) = inr est ->
      let o' := state_after (CostCodeArtifact.calculate w o) in
      gathered (F:=F) w (CostCodeArtifact.folder o) (CostCodeArtifact.files o)
      = inr (CostCodeArtifact.all_files o') /\
      CostCodeArtifact.total_gb o'
      = pysum (map (fun f => ratio (st_size w f) (2 ^ 30))
                   (CostCodeArtifact.all_files o')) /\
      CostCodeArtifact.total_cost o'
      = (CostCodeArtifact.total_gb o' * ratio 5 100)%num /\
      CostCodeArtifact.color_code o'
      = classify (CostCodeArtifact.total_cost o') (CostCodeArtifact.threshold o) /\
      est = Estimate (CostCodeArtifact.total_gb o')
                     (CostCodeArtifact.total_cost o')
                     (CostCodeArtifact.color_code o')).
Proof.
  split.
  - intros F N w o est.
    destruct (String.eqb (CostS3.region o) "eu-west-1") eqn:Hr;
      [|rewrite (s3_calculate_bad_region w o Hr); discriminate].
    destruct (dict_get (@_pricing F N) (CostS3.storage_type o))
      as [tiers|] eqn:Hs.
    + assert (Hm : dict_mem (@_pricing F N) (CostS3.storage_type o) = true)
        by (unfold dict_mem; rewrite Hs; reflexivity).
      destruct (gathered (F:=F) w (CostS3.folder o) (CostS3.files o))
        as [x|kept] eqn:Hg;
        [rewrite (s3_calculate_gather_raises w o Hr Hm Hg); discriminate|].
      rewrite (s3_calculate_measures w o Hr Hs Hg).
      cbn [outcome state_after].
      destruct (sinks_failure w (CostS3.github_output o)
                              (CostS3.github_summary o)); [discriminate|].
      intro He. injection He as <-.
      cbn. repeat split; try reflexivity.
      exists tiers. split; reflexivity.
    + assert (Hm : dict_mem (@_pricing F N) (CostS3.storage_type o) = false)
        by (unfold dict_mem; rewrite Hs; reflexivity).
      rewrite (s3_calculate_bad_storage_type w o Hr Hm). discriminate.
  - intros F N w o est.
    destruct (String.eqb (CostCodeArtifact.region o) "eu-west-1") eqn:Hr;
      [|rewrite (code_artifact_calculate_bad_region w o Hr); discriminate].
    destruct (gathered (F:=F) w (CostCodeArtifact.folder o)
                       (CostCodeArtifact.files o)) as [x|kept] eqn:Hg;
      [rewrite (code_artifact_calculate_gather_raises w o Hr Hg); discriminate|].
    rewrite (code_artifact_calculate_measures w o Hr Hg).
    cbn [outcome state_after].
    destruct (sinks_failure w (CostCodeArtifact.github_output o)
                            (CostCodeArtifact.github_summary o));
      [discriminate|].
    intro He. injection He as <-.
    cbn. repeat split; reflexivity.
Qed.

Lemma calculate_returns_consistent_object_witness :
  gathered (F:=float)
           (World (fun _ => true) (fun _ => ["d/a"%string]) (fun _ => true)
                  (fun _ => 1073741824%Z) (fun _ => None) (fun _ => None))
           (Some (Str "d")) None
  = inr (CostCodeArtifact.all_files
           (state_after
              (CostCodeArtifact.calculate
                 (World (fun _ => true) (fun _ => ["d/a"%string])
                        (fun _ => true) (fun _ => 1073741824%Z)
                        (fun _ => None) (fun _ => None))
                 (CostCodeArtifact.init (F:=float) "eu-west-1"
                                        (Some (Str "d")) None None false
                                        false)))).
Proof.
  apply (proj2 calculate_returns_consistent_object float binary64
               (World (fun _ => true) (fun _ => ["d/a"%string]) (fun _ => true)
                      (fun _ => 1073741824%Z) (fun _ => None) (fun _ => None))
               (CostCodeArtifact.init (F:=float) "eu-west-1" (Some (Str "d"))
                                      None None false false)
               _ eq_refl).
Defined.

(** X8.  [calculate] starts from scratch: run again on the object a first
    run leaves, in the same world, it ends the same way, performs the same
    events and leaves the same object.  Nothing of a previous run (the
    inventory, the capacity, the cost, the color) is carried into the
    next. *)
Theorem calculate_twice_is_calculate_once :
  (forall (F : Type) (N : Number F) (w : world) (o : CostS3.t F),
      CostS3.calculate w (state_after (CostS3.calculate w o))
      = CostS3.calculate w o) /\
  (forall (F : Type) (N : Number F) (w : world) (o : CostCodeArtifact.t F),
      CostCodeArtifact.calculate w (state_after (CostCodeArtifact.calculate w o))
      = CostCodeArtifact.calculate w o).
Proof.
  split.
  - intros F N w o.
    remember (CostS3.calculate w o) as first eqn:Hfirst.
    destruct (String.eqb (CostS3.region o) "eu-west-1") eqn:Hr.
    + destruct (dict_get (@_pricing F N) (CostS3.storage_type o))
        as [tiers|] eqn:Hs.
      * destruct (gathered (F:=F) w (CostS3.folder o) (CostS3.files o))
          as [x|kept] eqn:Hg.
        -- assert (Hm : dict_mem (@_pricing F N) (CostS3.storage_type o) = true)
             by (unfold dict_mem; rewrite Hs; reflexivity).
           pose proof (s3_calculate_gather_raises w o Hr Hm Hg) as Hrun.
           rewrite Hrun in Hfirst. subst first. cbn [state_after].
           exact (s3_calculate_gather_raises w o Hr Hm Hg).
        -- pose proof (s3_calculate_measures w o Hr Hs Hg) as Hrun.
           cbv zeta in Hrun. rewrite Hrun in Hfirst. subst first.
           cbn [state_after].
           exact (s3_calculate_measures
                    w (CostS3.set_color_code _
                         (CostS3.set_total_cost _
                            (CostS3.set_total_gb _
                               (CostS3.set_all_files kept o))))
                    Hr Hs Hg).
      * assert (Hm : dict_mem (@_pricing F N) (CostS3.storage_type o) = false)
          by (unfold dict_mem; rewrite Hs; reflexivity).
        pose proof (s3_calculate_bad_storage_type w o Hr Hm) as Hrun.
        rewrite Hrun in Hfirst. subst first. cbn [state_after].
        exact (s3_calculate_bad_storage_type w o Hr Hm).
    + pose proof (s3_calculate_bad_region w o Hr) as Hrun.
      rewrite Hrun in Hfirst. subst first. cbn [state_after].
      exact (s3_calculate_bad_region w o Hr).
  - intros F N w o.
    remember (CostCodeArtifact.calculate w o) as first eqn:Hfirst.
    destruct (String.eqb (CostCodeArtifact.region o) "eu-west-1") eqn:Hr.
    + destruct (gathered (F:=F) w (CostCodeArtifact.folder o)
                         (CostCodeArtifact.files o)) as [x|kept] eqn:Hg.
      * pose proof (code_artifact_calculate_gather_raises w o Hr Hg) as Hrun.
        rewrite Hrun in Hfirst. subst first. cbn [state_after].
        exact (code_artifact_calculate_gather_raises w o Hr Hg).
      * pose proof (code_artifact_calculate_measures w o Hr Hg) as Hrun.
        cbv zeta in Hrun. rewrite Hrun in Hfirst. subst first.
        cbn [state_after].
        exact (code_artifact_calculate_measures
                 w (CostCodeArtifact.set_color_code _
                      (CostCodeArtifact.set_total_cost _
                         (CostCodeArtifact.set_total_gb _
                            (CostCodeArtifact.set_all_files kept o))))
                 Hr Hg).
    + pose proof (code_artifact_calculate_bad_region w o Hr) as Hrun.
      rewrite Hrun in Hfirst. subst first. cbn [state_after].
      exact (code_artifact_calculate_bad_region w o Hr).
Qed.
(** * Further properties of the pricing model and the classifier *)

Section EstimateSign.

Import B64 B64Round B64Bra B64Rnd B64Ops B64Arith B64Prim B64Const B64Nonneg
       B64Int B64Gb.
Local Open Scope Z_scope.

(** The size in GB of a file is a number that is not negative. *)
Lemma gb_nonneg (z : Z) :
  0 <= z < 2 ^ 63 ->
  nan (ratio (F:=float) z (2 ^ 30)) = false /\
  0 <= val (ratio (F:=float) z (2 ^ 30)).
Proof.
  intro Hz.
  destruct (Z.eq_dec z 0) as [-> | Hnz]; [split; vm_compute; [reflexivity | discriminate]|].
  pose proof (of_Z_SF Hz) as HSF.
  destruct (binary_normalize_ord z 0 false) as [Hn Hv].
  assert (Hval : val (Binary64.of_Z z) = rnds z 0)
    by (unfold val; rewrite HSF; exact Hv).
  assert (Hlo : 2 ^ 1074 <= val (Binary64.of_Z z)).
  { rewrite Hval.
    apply Z.le_trans with (rnds 1 0); [|apply rnds_mono; lia].
    rewrite rnds_exact; [reflexivity | reflexivity | lia |
                         vm_compute; reflexivity]. }
  assert (Hhi : val (Binary64.of_Z z) < TOP).
  { rewrite Hval.
    apply Z.le_lt_trans with (rnds (1 * 2 ^ 63) (0 - 63 + 63)).
    - apply rnds_mono. lia.
    - replace (0 - 63 + 63) with (63 - 63) by ring.
      rewrite rnds_shift by lia.
      rewrite rnds_exact; [vm_compute; reflexivity | reflexivity | lia |
                           vm_compute; reflexivity]. }
  assert (Hf : finite (Binary64.of_Z z) = true).
  { unfold finite, nan. rewrite HSF, Hn. cbn [negb andb].
    apply Z.ltb_lt. rewrite Z.abs_eq by lia. exact Hhi. }
  assert (H1074 : 0 < 2 ^ 1074) by (apply Z.pow_pos_nonneg; lia).
  destruct (@positive_SF (Binary64.of_Z z) Hf ltac:(lia)) as (m & e & HSF').
  destruct (finite_of_SF _ HSF') as (_ & _ & Hv' & Hb).
  destruct (bounded_inv _ _ Hb) as (Hr & _ & Hnorm).
  pose proof (bounded_mantissa _ _ Hb) as [Hm _].
  assert (He : - 52 <= e).
  { destruct (Z_lt_le_dec e (- 52)) as [Hlt | Hge]; [exfalso | exact Hge].
    assert (Hp : 2 ^ (e + 1074) <= 2 ^ 1021) by (apply Z.pow_le_mono_r; lia).
    assert (E1074 : 2 ^ 1074 = 2 ^ 53 * 2 ^ 1021) by reflexivity.
    assert (0 < 2 ^ 1021) by (apply Z.pow_pos_nonneg; lia).
    assert (0 < 2 ^ (e + 1074)) by (apply Z.pow_pos_nonneg; lia).
    rewrite Hv' in Hlo. nia. }
  assert (Hd : digits (Zpos m) = 53) by (destruct Hnorm; [lia | assumption]).
  destruct (@div_gb _ m e HSF' Hd ltac:(lia)) as [Hnq Hq].
  split; [exact Hnq|].
  cbn [ratio binary64]. unfold Binary64.of_ratio.
  assert (0 < 2 ^ 30) by lia. nia.
Qed.

(** A sum of numbers that are not negative is not negative. *)
Lemma fold_nonneg (xs : list float) :
  forall acc : float,
    nan acc = false -> 0 <= val acc ->
    Forall (fun x => nan x = false /\ 0 <= val x) xs ->
    nan (fold_left fadd xs acc) = false /\ 0 <= val (fold_left fadd xs acc).
Proof.
  induction xs as [|x xs IH]; intros acc Na Ha Hall; [split; assumption|].
  inversion Hall as [|? ? [Nx Hx] Hall']; subst.
  cbn [fold_left]. cbn [fadd binary64].
  destruct (add_nonneg acc x Na Nx Ha Hx) as [Ns _].
  pose proof (add_nonneg_ge acc x Na Nx Ha Hx) as Hs.
  apply IH; [exact Ns | lia | exact Hall'].
Qed.

Lemma pysum_nonneg (w : world) (inventory : list path) :
  (forall p, In p inventory -> 0 <= st_size w p < 2 ^ 63) ->
  (of_int 0 <=? pysum (map (size_gb (F:=float) w) inventory))%num = true.
Proof.
  intro Hall. destruct zero_val as [Nz Hz].
  destruct (@fold_nonneg (map (size_gb (F:=float) w) inventory) (of_int 0)
                         Nz ltac:(lia)) as [Ns Hs].
  { apply Forall_forall. intros x Hx. apply in_map_iff in Hx.
    destruct Hx as (p & <- & Hp). apply gb_nonneg, Hall, Hp. }
  unfold pysum. cbn [fleb binary64].
  rewrite (leb_val _ _ Nz Ns). apply Z.leb_le. lia.
Qed.

Lemma tiered_cost_nonneg (c : float) :
  (of_int 0 <=? c)%num = true ->
  (of_int 0 <=? tiered_cost STANDARD c)%num = true.
Proof.
  intro H0. destruct (@nonneg_val _ H0) as [Nc Hc].
  destruct zero_val as [Nz Hz].
  destruct (tier_loop_monotone STANDARD (of_int 0) (of_int 0)
                               standard_billable Nz ltac:(lia))
    as [Hnum _].
  destruct (Hnum c Nc Hc) as [Nr Hr].
  unfold tiered_cost. cbn [fleb binary64].
  rewrite (leb_val _ _ Nz Nr). apply Z.leb_le. exact Hr.
Qed.

Lemma flat_cost_nonneg (c : float) :
  (of_int 0 <=? c)%num = true ->
  (of_int 0 <=? flat_cost c)%num = true.
Proof.
  intro H0. destruct (@nonneg_val _ H0) as [Nc Hc].
  destruct zero_val as [Nz Hz]. destruct rate_val as [Fk Hk].
  destruct (@mul_price _pricing_per_gb c Fk ltac:(rewrite Hk; lia) Nc Hc)
    as [Nr Hr].
  unfold flat_cost. cbn [fleb fmul binary64].
  rewrite (leb_val _ _ Nz Nr). apply Z.leb_le. lia.
Qed.

End EstimateSign.

(** X9.  On doubles an estimate is never negative and never NaN.  When the
    sizes of the files are not negative (and below [2 ** 63], as [st_size]
    is), the capacity is [>= 0], whatever is lost to rounding; the tiered
    cost of a capacity [>= 0] is [>= 0], and so is the flat cost, infinity
    included; and the capacity and the cost that [calculate] of either
    class returns are [>= 0]. *)
Theorem estimate_is_not_negative :
  (forall (w : world) (inventory : list path),
      (forall p, In p inventory -> (0 <= st_size w p < 2 ^ 63)%Z) ->
      (of_int 0
       <=? pysum (map (fun f => ratio (F:=float) (st_size w f) (2 ^ 30))
                      inventory))%num = true) /\
  (forall c : float,
      (of_int 0 <=? c)%num = true ->
      (of_int 0 <=? tiered_cost STANDARD c)%num = true) /\
  (forall c : float,
      (of_int 0 <=? c)%num = true ->
      (of_int 0 <=? flat_cost c)%num = true) /\
  (forall (w : world) (o : CostS3.t float) (est : estimate float),
      (forall p, (0 <= st_size w p < 2 ^ 63)%Z) ->
      outcome (CostS3.calculate w o) = inr est ->
      (of_int 0 <=? result_total_gb est)%num = true /\
      (of_int 0 <=? result_total_cost est)%num = true) /\
  (forall (w : world) (o : CostCodeArtifact.t float) (est : estimate float),
      (forall p, (0 <= st_size w p < 2 ^ 63)%Z) ->
      outcome (CostCodeArtifact.calculate w o) = inr est ->
      (of_int 0 <=? result_total_gb est)%num = true /\
      (of_int 0 <=? result_total_cost est)%num = true).
Proof.
  split; [|split; [|split; [|split]]].
  - intros w inventory Hall. apply pysum_nonneg. exact Hall.
  - exact tiered_cost_nonneg.
  - exact flat_cost_nonneg.
  - intros w o est Hsizes.
    destruct (String.eqb (CostS3.region o) "eu-west-1") eqn:Hr;
      [|rewrite (s3_calculate_bad_region w o Hr); discriminate].
    destruct (dict_get (@_pricing float _) (CostS3.storage_type o))
      as [tiers|] eqn:Hs.
    + assert (Hm : dict_mem (@_pricing float _) (CostS3.storage_type o) = true)
        by (unfold dict_mem; rewrite Hs; reflexivity).
      destruct (gathered (F:=float) w (CostS3.folder o) (CostS3.files o))
        as [x|kept] eqn:Hg;
        [rewrite (s3_calculate_gather_raises w o Hr Hm Hg); discriminate|].
      rewrite (s3_calculate_measures w o Hr Hs Hg). cbn [outcome].
      destruct (sinks_failure w (CostS3.github_output o)
                              (CostS3.github_summary o)); [discriminate|].
      intro He. injection He as <-.
      cbn [result_total_gb result_total_cost].
      assert (Ht : tiers = STANDARD).
      { unfold _pricing in Hs. cbn [dict_get] in Hs.
        destruct (String.eqb (CostS3.storage_type o) "STANDARD");
          [injection Hs as <-; reflexivity | discriminate]. }
      subst tiers.
      assert (Hgb : (of_int 0 <=? pysum (map (size_gb (F:=float) w) kept))%num
                    = true)
        by (apply pysum_nonneg; intros p _; apply Hsizes).
      split; [exact Hgb | apply tiered_cost_nonneg; exact Hgb].
    + assert (Hm : dict_mem (@_pricing float _) (CostS3.storage_type o) = false)
        by (unfold dict_mem; rewrite Hs; reflexivity).
      rewrite (s3_calculate_bad_storage_type w o Hr Hm). discriminate.
  - intros w o est Hsizes.
    destruct (String.eqb (CostCodeArtifact.region o) "eu-west-1") eqn:Hr;
      [|rewrite (code_artifact_calculate_bad_region w o Hr); discriminate].
    destruct (gathered (F:=float) w (CostCodeArtifact.folder o)
                       (CostCodeArtifact.files o)) as [x|kept] eqn:Hg;
      [rewrite (code_artifact_calculate_gather_raises w o Hr Hg); discriminate|].
    rewrite (code_artifact_calculate_measures w o Hr Hg). cbn [outcome].
    destruct (sinks_failure w (CostCodeArtifact.github_output o)
                            (CostCodeArtifact.github_summary o));
      [discriminate|].
    intro He. injection He as <-.
    cbn [result_total_gb result_total_cost].
    assert (Hgb : (of_int 0 <=? pysum (map (size_gb (F:=float) w) kept))%num
                  = true)
      by (apply pysum_nonneg; intros p _; apply Hsizes).
    split; [exact Hgb | apply flat_cost_nonneg; exact Hgb].
Qed.

Lemma estimate_is_not_negative_witness :
  (of_int 0 <=? tiered_cost (F:=float) STANDARD (of_int 100))%num = true.
Proof.
  refine (proj1 (proj2 estimate_is_not_negative) (of_int 100) _).
  vm_compute. reflexivity.
Defined.

(** X10.  A higher cost never gets a milder color: on doubles, for every
    threshold (of either sign, infinite or NaN) and all costs [c1 <= c2],
    the color of [c1] is at most as severe as the color of [c2] (green,
    then yellow, then red). *)
Theorem color_is_monotone_in_cost :
  forall c1 c2 threshold : float,
    (c1 <=? c2)%num = true ->
    (severity (color_of c1 threshold)
     <= severity (color_of c2 threshold))%nat.
Proof. exact color_monotone_binary64. Qed.

Lemma color_is_monotone_in_cost_witness :
  (severity (color_of (F:=float) (ratio 1 4) (of_int 1))
   <= severity (color_of (F:=float) (ratio 3 4) (of_int 1)))%nat.
Proof.
  refine (@color_is_monotone_in_cost (ratio 1 4) (ratio 3 4) (of_int 1) _).
  vm_compute. reflexivity.
Defined.

Lemma binary64_ltb_nan_r (x y : float) :
  Prim2SF y = S754_nan -> PrimFloat.ltb x y = false.
Proof.
  intro Hy. rewrite ltb_spec, Hy. unfold SFltb, SFcompare.
  destruct (Prim2SF x) as [| | |? ? ?]; reflexivity.
Qed.

Lemma binary64_ltb_nan_l (x y : float) :
  Prim2SF x = S754_nan -> PrimFloat.ltb x y = false.
Proof.
  intro Hx. rewrite ltb_spec, Hx. reflexivity.
Qed.

Lemma binary64_mul_nan_l (x y : float) :
  Prim2SF x = S754_nan -> Prim2SF (PrimFloat.mul x y) = S754_nan.
Proof.
  intro Hx. rewrite mul_spec, Hx. reflexivity.
Qed.

(** X11.  A comparison with NaN is false, so NaN never gets a mild color: in
    binary64 every cost is classified red against a NaN threshold, and a NaN
    cost is classified red against every threshold; the same holds in exact
    arithmetic with its NaN. *)
Theorem nan_is_red :
  (forall cost : float, classify cost (Some nan) = Some "red"%string) /\
  (forall threshold : float, classify nan (Some threshold) = Some "red"%string) /\
  (forall cost : exact, classify cost (Some NaN) = Some "red"%string) /\
  (forall threshold : exact, classify NaN (Some threshold) = Some "red"%string).
Proof.
  split; [|split; [|split]].
  - intro cost. cbv [classify color_of fltb fmul binary64].
    rewrite (@binary64_ltb_nan_r cost (PrimFloat.mul nan (ratio 5 10)))
      by (apply binary64_mul_nan_l; reflexivity).
    rewrite (@binary64_ltb_nan_r cost nan) by reflexivity.
    reflexivity.
  - intro threshold. cbv [classify color_of fltb fmul binary64].
    rewrite !(@binary64_ltb_nan_l nan) by reflexivity.
    reflexivity.
  - intro cost. destruct cost; reflexivity.
  - intro threshold. reflexivity.
Qed.
(** * Further properties of the object transfer *)

Lemma download_all_run (self : Transfer.t) (r : Transfer.remote)
      (local_dir : string) (files : option (list Transfer.file_info)) :
  Transfer.makedirs_failure r local_dir = None ->
  forallb (answered r local_dir) (listing r) = true ->
  let run := Transfer.call_download_files self r local_dir files true in
  attempts (events run)
  = map (fun k => (Transfer.bucket_name self, k, Transfer.path_join local_dir k))
        (listing r) /\
  state_after run = Transfer.Frame [] (filter (deliverable r) (listing r)) /\
  outcome run
  = match Transfer.listing_error r with
    | Some e => inl (OtherError "ClientError" e)
    | None => inr (Transfer.Result (filter (deliverable r) (listing r)) [])
    end.
Proof.
  intros Hd Hall run. subst run.
  destruct (download_pages_run self r local_dir (Transfer.pages r) Hall
                               (Transfer.Frame [] [])) as (Ho & Hs & Ha).
  unfold Transfer.call_download_files, Transfer.download_files.
  erewrite bind_ok by (rewrite makedirs_run, Hd; reflexivity).
  erewrite bind_ok by reflexivity.
  erewrite bind_ok by reflexivity.
  unfold after. cbn [app events outcome state_after].
  destruct (Transfer.download_pages self r local_dir (Transfer.pages r)
                                    (Transfer.Frame [] []))
    as [o s ev] eqn:Hrun.
  cbn [outcome state_after events Transfer.missing_mandatory
       Transfer.downloaded_files app] in Ho, Hs, Ha.
  subst o s.
  erewrite bind_ok by exact Hrun.
  unfold after, bind, get, raise, ret.
  destruct (Transfer.listing_error r);
    cbn [outcome state_after events Transfer.missing_mandatory
         Transfer.downloaded_files app attempts];
    rewrite ?app_nil_r; repeat split; try reflexivity; exact Ha.
Qed.

Lemma download_all_crashes (self : Transfer.t) (r : Transfer.remote)
      (local_dir : string) (files : option (list Transfer.file_info)) :
  Transfer.makedirs_failure r local_dir = None ->
  forallb (answered r local_dir) (listing r) = false ->
  exists e,
    outcome (Transfer.call_download_files self r local_dir files true) = inl e.
Proof.
  intros Hd Hall.
  destruct (download_pages_crashes self r local_dir (Transfer.pages r) Hall
                                   (Transfer.Frame [] [])) as [e He].
  exists e.
  unfold Transfer.call_download_files, Transfer.download_files.
  erewrite bind_ok by (rewrite makedirs_run, Hd; reflexivity).
  erewrite bind_ok by reflexivity.
  erewrite bind_ok by reflexivity.
  unfold after. cbn [outcome].
  unfold bind at 1. rewrite He. reflexivity.
Qed.

(** X12.  [download_files] with [download_all] true does not look at the
    list of entries.  When [local_dir] cannot be created it raises the
    failure of [os.makedirs] and attempts nothing.  When it can, and the
    download of every key of the bucket's listing is answered: every key is
    attempted, page after page, into [local_dir]; the keys the bucket
    delivers are collected; and the function returns them, with an empty
    [missing_mandatory], unless the listing itself ends in a [ClientError],
    which is raised after the pages before it were fetched.  When the
    download of some key is not answered, the function raises. *)
Theorem download_all_fetches_listing :
  forall (self : Transfer.t) (r : Transfer.remote) (local_dir : string)
         (files : option (list Transfer.file_info)),
    let run := Transfer.call_download_files self r local_dir files true in
    run = Transfer.call_download_files self r local_dir None true /\
    (forall e, Transfer.makedirs_failure r local_dir = Some e ->
               outcome run = inl (exn_of e) /\ attempts (events run) = []) /\
    (Transfer.makedirs_failure r local_dir = None ->
     forallb (answered r local_dir) (listing r) = true ->
     attempts (events run)
     = map (fun k => (Transfer.bucket_name self, k,
                      Transfer.path_join local_dir k)) (listing r) /\
     state_after run = Transfer.Frame [] (filter (deliverable r) (listing r)) /\
     outcome run
     = match Transfer.listing_error r with
       | Some e => inl (OtherError "ClientError" e)
       | None => inr (Transfer.Result (filter (deliverable r) (listing r)) [])
       end) /\
    (Transfer.makedirs_failure r local_dir = None ->
     forallb (answered r local_dir) (listing r) = false ->
     exists e, outcome run = inl e).
Proof.
  intros self r local_dir files run. subst run.
  split; [reflexivity|]. split; [|split].
  - intros e Hd.
    rewrite (download_files_no_dir self r local_dir files true Hd).
    split; reflexivity.
  - intros Hd Hall. exact (download_all_run self r local_dir files Hd Hall).
  - intros Hd Hall. exact (download_all_crashes self r local_dir files Hd Hall).
Qed.

Lemma download_all_fetches_listing_witness :
  outcome
    (Transfer.call_download_files
       (Transfer.Make "bucket" "eu-west-1")
       (Transfer.Remote
          [Some ["a"; "b"]%string; None; Some ["c"%string]] None
          (fun k => if String.eqb k "b" then Some "403"%string else None)
          (fun _ _ => None) (fun _ => None))
       "out" None true)
  = inr (Transfer.Result ["a"; "c"]%string []).
Proof.
  refine (proj2 (proj2 (proj1 (proj2 (proj2 (download_all_fetches_listing
            (Transfer.Make "bucket" "eu-west-1")
            (Transfer.Remote
               [Some ["a"; "b"]%string; None; Some ["c"%string]] None
               (fun k => if String.eqb k "b" then Some "403"%string else None)
               (fun _ _ => None) (fun _ => None))
            "out" None))) _ _))); reflexivity.
Defined.

(** X13.  When [download_files] raises.  Its first action is to create
    [local_dir], and it raises when that fails.  Otherwise, with
    [download_all] true, it raises exactly when the download of some key of
    the listing is not answered or the listing ends in an error; with
    [download_all] false, exactly when a list of entries is given and some
    entry has no key, or its download is not answered, or it is mandatory
    and not fetched.  With no entries it returns. *)
Theorem download_files_raises_iff :
  forall (self : Transfer.t) (r : Transfer.remote) (local_dir : string)
         (files : option (list Transfer.file_info)) (download_all : bool),
    let run :=
      Transfer.call_download_files self r local_dir files download_all in
    ((exists e, outcome run = inl e) <->
     Transfer.makedirs_failure r local_dir <> None \/
     (download_all = true /\
      (forallb (answered r local_dir) (listing r) = false \/
       Transfer.listing_error r <> None)) \/
     (download_all = false /\
      exists fs,
        files = Some fs /\
        (forallb (entry_answered r local_dir) fs = false \/
         exists fi, In fi fs /\ Transfer.get_mandatory fi = true /\
                    fetched r fi = false))) /\
    exists rest, events run = Transfer.Makedirs local_dir :: rest.
Proof.
  intros self r local_dir files download_all run. subst run. split.
  - destruct (Transfer.makedirs_failure r local_dir) as [err|] eqn:Hd.
    { rewrite (download_files_no_dir self r local_dir files download_all Hd).
      split; [intros _; left; discriminate | intros _; eexists; reflexivity]. }
    destruct download_all.
    + destruct (forallb (answered r local_dir) (listing r)) eqn:Hall.
      * destruct (download_all_run self r local_dir files Hd Hall)
          as (_ & _ & Ho).
        rewrite Ho. split.
        -- intros [e He]. right. left. split; [reflexivity|]. right.
           destruct (Transfer.listing_error r); discriminate.
        -- intros [Hx | [(_ & [Hx | Hx]) | (Hx & _)]];
             try contradiction; try discriminate.
           destruct (Transfer.listing_error r); [|contradiction].
           eexists. reflexivity.
      * split.
        -- intros _. right. left. split; [reflexivity | left; reflexivity].
        -- intros _. exact (download_all_crashes self r local_dir files Hd Hall).
    + destruct files as [[|fi0 fs]|].
      * split.
        -- intros [e He]. unfold Transfer.call_download_files,
             Transfer.download_files in He.
           erewrite bind_ok in He by (rewrite makedirs_run, Hd; reflexivity).
           discriminate.
        -- intros [Hx | [(Hx & _) | (_ & fs & Hfs & [Hx | (fi & Hin & _)])]];
             try contradiction; try discriminate;
             injection Hfs as <-; [discriminate | contradiction].
      * destruct (forallb (entry_answered r local_dir) (fi0 :: fs)) eqn:Hall.
        -- destruct (download_files_requested_run self r local_dir fi0 fs
                                                  Hd Hall) as (_ & _ & Ho).
           rewrite Ho. split.
           ++ intros [e He]. right. right. split; [reflexivity|].
              exists (fi0 :: fs). split; [reflexivity|]. right.
              destruct (missing_keys r (fi0 :: fs)) as [|k ks] eqn:Hm;
                [discriminate|].
              assert (Hin : In k (missing_keys r (fi0 :: fs)))
                by (rewrite Hm; left; reflexivity).
              apply in_missing_keys in Hin.
              destruct Hin as (fi & Hin & _ & Hmand & Hf).
              exists fi. repeat split; assumption.
           ++ intros [Hx | [(Hx & _) | (_ & fs' & Hfs & Hbad)]];
                try contradiction; try discriminate.
              injection Hfs as <-.
              destruct Hbad as [Hx | (fi & Hin & Hmand & Hf)];
                [rewrite Hall in Hx; discriminate|].
              assert (Hk : In (entry_key fi) (missing_keys r (fi0 :: fs))).
              { apply in_missing_keys. exists fi. repeat split; assumption. }
              destruct (missing_keys r (fi0 :: fs)) as [|k ks];
                [contradiction|].
              eexists. reflexivity.
        -- split.
           ++ intros _. right. right. split; [reflexivity|].
              exists (fi0 :: fs). split; [reflexivity | left; exact Hall].
           ++ intros _.
              exact (download_files_requested_crashes self r local_dir fi0 fs
                                                      Hd Hall).
      * split.
        -- intros [e He]. unfold Transfer.call_download_files,
             Transfer.download_files in He.
           erewrite bind_ok in He by (rewrite makedirs_run, Hd; reflexivity).
           discriminate.
        -- intros [Hx | [(Hx & _) | (_ & fs & Hfs & _)]];
             try contradiction; discriminate.
  - unfold Transfer.call_download_files, Transfer.download_files,
      Transfer.makedirs.
    destruct (Transfer.makedirs_failure r local_dir); run_steps;
      eexists; reflexivity.
Qed.

Section UploadRuns.

Import Transfer.

Variable self : t.
Variable u : uploader.

Lemma upload_attempts_app (l1 l2 : list upload_call) :
  upload_attempts (l1 ++ l2) = upload_attempts l1 ++ upload_attempts l2.
Proof.
  induction l1 as [|e l1 IH]; [reflexivity|].
  destruct e; cbn [app upload_attempts]; rewrite IH; reflexivity.
Qed.

(** [_upload_file] on a key and a path that are not empty: one call of
    [client.upload_file], and the answer is whether it succeeds. *)
Lemma upload_file_run (c : ascii) (k p : string) (f : upload_frame) :
  exists ev,
    _upload_file self u (Some (String c k)) p f
    = Run (inr (match u p (String c k) with None => true | Some _ => false end))
          f ev /\
    upload_attempts ev = [(p, bucket_name self, String c k)].
Proof.
  unfold _upload_file. run_steps.
  destruct (u p (String c k)) as [[e|e]|]; run_steps;
    eexists; split; reflexivity.
Qed.

(** The loop of [upload_files]: it never raises, every entry goes to one of
    the two lists, and an upload is attempted for the entries that have a
    key and a path. *)
Lemma upload_each_run (files : list upload_info) :
  forall f : upload_frame,
    outcome (upload_each self u files f) = inr tt /\
    state_after (upload_each self u files f)
    = UploadFrame
        (uploaded_files f ++ map key_of (filter (uploadable u) files))
        (failed_files f ++ filter (fun i => negb (uploadable u i)) files) /\
    upload_attempts (events (upload_each self u files f))
    = map (fun i => (path_of i, bucket_name self, key_of i))
          (filter attempted files).
Proof.
  induction files as [|i files IH]; intro f.
  - cbn. rewrite !app_nil_r. destruct f; repeat split; reflexivity.
  - cbn [upload_each filter].
    destruct (uploadable u i) eqn:HU; destruct (attempted i) eqn:HA;
      cbn [negb map];
      destruct i as [[[|c k]|] [[|c' p]|]];
      cbv in HU; cbv in HA; try discriminate;
      cbn [upload_key upload_path key_of path_of falsy String.eqb orb];
      try (destruct (upload_file_run c k (String c' p) f) as (ev & Hrun & Hev);
           unfold bind; rewrite Hrun; cbn [outcome state_after events];
           destruct (u (String c' p) (String c k)) as [e|] eqn:Hu;
           try discriminate);
      run_steps;
      match goal with
      | |- context [upload_each self u files ?g] =>
          destruct (IH g) as (Ho & Hs & Ha)
      end;
      rewrite Ho, Hs; rewrite ?upload_attempts_app, Ha, ?Hev;
      unfold append_failed, append_uploaded;
      cbn [uploaded_files failed_files map app upload_attempts];
      rewrite <- ?app_assoc; repeat split; reflexivity.
Qed.

End UploadRuns.

(** X14.  [upload_files] never raises (when [client.upload_file] succeeds or
    ends in [FileNotFoundError] or [ClientError]) and sorts every entry into
    one of its two lists, in the order of the argument: [uploaded] holds the
    keys of the entries that have a key and a path, neither empty, and whose
    upload succeeds; [failed] holds all the other entries.
    [client.upload_file] is called for exactly the entries that have a key
    and a path, with the object's bucket. *)
Theorem upload_files_sorts_entries :
  forall (self : Transfer.t) (u : Transfer.uploader)
         (files : list Transfer.upload_info),
    let run := Transfer.call_upload_files self u files in
    outcome run
    = inr (Transfer.UploadResult
             (map key_of (filter (uploadable u) files))
             (filter (fun i => negb (uploadable u i)) files)) /\
    upload_attempts (events run)
    = map (fun i => (path_of i, Transfer.bucket_name self, key_of i))
          (filter attempted files) /\
    (List.length (map key_of (filter (uploadable u) files))
     + List.length (filter (fun i => negb (uploadable u i)) files)
     = List.length files)%nat.
Proof.
  intros self u files run. subst run.
  destruct (upload_each_run self u files (Transfer.UploadFrame [] []))
    as (Ho & Hs & Ha).
  split; [|split].
  - unfold Transfer.call_upload_files, Transfer.upload_files. run_steps.
    destruct (Transfer.upload_each self u files (Transfer.UploadFrame [] []))
      as [o s ev].
    cbn [outcome state_after events Transfer.uploaded_files
         Transfer.failed_files app] in *.
    subst o s. reflexivity.
  - unfold Transfer.call_upload_files, Transfer.upload_files. run_steps.
    destruct (Transfer.upload_each self u files (Transfer.UploadFrame [] []))
      as [o s ev].
    cbn [outcome state_after events Transfer.uploaded_files
         Transfer.failed_files app] in *.
    subst o s. cbn [upload_attempts events]. rewrite app_nil_r. exact Ha.
  - rewrite length_map. clear Ho Hs Ha.
    induction files as [|i files IH]; [reflexivity|].
    cbn [filter]. destruct (uploadable u i); cbn [negb List.length]; lia.
Qed.

Lemma path_join_absolute (a rest : string) :
  Transfer.path_join a (String "/" rest) = String "/" rest.
Proof. reflexivity. Qed.

Lemma path_join_relative (a : string) (c : ascii) (rest : string) :
  c <> "/"%char -> a <> ""%string -> Transfer.ends_with_sep a = false ->
  Transfer.path_join a (String c rest) = (a ++ "/" ++ String c rest)%string.
Proof.
  intros Hc Ha He. unfold Transfer.path_join, Transfer.is_sep, Transfer.sep.
  destruct (Ascii.eqb_spec c "/"%char) as [Heq | _]; [contradiction|].
  destruct (String.eqb_spec a "") as [Heq | _]; [contradiction|].
  rewrite He. reflexivity.
Qed.

(** X15.  Where a download lands.  Every call of [client.download_file] that
    [download_files] makes is on the object's bucket and writes to
    [os.path.join(local_dir, key)].  A key that begins with ["/"] is
    therefore written to the path that is the key itself, outside
    [local_dir]; any other key, for a [local_dir] that is not empty and does
    not end with ["/"], is written to [local_dir + "/" + key]. *)
Theorem download_destination :
  forall (self : Transfer.t) (r : Transfer.remote) (local_dir : string)
         (files : option (list Transfer.file_info)) (download_all : bool)
         (b k p : string),
    In (b, k, p)
       (attempts
          (events (Transfer.call_download_files self r local_dir files
                                                download_all))) ->
    b = Transfer.bucket_name self /\
    p = Transfer.path_join local_dir k /\
    (forall rest, k = String "/" rest -> p = k) /\
    (forall c rest,
        k = String c rest -> c <> "/"%char ->
        local_dir <> ""%string -> Transfer.ends_with_sep local_dir = false ->
        p = (local_dir ++ "/" ++ k)%string).
Proof.
  intros self r local_dir files download_all b k p Hin.
  assert (Hbp : b = Transfer.bucket_name self /\
                p = Transfer.path_join local_dir k).
  { apply in_attempts in Hin.
    unfold Transfer.call_download_files, Transfer.download_files in Hin.
    apply bind_events in Hin. destruct Hin as [Hin | (u1 & _ & Hin)].
    { rewrite makedirs_run in Hin. destruct Hin as [Hx | []]. discriminate. }
    apply bind_events in Hin. destruct Hin as [[] | (u2 & _ & Hin)].
    destruct download_all.
    - apply bind_events in Hin. destruct Hin as [Hin | (u3 & _ & Hin)].
      { destruct Hin as [Hx | []]. discriminate. }
      apply bind_events in Hin. destruct Hin as [Hin | (u4 & _ & Hin)].
      + exact (download_pages_calls _ _ _ _ _ b k p Hin).
      + destruct (Transfer.listing_error r); contradiction.
    - destruct files as [[|fi0 fs]|].
      + destruct Hin as [Hx | []]. discriminate.
      + apply bind_events in Hin. destruct Hin as [Hin | (u3 & _ & Hin)].
        * exact (download_requested_calls _ _ _ _ _ b k p Hin).
        * unfold bind, get in Hin. cbn [outcome state_after events] in Hin.
          destruct (Transfer.missing_mandatory _); contradiction.
      + destruct Hin as [Hx | []]. discriminate. }
  destruct Hbp as [Hb Hp]. split; [exact Hb|]. split; [exact Hp|]. split.
  - intros rest Hk. rewrite Hp, Hk. apply path_join_absolute.
  - intros c rest Hk Hc Hd He. rewrite Hp, Hk.
    apply path_join_relative; assumption.
Qed.

Lemma download_destination_witness :
  "bucket"%string = Transfer.bucket_name (Transfer.Make "bucket" "eu-west-1") /\
  "/tmp/a.bin"%string = Transfer.path_join "out" "/tmp/a.bin".
Proof.
  destruct (@download_destination
              (Transfer.Make "bucket" "eu-west-1")
              (Transfer.Remote [Some ["/tmp/a.bin"%string]] None (fun _ => None)
                               (fun _ _ => None) (fun _ => None))
              "out" None true "bucket" "/tmp/a.bin" "/tmp/a.bin")
    as (Hb & Hp & _).
  - vm_compute. left. reflexivity.
  - split; [exact Hb | exact Hp].
Defined.

(** * The supported configurations *)

Lemma pricing_keys {F} `{Number F} (storage_type : string) :
  dict_mem (@_pricing F _) storage_type = String.eqb storage_type "STANDARD".
Proof.
  unfold dict_mem, _pricing. cbn [dict_get].
  destruct (String.eqb storage_type "STANDARD"); reflexivity.
Qed.

Lemma gathered_not_value_error {F} (w : world) (folder : option pathlike)
      (files : option (list pathlike)) (msg : fstring F) :
  gathered (F:=F) w folder files <> inl (ValueError msg).
Proof.
  intro Hg. apply gathered_inl_inv in Hg.
  destruct Hg as [(x & _ & _ & He) | (_ & _ & He)]; discriminate.
Qed.

Lemma sinks_not_value_error {F} (w : world) (github_output github_summary : bool)
      (msg : fstring F) :
  sinks_failure w github_output github_summary <> Some (ValueError msg).
Proof.
  unfold sinks_failure.
  destruct (sink_failure w github_output "GITHUB_OUTPUT") as [[?|? ?]|];
    try discriminate.
  destruct (sink_failure w github_summary "GITHUB_STEP_SUMMARY") as [[?|? ?]|];
    discriminate.
Qed.

(** X16.  The configurations [calculate] rejects.  [cost.S3.calculate] ends
    in [ValueError] exactly when the region is not ["eu-west-1"] or the
    storage type is not ["STANDARD"] (both compared as they are written:
    ["standard"] is rejected), and [cost.CodeArtifact.calculate] exactly
    when the region is not ["eu-west-1"]; the files never cause a
    [ValueError]. *)
Theorem calculate_rejects_iff_unsupported :
  (forall (F : Type) (N : Number F) (w : world) (o : CostS3.t F),
      (exists msg, outcome (CostS3.calculate w o) = inl (ValueError msg)) <->
      (CostS3.region o <> "eu-west-1"%string \/
       CostS3.storage_type o <> "STANDARD"%string)) /\
  (forall (F : Type) (N : Number F) (w : world) (o : CostCodeArtifact.t F),
      (exists msg,
          outcome (CostCodeArtifact.calculate w o) = inl (ValueError msg)) <->
      CostCodeArtifact.region o <> "eu-west-1"%string) /\
  (forall (F : Type) (N : Number F) (w : world) region folder files threshold
          github_summary github_output,
      exists msg,
        outcome (CostS3.calculate
                   w (CostS3.init (F:=F) region "standard" folder files
                                  threshold github_summary github_output))
        = inl (ValueError msg)).
Proof.
  assert (Hs3 : forall (F : Type) (N : Number F) (w : world) (o : CostS3.t F),
             (exists msg, outcome (CostS3.calculate w o) = inl (ValueError msg)) <->
             (CostS3.region o <> "eu-west-1"%string \/
              CostS3.storage_type o <> "STANDARD"%string)).
  { intros F N w o. split.
    - intros [msg Hm]. apply s3_calculate_raises_iff in Hm.
      unfold s3_failure in Hm. rewrite pricing_keys in Hm.
      destruct (String.eqb_spec (CostS3.region o) "eu-west-1") as [Hr | Hr];
        [|left; exact Hr].
      destruct (String.eqb_spec (CostS3.storage_type o) "STANDARD") as [Hst | Hst];
        [|right; exact Hst].
      cbn [negb] in Hm.
      destruct (gathered (F:=F) w (CostS3.folder o) (CostS3.files o))
        as [e|kept] eqn:Hg.
      * subst e. exfalso. exact (gathered_not_value_error _ _ _ Hg).
      * exfalso. exact (sinks_not_value_error _ _ _ Hm).
    - intro Hbad.
      destruct (String.eqb_spec (CostS3.region o) "eu-west-1") as [Hr | Hr].
      + destruct Hbad as [Hne | Hst]; [contradiction|].
        eexists. apply s3_calculate_raises_iff. unfold s3_failure.
        rewrite pricing_keys.
        apply String.eqb_eq in Hr. rewrite Hr.
        apply String.eqb_neq in Hst. rewrite Hst. reflexivity.
      + eexists. apply s3_calculate_raises_iff. unfold s3_failure.
        apply String.eqb_neq in Hr. rewrite Hr. reflexivity. }
  split; [exact Hs3 | split].
  - intros F N w o. split.
    + intros [msg Hm]. apply code_artifact_calculate_raises_iff in Hm.
      unfold code_artifact_failure in Hm.
      destruct (String.eqb_spec (CostCodeArtifact.region o) "eu-west-1")
        as [Hr | Hr]; [|exact Hr].
      cbn [negb] in Hm.
      destruct (gathered (F:=F) w (CostCodeArtifact.folder o)
                         (CostCodeArtifact.files o))
        as [e|kept] eqn:Hg.
      * subst e. exfalso. exact (gathered_not_value_error _ _ _ Hg).
      * exfalso. exact (sinks_not_value_error _ _ _ Hm).
    + intro Hr. eexists. apply code_artifact_calculate_raises_iff.
      unfold code_artifact_failure.
      apply String.eqb_neq in Hr. rewrite Hr. reflexivity.
  - intros F N w region folder files threshold gs go.
    apply Hs3. right. cbn. discriminate.
Qed.
